(** * Human: object-detection decode pipeline and detection orchestrator

    A shallow embedding of [src/nanodet/nanodet.ts] (stride decoder, suppressor
    call, frame-skip cache), of the key points of [blazepose.ts] and of the
    [Human] class ([load], [#checkBackend], [detect], [warmup]), with the
    properties of the specification, and further properties of the code,
    stated over it.

    Numbers.  JavaScript numbers are embedded as exact rationals ([Q]) where
    the source computes with fractions (scores, normalised coordinates,
    thresholds) and as integers ([nat], [Z]) where it counts or indexes.  The
    properties below are about comparisons, clamping, indices, ordering and
    counting; IEEE rounding is not part of the embedding.  The model input
    size is a parsed tensor dimension and is embedded as a [positive], so no
    division by zero occurs in the decoder.

    Collaborators.  The tensor runtime, the label table and the sibling
    modules that are not part of the embedded sources are interfaces
    ([ObjectRuntime], [Collaborators]); the statements of Part II are proved
    for an arbitrary implementation of them.  Part III runs the embedded code
    on a small concrete implementation ([Sample]) and instantiates the
    statements there. *)

From Stdlib Require Import ZArith QArith Qminmax List String Bool Lia Lqa Sorted
  Permutation.
From stdpp Require Import gmap strings.
Import ListNotations.

Set Implicit Arguments.

(* ================================================================== *)
(** * Part I. Definitions *)
(* ================================================================== *)

(** ** JavaScript number helpers *)

(** [Math.trunc]: rounding toward zero. *)
Definition trunc (q : Q) : Z := Z.quot (Qnum q) (Zpos (Qden q)).

(** [a > b] on numbers. *)
Definition Qgtb (a b : Q) : bool := negb (Qle_bool a b).

(** [a < b] on numbers. *)
Definition Qltb (a b : Q) : bool := negb (Qle_bool b a).

Definition Qnat (n : nat) : Q := inject_Z (Z.of_nat n).

(** [Number.MAX_SAFE_INTEGER]. *)
Definition MAX_SAFE_INTEGER : Z := 2 ^ 53 - 1.

(** [n++] on a counter that holds a whole number as a double.  From
    [-2^53] up to [2^53 - 1] the next integer is representable and the
    increment is exact.  From [2^53] on only every second integer is
    representable, then every fourth, and so on: [n + 1] falls half-way
    between [n] and [n + 2] and is rounded to the one with the even
    significand while [n] is below [2^54] in magnitude, and back to [n]
    beyond.  So a counter that is incremented from [MAX_SAFE_INTEGER] reaches
    [2^53] and stays there. *)
Definition incr (n : Z) : Z :=
  if (- 2 ^ 53 <=? n)%Z && (n <? 2 ^ 53)%Z then (n + 1)%Z
  else if (Z.abs n <? 2 ^ 54)%Z && Z.odd (n / 2) then (n + 2)%Z
  else n.

(** [s.includes(sub)] on strings. *)
Definition includes (s sub : string) : bool :=
  match String.index 0 sub s with Some _ => true | None => false end.

(** ** Configuration *)

Record FaceConfig := {
  face_enabled : bool;
  age_enabled : bool;
  gender_enabled : bool;
  emotion_enabled : bool;
  embedding_enabled : bool;
  description_enabled : bool }.

Record BodyConfig := {
  body_enabled : bool;
  body_modelPath : string }.

Record ObjectConfig := {
  object_enabled : bool;
  object_modelPath : string;
  minConfidence : Q;
  iouThreshold : Q;
  maxResults : nat;
  skipFrames : Z }.

Record Config := {
  backend : string;
  wasmPath : string;
  debug : bool;
  async : bool;
  profile : bool;
  deallocate : bool;
  scoped : bool;
  videoOptimized : bool;
  warmup_mode : string;
  face : FaceConfig;
  body : BodyConfig;
  hand_enabled : bool;
  object : ObjectConfig;
  gesture_enabled : bool }.

(** ** Tensors, images and model handles *)

(** A rank-3 tensor of shape [[1, dim1, dim2]]; [at_ t i j] reads the element
    at [[0, i, j]].  Only positions inside the shape are ever read. *)
Record Tensor := {
  dim1 : nat;
  dim2 : nat;
  at_ : nat -> nat -> Q }.

(** An input frame tensor of shape [[1, height, width, 3]]. *)
Record Image := {
  height : nat;
  width : nat;
  pixels : list Z }.

(** A loaded graph model: the path it was loaded from and the spatial input
    size read from its signature ([model.inputSize]). *)
Record Handle := {
  handle_path : string;
  inputSize : positive }.

(** ** Detection candidates ([results] entries of [process]) *)

Record Candidate := {
  id : nat;
  strideSize : nat;
  score : Q;
  class : nat;
  label : string;
  center : list Z;
  centerRaw : list Q;
  box : list Z;
  boxRaw : list Q }.

(** ** The tensor runtime and label table used by the object pipeline *)

Class ObjectRuntime := {
  (** [labels] of [./labels]: the label of each class, by zero-based index. *)
  labels : list string;
  (** Intersection-over-union of two boxes as the runtime's suppressor
      measures it. *)
  iou : list Q -> list Q -> Q;
  (** [tf.loadGraphModel(path)] followed by reading the input size from the
      model signature. *)
  loadGraphModel : string -> Handle;
  (** resize to the model input size, divide by 255, transpose, and
      [model.executeAsync]: the raw output tensor set of one invocation. *)
  executeAsync : Handle -> Image -> list Tensor;
  (** [t.reshape([-1, 4, F / 4]).argMax(2).arraySync()] for a feature count
      [F] that is not a positive multiple of four.  The source makes the call
      whatever [F] is; the last dimension is then not a whole number and what
      comes back is up to the kernels of the runtime: [None] when the call
      raises, and otherwise, for cell [i] and row [g] of the four, the index
      the runtime answers. *)
  argMax_ragged : Tensor -> option (nat -> nat -> nat) }.

(** [const scaleBox = 2.5]. *)
Definition scaleBox : Q := 5 # 2.

(** [(a) => Math.max(0, Math.min(a, 1))]. *)
Definition clamp (a : Q) : Q := Qmax 0 (Qmin a 1).

(** Modelled from the spec: the runtime's [argMax] over [n] values
    [v 0 .. v (n-1)] (not under src/): the index of the maximum value across
    the group, the first one when the maximum occurs more than once. *)
Fixpoint argMax_from (v : nat -> Q) (best j n : nat) : nat :=
  match n with
  | O => best
  | S n' => argMax_from v (if Qltb (v best) (v j) then j else best) (S j) n'
  end.

Definition argMax (v : nat -> Q) (n : nat) : nat := argMax_from v 0 0 n.

(** [featuresT.reshape([-1, 4, F / 4]).argMax(2).arraySync()[i]] when the
    features of a cell divide into four groups: for cell [i], the four arg-max
    indices, one per group of [F / 4] consecutive features. *)
Definition boxIdx (featuresT : Tensor) (i : nat) : list nat :=
  let n := (dim2 featuresT / 4)%nat in
  map (fun g => argMax (fun k => at_ featuresT i (g * n + k)) n) (seq 0 4).

(** The features of a cell divide into four groups of [F / 4] values: [F] is
    a positive multiple of four. *)
Definition four_groups (featuresT : Tensor) : bool :=
  (0 <? dim2 featuresT)%nat && (dim2 featuresT mod 4 =? 0)%nat.

Section Decoder.
Context {RT : ObjectRuntime}.

(** [boxIdx] of the source, the table
    [featuresT.reshape([-1, 4, F / 4]).argMax(2).arraySync()]: a row of four
    indices for each cell.  The source does not check [F]: the group arg-max
    for four groups, and the runtime's answer otherwise. *)
Definition boxIdx_table (featuresT : Tensor) : option (nat -> list nat) :=
  if four_groups featuresT then Some (boxIdx featuresT)
  else option_map (fun f i => map (f i) (seq 0 4)) (argMax_ragged featuresT).

(** The body of the innermost loop of [process] for cell [i] and class [j]:
    the candidate that is pushed when the score passes. *)
Definition make_result (id0 strideSize0 : nat) (inputSize0 : positive)
    (outputShape : nat * nat) (idx : list nat) (score0 : Q) (i j : nat)
    : Candidate :=
  let baseSize := (strideSize0 * 13)%nat in
  let cx := (((1 # 2) + inject_Z (trunc (Qnat (i mod baseSize)))) / Qnat baseSize)%Q in
  let cy := (((1 # 2) + inject_Z (trunc (Qnat i / Qnat baseSize))) / Qnat baseSize)%Q in
  let boxOffset :=
    map (fun a => (Qnat a * (Qnat baseSize / Qnat strideSize0 / inject_Z (Zpos inputSize0)))%Q) idx in
  let off k := nth k boxOffset 0%Q in
  let x := (cx - (scaleBox / Qnat strideSize0 * off 0%nat))%Q in
  let y := (cy - (scaleBox / Qnat strideSize0 * off 1%nat))%Q in
  let w := (cx + (scaleBox / Qnat strideSize0 * off 2%nat) - x)%Q in
  let h := (cy + (scaleBox / Qnat strideSize0 * off 3%nat) - y)%Q in
  let boxRaw0 := map clamp [x; y; w; h] in
  let raw k := nth k boxRaw0 0%Q in
  let box0 := [ (raw 0%nat * Qnat (fst outputShape))%Q;
                (raw 1%nat * Qnat (snd outputShape))%Q;
                (raw 2%nat * Qnat (fst outputShape))%Q;
                (raw 3%nat * Qnat (snd outputShape))%Q ] in
  {| id := id0;
     strideSize := strideSize0;
     score := score0;
     class := j + 1;
     label := nth j labels ""%string;
     center := [trunc (Qnat (fst outputShape) * cx); trunc (Qnat (snd outputShape) * cy)];
     centerRaw := [cx; cy];
     box := map trunc box0;
     boxRaw := boxRaw0 |}.

(** One iteration of the class loop: [(id, results)] is the loop state. *)
Definition class_step (cfg : Config) (strideSize0 : nat) (inputSize0 : positive)
    (outputShape : nat * nat) (scoresT : Tensor) (idx : nat -> list nat) (i : nat)
    (acc : nat * list Candidate) (j : nat) : nat * list Candidate :=
  let s := at_ scoresT i j in
  if Qgtb s (minConfidence (object cfg)) && negb (j =? 61)%nat
  then (S (fst acc),
        snd acc ++ [make_result (fst acc) strideSize0 inputSize0 outputShape
                      (idx i) s i j])
  else acc.

Definition cell_step (cfg : Config) (strideSize0 : nat) (inputSize0 : positive)
    (outputShape : nat * nat) (scoresT : Tensor) (idx : nat -> list nat)
    (acc : nat * list Candidate) (i : nat) : nat * list Candidate :=
  fold_left (class_step cfg strideSize0 inputSize0 outputShape scoresT idx i)
            (seq 0 (dim2 scoresT)) acc.

(** The body of the stride loop of [process].  [None] is the [TypeError]
    raised when a tensor of the stride is missing ([featuresT.reshape] or
    [scoresT.arraySync] on [undefined]), or what the runtime raises on a
    ragged reshape. *)
Definition stride_step (res : list Tensor) (inputSize0 : positive)
    (outputShape : nat * nat) (cfg : Config)
    (acc : nat * list Candidate) (strideSize0 : nat)
    : option (nat * list Candidate) :=
  let baseSize := (strideSize0 * 13)%nat in
  let scoresT :=
    find (fun a => (dim1 a =? baseSize ^ 2)%nat && (dim2 a =? List.length labels)%nat) res in
  let featuresT :=
    find (fun a => (dim1 a =? baseSize ^ 2)%nat && (dim2 a <? List.length labels)%nat) res in
  match featuresT with
  | None => None
  | Some ft =>
      match boxIdx_table ft with
      | None => None
      | Some idx =>
          match scoresT with
          | None => None
          | Some st =>
              Some (fold_left (cell_step cfg strideSize0 inputSize0 outputShape st idx)
                              (seq 0 (dim1 st)) acc)
          end
      end
  end.

(** The stride loop [for (const strideSize of [1, 2, 4])]: the candidates of
    all strides, or [None] when an iteration raises. *)
Fixpoint decode_strides (res : list Tensor) (inputSize0 : positive)
    (outputShape : nat * nat) (cfg : Config)
    (acc : nat * list Candidate) (strides : list nat)
    : option (nat * list Candidate) :=
  match strides with
  | [] => Some acc
  | s :: rest =>
      match stride_step res inputSize0 outputShape cfg acc s with
      | None => None
      | Some acc' => decode_strides res inputSize0 outputShape cfg acc' rest
      end
  end.

Definition decode (res : list Tensor) (inputSize0 : positive)
    (outputShape : nat * nat) (cfg : Config) : option (list Candidate) :=
  option_map snd (decode_strides res inputSize0 outputShape cfg (0%nat, []) [1; 2; 4]%nat).

(** *** Suppressor *)

(** Insertion of [x], which stood before every element of [l], into [l]
    sorted by descending key: [x] goes before the first element whose key is
    not greater than its own, so elements of equal key keep their order. *)
Fixpoint insert_desc {A} (key : A -> Q) (x : A) (l : list A) : list A :=
  match l with
  | [] => [x]
  | y :: l' => if Qle_bool (key y) (key x) then x :: y :: l'
               else y :: insert_desc key x l'
  end.

(** [l.sort((a, b) => key(b) - key(a))]: a stable sort by descending key. *)
Definition sort_desc {A} (key : A -> Q) (l : list A) : list A :=
  fold_right (insert_desc key) [] l.

(** Greedy selection over the remaining candidates (box indices), at most
    [k] selections. *)
Fixpoint greedy (boxes : list (list Q)) (iouThreshold0 : Q) (k : nat)
    (cands : list nat) : list nat :=
  match k with
  | O => []
  | S k' =>
      match cands with
      | [] => []
      | c :: rest =>
          c :: greedy boxes iouThreshold0 k'
                 (List.filter
                    (fun d => Qltb (iou (nth d boxes []) (nth c boxes [])) iouThreshold0)
                    rest)
      end
  end.

(** Modelled from the spec: the runtime's [tf.image.nonMaxSuppressionAsync]
    (not under src/): standard greedy NMS; sort by score descending,
    repeatedly select the highest remaining candidate, discard all others
    whose box overlaps the selected box by IoU >= [iouThreshold], stop after
    [maxResults] selections or when the candidate set is exhausted.  Only
    candidates scoring above the score threshold take part.  The result is
    the list of selected box indices. *)
Definition nonMaxSuppression (boxes : list (list Q)) (scores : list Q)
    (maxOutputSize : nat) (iouThreshold0 scoreThreshold : Q) : list nat :=
  let cands :=
    List.filter (fun i => Qgtb (nth i scores 0%Q) scoreThreshold)
                (seq 0 (List.length scores)) in
  greedy boxes iouThreshold0 maxOutputSize
         (sort_desc (fun i => nth i scores 0%Q) cands).

(** [nmsIdx.includes(idx)]. *)
Definition idx_includes (nmsIdx : list nat) (idx : nat) : bool :=
  existsb (Nat.eqb idx) nmsIdx.

(** The second half of [process]: run the suppressor on the candidates, keep
    the selected ones and sort them by descending score. *)
Definition suppress (results : list Candidate) (cfg : Config) : list Candidate :=
  let nmsBoxes := map boxRaw results in
  let nmsScores := map score results in
  let nmsIdx :=
    if (0 <? List.length nmsBoxes)%nat
    then nonMaxSuppression nmsBoxes nmsScores (maxResults (object cfg))
           (iouThreshold (object cfg)) (minConfidence (object cfg))
    else [] in
  sort_desc score
    (map snd
       (List.filter (fun p => idx_includes nmsIdx (fst p))
                    (combine (seq 0 (List.length results)) results))).

(** [process(res, inputSize, outputShape, config)]; [res = None] is the
    [undefined] passed when the model was not executed, on which
    [res.find] raises. *)
Definition process (res : option (list Tensor)) (inputSize0 : positive)
    (outputShape : nat * nat) (cfg : Config) : option (list Candidate) :=
  match res with
  | None => None
  | Some ts =>
      match decode ts inputSize0 outputShape cfg with
      | None => None
      | Some results => Some (suppress results cfg)
      end
  end.

End Decoder.

(** ** Configuration overrides *)

(** Modelled from the spec: [mergeDeep] of [./helpers] (not under src/):
    configuration overrides are merged into the current configuration; a
    field present in the overrides replaces the current value, an absent one
    keeps it.  An override object is a record of optional fields. *)
Record FaceOverrides := {
  o_face_enabled : option bool;
  o_age_enabled : option bool;
  o_gender_enabled : option bool;
  o_emotion_enabled : option bool;
  o_embedding_enabled : option bool;
  o_description_enabled : option bool }.

Record BodyOverrides := {
  o_body_enabled : option bool;
  o_body_modelPath : option string }.

Record ObjectOverrides := {
  o_object_enabled : option bool;
  o_object_modelPath : option string;
  o_minConfidence : option Q;
  o_iouThreshold : option Q;
  o_maxResults : option nat;
  o_skipFrames : option Z }.

Record Overrides := {
  o_backend : option string;
  o_wasmPath : option string;
  o_debug : option bool;
  o_async : option bool;
  o_profile : option bool;
  o_deallocate : option bool;
  o_scoped : option bool;
  o_videoOptimized : option bool;
  o_warmup_mode : option string;
  o_face : FaceOverrides;
  o_body : BodyOverrides;
  o_hand_enabled : option bool;
  o_object : ObjectOverrides;
  o_gesture_enabled : option bool }.

(** One field of the merge: an override that is present replaces the
    current value. *)
Definition pick {A} (o : option A) (cur : A) : A :=
  match o with Some v => v | None => cur end.

Definition mergeFace (c : FaceConfig) (u : FaceOverrides) : FaceConfig :=
  {| face_enabled := pick (o_face_enabled u) (face_enabled c);
     age_enabled := pick (o_age_enabled u) (age_enabled c);
     gender_enabled := pick (o_gender_enabled u) (gender_enabled c);
     emotion_enabled := pick (o_emotion_enabled u) (emotion_enabled c);
     embedding_enabled := pick (o_embedding_enabled u) (embedding_enabled c);
     description_enabled := pick (o_description_enabled u) (description_enabled c) |}.

Definition mergeBody (c : BodyConfig) (u : BodyOverrides) : BodyConfig :=
  {| body_enabled := pick (o_body_enabled u) (body_enabled c);
     body_modelPath := pick (o_body_modelPath u) (body_modelPath c) |}.

Definition mergeObject (c : ObjectConfig) (u : ObjectOverrides) : ObjectConfig :=
  {| object_enabled := pick (o_object_enabled u) (object_enabled c);
     object_modelPath := pick (o_object_modelPath u) (object_modelPath c);
     minConfidence := pick (o_minConfidence u) (minConfidence c);
     iouThreshold := pick (o_iouThreshold u) (iouThreshold c);
     maxResults := pick (o_maxResults u) (maxResults c);
     skipFrames := pick (o_skipFrames u) (skipFrames c) |}.

Definition mergeDeep (c : Config) (u : Overrides) : Config :=
  {| backend := pick (o_backend u) (backend c);
     wasmPath := pick (o_wasmPath u) (wasmPath c);
     debug := pick (o_debug u) (debug c);
     async := pick (o_async u) (async c);
     profile := pick (o_profile u) (profile c);
     deallocate := pick (o_deallocate u) (deallocate c);
     scoped := pick (o_scoped u) (scoped c);
     videoOptimized := pick (o_videoOptimized u) (videoOptimized c);
     warmup_mode := pick (o_warmup_mode u) (warmup_mode c);
     face := mergeFace (face c) (o_face u);
     body := mergeBody (body c) (o_body u);
     hand_enabled := pick (o_hand_enabled u) (hand_enabled c);
     object := mergeObject (object c) (o_object u);
     gesture_enabled := pick (o_gesture_enabled u) (gesture_enabled c) |}.

(** The empty override object [{}]. *)
Definition no_overrides : Overrides :=
  {| o_backend := None; o_wasmPath := None; o_debug := None; o_async := None;
     o_profile := None; o_deallocate := None; o_scoped := None;
     o_videoOptimized := None; o_warmup_mode := None;
     o_face := Build_FaceOverrides None None None None None None;
     o_body := Build_BodyOverrides None None;
     o_hand_enabled := None;
     o_object := Build_ObjectOverrides None None None None None None;
     o_gesture_enabled := None |}.

(** A whole configuration used as the override object, as in
    [this.detect(input, this.config)]. *)
Definition as_overrides (c : Config) : Overrides :=
  {| o_backend := Some (backend c); o_wasmPath := Some (wasmPath c);
     o_debug := Some (debug c); o_async := Some (async c);
     o_profile := Some (profile c); o_deallocate := Some (deallocate c);
     o_scoped := Some (scoped c); o_videoOptimized := Some (videoOptimized c);
     o_warmup_mode := Some (warmup_mode c);
     o_face :=
       {| o_face_enabled := Some (face_enabled (face c));
          o_age_enabled := Some (age_enabled (face c));
          o_gender_enabled := Some (gender_enabled (face c));
          o_emotion_enabled := Some (emotion_enabled (face c));
          o_embedding_enabled := Some (embedding_enabled (face c));
          o_description_enabled := Some (description_enabled (face c)) |};
     o_body :=
       {| o_body_enabled := Some (body_enabled (body c));
          o_body_modelPath := Some (body_modelPath (body c)) |};
     o_hand_enabled := Some (hand_enabled c);
     o_object :=
       {| o_object_enabled := Some (object_enabled (object c));
          o_object_modelPath := Some (object_modelPath (object c));
          o_minConfidence := Some (minConfidence (object c));
          o_iouThreshold := Some (iouThreshold (object c));
          o_maxResults := Some (maxResults (object c));
          o_skipFrames := Some (skipFrames (object c)) |};
     o_gesture_enabled := Some (gesture_enabled c) |}.

Definition set_backend (b : string) (c : Config) : Config :=
  {| backend := b; wasmPath := wasmPath c; debug := debug c; async := async c;
     profile := profile c; deallocate := deallocate c; scoped := scoped c;
     videoOptimized := videoOptimized c; warmup_mode := warmup_mode c;
     face := face c; body := body c; hand_enabled := hand_enabled c;
     object := object c; gesture_enabled := gesture_enabled c |}.

Definition set_videoOptimized (v : bool) (c : Config) : Config :=
  {| backend := backend c; wasmPath := wasmPath c; debug := debug c; async := async c;
     profile := profile c; deallocate := deallocate c; scoped := scoped c;
     videoOptimized := v; warmup_mode := warmup_mode c;
     face := face c; body := body c; hand_enabled := hand_enabled c;
     object := object c; gesture_enabled := gesture_enabled c |}.

Definition set_async (v : bool) (c : Config) : Config :=
  {| backend := backend c; wasmPath := wasmPath c; debug := debug c; async := v;
     profile := profile c; deallocate := deallocate c; scoped := scoped c;
     videoOptimized := videoOptimized c; warmup_mode := warmup_mode c;
     face := face c; body := body c; hand_enabled := hand_enabled c;
     object := object c; gesture_enabled := gesture_enabled c |}.

(** ** Program state *)

(** Values a pipeline can answer with besides an array. *)
Inductive jsval (A : Type) :=
| Undefined
| Null
| Value (a : A).
Arguments Undefined {A}.
Arguments Null {A}.
Arguments Value {A} a.

(** A promise as seen by its awaiter: it settles with a value or never
    settles (an exception inside an [async] executor leaves the promise
    pending). *)
Inductive Promise (A : Type) :=
| Resolved (a : A)
| Pending.
Arguments Resolved {A} a.
Arguments Pending {A}.

(** An opaque record produced by a face, body or hand pipeline. *)
Definition Payload := list Z.

(** The inputs [detect] accepts: a tensor, or a media element (bitmap, canvas,
    video); [null] is [None] at the call. *)
Inductive Input :=
| InputTensor (t : Image)
| InputMedia (m : Image).

(** Module-level variables of [nanodet.ts]. *)
Record NanodetState := {
  model : option Handle;
  last : list Candidate;
  skipped : Z }.

(** The fields of a [Human] instance that the embedded methods use.
    [models] is the object [this.models]: a finite map from capability names
    ([face], [posenet], [blazepose], [efficientpose], [handpose], [iris],
    [age], [gender], [emotion], [embedding], [nanodet], [faceres]) to
    handles, where [null] is an absent key.  [perf] is the object
    [this.perf]: a finite map from stage names to milliseconds. *)
Record Human := {
  config : Config;
  state : string;
  models : gmap string Handle;
  perf : gmap string Z;
  numTensors : Z;
  analyzeMemoryLeaks : bool;
  checkSanity : bool;
  firstRun : bool }.

(** Observable effects, recorded in program order. *)
Inductive Event :=
| EvLoadGraphModel (module_ path : string)  (* tf.loadGraphModel in a loader of src/ *)
| EvLoad (module_ : string)                 (* load of a collaborator module *)
| EvInvoke (module_ : string)               (* a model invocation *)
| EvSetBackend (name : string)
| EvDetect (cfg : Config).                  (* detect entered; cfg is the merged configuration *)

(** Everything the embedded code reads or writes: the [Human] instance, the
    module variables of [nanodet] and [blazepose], the engine's active
    backend and live tensor count, the platform, the clock and the trace. *)
Record World := {
  this : Human;
  nanodet_vars : NanodetState;
  blazepose_model : option Handle;
  tf_backend : string;
  tf_numTensors : Z;
  IS_NODE : bool;
  IS_BROWSER : bool;
  has_createImageBitmap : bool;
  has_Image : bool;
  ticks : nat;
  trace : list Event }.

Definition with_this (h : Human) (w : World) : World :=
  {| this := h; nanodet_vars := nanodet_vars w; blazepose_model := blazepose_model w;
     tf_backend := tf_backend w; tf_numTensors := tf_numTensors w;
     IS_NODE := IS_NODE w; IS_BROWSER := IS_BROWSER w;
     has_createImageBitmap := has_createImageBitmap w; has_Image := has_Image w;
     ticks := ticks w; trace := trace w |}.

Definition with_nanodet (n : NanodetState) (w : World) : World :=
  {| this := this w; nanodet_vars := n; blazepose_model := blazepose_model w;
     tf_backend := tf_backend w; tf_numTensors := tf_numTensors w;
     IS_NODE := IS_NODE w; IS_BROWSER := IS_BROWSER w;
     has_createImageBitmap := has_createImageBitmap w; has_Image := has_Image w;
     ticks := ticks w; trace := trace w |}.

Definition with_blazepose (m : option Handle) (w : World) : World :=
  {| this := this w; nanodet_vars := nanodet_vars w; blazepose_model := m;
     tf_backend := tf_backend w; tf_numTensors := tf_numTensors w;
     IS_NODE := IS_NODE w; IS_BROWSER := IS_BROWSER w;
     has_createImageBitmap := has_createImageBitmap w; has_Image := has_Image w;
     ticks := ticks w; trace := trace w |}.

Definition with_tf_backend (b : string) (w : World) : World :=
  {| this := this w; nanodet_vars := nanodet_vars w; blazepose_model := blazepose_model w;
     tf_backend := b; tf_numTensors := tf_numTensors w;
     IS_NODE := IS_NODE w; IS_BROWSER := IS_BROWSER w;
     has_createImageBitmap := has_createImageBitmap w; has_Image := has_Image w;
     ticks := ticks w; trace := trace w |}.

Definition with_ticks (t : nat) (w : World) : World :=
  {| this := this w; nanodet_vars := nanodet_vars w; blazepose_model := blazepose_model w;
     tf_backend := tf_backend w; tf_numTensors := tf_numTensors w;
     IS_NODE := IS_NODE w; IS_BROWSER := IS_BROWSER w;
     has_createImageBitmap := has_createImageBitmap w; has_Image := has_Image w;
     ticks := t; trace := trace w |}.

Definition with_trace (t : list Event) (w : World) : World :=
  {| this := this w; nanodet_vars := nanodet_vars w; blazepose_model := blazepose_model w;
     tf_backend := tf_backend w; tf_numTensors := tf_numTensors w;
     IS_NODE := IS_NODE w; IS_BROWSER := IS_BROWSER w;
     has_createImageBitmap := has_createImageBitmap w; has_Image := has_Image w;
     ticks := ticks w; trace := t |}.

Definition with_config (c : Config) (h : Human) : Human :=
  {| config := c; state := state h; models := models h; perf := perf h;
     numTensors := numTensors h; analyzeMemoryLeaks := analyzeMemoryLeaks h;
     checkSanity := checkSanity h; firstRun := firstRun h |}.

Definition with_state (s : string) (h : Human) : Human :=
  {| config := config h; state := s; models := models h; perf := perf h;
     numTensors := numTensors h; analyzeMemoryLeaks := analyzeMemoryLeaks h;
     checkSanity := checkSanity h; firstRun := firstRun h |}.

Definition with_models (m : gmap string Handle) (h : Human) : Human :=
  {| config := config h; state := state h; models := m; perf := perf h;
     numTensors := numTensors h; analyzeMemoryLeaks := analyzeMemoryLeaks h;
     checkSanity := checkSanity h; firstRun := firstRun h |}.

Definition with_perf (p : gmap string Z) (h : Human) : Human :=
  {| config := config h; state := state h; models := models h; perf := p;
     numTensors := numTensors h; analyzeMemoryLeaks := analyzeMemoryLeaks h;
     checkSanity := checkSanity h; firstRun := firstRun h |}.

Definition with_numTensors (n : Z) (h : Human) : Human :=
  {| config := config h; state := state h; models := models h; perf := perf h;
     numTensors := n; analyzeMemoryLeaks := analyzeMemoryLeaks h;
     checkSanity := checkSanity h; firstRun := firstRun h |}.

Definition with_firstRun (b : bool) (h : Human) : Human :=
  {| config := config h; state := state h; models := models h; perf := perf h;
     numTensors := numTensors h; analyzeMemoryLeaks := analyzeMemoryLeaks h;
     checkSanity := checkSanity h; firstRun := b |}.

(** ** A state monad over [World] *)

Definition M (A : Type) : Type := World -> A * World.

Definition ret {A} (a : A) : M A := fun w => (a, w).

Definition bind {A B} (m : M A) (k : A -> M B) : M B :=
  fun w => let (a, w') := m w in k a w'.

Declare Scope m_scope.
Delimit Scope m_scope with M.
Notation "x <- m ;; k" := (bind m (fun x => k))
  (at level 100, m at next level, right associativity) : m_scope.
Notation "m ;;; k" := (bind m (fun _ => k))
  (at level 100, right associativity) : m_scope.
Local Open Scope m_scope.

Definition get : M World := fun w => (w, w).
Definition modify (f : World -> World) : M unit := fun w => (tt, f w).
Definition modify_this (f : Human -> Human) : M unit :=
  modify (fun w => with_this (f (this w)) w).
Definition emit (e : Event) : M unit :=
  modify (fun w => with_trace (trace w ++ [e]) w).
Definition when (b : bool) (m : M unit) : M unit := if b then m else ret tt.

(** [this.state = s]. *)
Definition set_state (s : string) : M unit := modify_this (with_state s).

(** [this.perf[k] = v]. *)
Definition perf_set (k : string) (v : Z) : M unit :=
  modify_this (fun h => with_perf (<[k := v]> (perf h)) h).

(** [if (this.perf[k]) delete this.perf[k]]: an entry is deleted when it is
    present and truthy (non-zero). *)
Definition perf_delete_if_truthy (k : string) : M unit :=
  modify_this (fun h =>
    match perf h !! k with
    | Some v => if (v =? 0)%Z then h else with_perf (delete k (perf h)) h
    | None => h
    end).

(** ** blazepose.ts: the key points of [predict] *)

(** One entry of [keypoints]; [kp_part] is [labels[i]], which is [undefined]
    past the end of the table. *)
Record Keypoint := {
  kp_id : nat;
  kp_part : option string;
  kp_x : Z;
  kp_y : Z;
  kp_z : Z;
  kp_score : Q;
  kp_presence : Q }.

(** [(100 - Math.trunc(100 / (1 + Math.exp(v)))) / 100], for the exponential
    [exp_] of the engine. *)
Definition reverse_sigmoid (exp_ : Q -> Q) (v : Q) : Q :=
  ((100 - inject_Z (trunc (100 / (1 + exp_ v)))) / 100)%Q.

(** The body of the loop over the key points, for the point of index [i].
    The five values of the point lie inside [points] whenever its length is a
    multiple of five, as it is for the outputs [predict] selects (195 or 155
    values); an index past the end reads [0] here. *)
Definition keypoint (exp_ : Q -> Q) (labels : list string) (imgWidth imgHeight : nat)
    (points : list Q) (i : nat) : Keypoint :=
  let depth := 5%nat in
  let pt k := nth (depth * i + k) points 0%Q in
  {| kp_id := i;
     kp_part := nth_error labels i;
     kp_x := trunc (Qnat imgWidth * pt 0%nat / 255);
     kp_y := trunc (Qnat imgHeight * pt 1%nat / 255);
     kp_z := trunc (pt 2%nat);
     kp_score := reverse_sigmoid exp_ (pt 3%nat);
     kp_presence := reverse_sigmoid exp_ (pt 4%nat) |}.

(** The key points [predict] makes of the model output [points], for an image
    of the given size; [full] and [upper] are the two tables of
    [./annotations].  The loop runs while [i < points.length / 5]. *)
Definition keypoints (exp_ : Q -> Q) (full upper : list string)
    (image : Image) (points : list Q) : list Keypoint :=
  let labels := if (List.length points =? 195)%nat then full else upper in
  map (keypoint exp_ labels (width image) (height image) points)
      (seq 0 ((List.length points + 4) / 5)).

(** An entry of the array the body stage answers with: an opaque pose of
    posenet or efficientpose, or the [{ keypoints }] object of blazepose. *)
Inductive Body :=
| Pose (p : Payload)
| Keypoints (keypoints : list Keypoint).

(** ** Collaborators of the orchestrator that are not part of the sources *)

Class Collaborators := {
  (** The successive readings of [now()], in milliseconds. *)
  now_at : nat -> Q;
  (** [load(config)] of a sibling module ([facemesh], [age], ...). *)
  module_load : string -> Config -> Handle;
  (** Whether [tf.setBackend(name)] succeeds. *)
  backend_available : string -> bool;
  (** [image.process(input, config)]: the frame tensor and the canvas, or
      [None] when there is no result or no tensor in it. *)
  image_process : option Input -> Config -> option (Image * Payload);
  (** [faceall.detectFace(this, tensor)]. *)
  detectFace : Config -> gmap string Handle -> Image -> list Payload;
  (** [posenet.estimatePoses(tensor, config)]. *)
  estimatePoses : Handle -> Image -> Config -> list Body;
  (** [efficientpose.predict(tensor, config)]. *)
  efficientpose_predict : Image -> Config -> jsval (list Body);
  (** [handpose.estimateHands(tensor, config)]. *)
  estimateHands : Handle -> Image -> Config -> list Payload;
  (** Resize, normalise and [model.predict] of blazepose: the output tensors
      of one invocation, each as its flat data ([t.size] is the length). *)
  blazepose_outputs : Handle -> Image -> list (list Q);
  (** [Math.exp] of the engine. *)
  Math_exp : Q -> Q;
  (** [annotations.full] and [annotations.upper] of [./annotations]. *)
  annotations_full : list string;
  annotations_upper : list string;
  (** The gesture rules. *)
  gesture_face : jsval (list Payload) -> list string;
  gesture_body : jsval (list Body) -> list string;
  gesture_hand : jsval (list Payload) -> list string;
  gesture_iris : jsval (list Payload) -> list string;
  (** The decoded warm-up samples of [./sample]. *)
  sample_face : Image;
  sample_body : Image }.

(** [now()]. *)
Definition now `{Collaborators} : M Q :=
  fun w => (now_at (ticks w), with_ticks (S (ticks w)) w).

(** ** nanodet.ts: [load] and [predict] *)

Module nanodet.
Section Defs.
Context {RT : ObjectRuntime}.

(** [nanodet.load(config)]. *)
Definition load (cfg : Config) : M Handle :=
  w <- get ;;
  match model (nanodet_vars w) with
  | Some m => ret m
  | None =>
      let m := loadGraphModel (object_modelPath (object cfg)) in
      emit (EvLoadGraphModel "nanodet" (object_modelPath (object cfg))) ;;;
      modify (fun w => with_nanodet
                {| model := Some m; last := last (nanodet_vars w);
                   skipped := skipped (nanodet_vars w) |} w) ;;;
      ret m
  end.

Definition set_skipped (v : Z) : M unit :=
  modify (fun w => with_nanodet
            {| model := model (nanodet_vars w); last := last (nanodet_vars w);
               skipped := v |} w).

Definition set_last (l : list Candidate) : M unit :=
  modify (fun w => with_nanodet
            {| model := model (nanodet_vars w); last := l;
               skipped := skipped (nanodet_vars w) |} w).

(** [nanodet.predict(image, config)].  The answer is [null] without a
    model, the cached array on a skipped frame, and otherwise the promise of
    the decoded array, which stays pending when [process] raises. *)
Definition predict (image : Image) (cfg : Config)
    : M (Promise (jsval (list Candidate))) :=
  w <- get ;;
  let st := nanodet_vars w in
  match model st with
  | None => ret (Resolved Null)
  | Some m =>
      if (skipped st <? skipFrames (object cfg))%Z && videoOptimized cfg
         && (0 <? List.length (last st))%nat
      then
        set_skipped (incr (skipped st)) ;;;
        ret (Resolved (Value (last st)))
      else
        set_skipped (if videoOptimized cfg then 0%Z else MAX_SAFE_INTEGER) ;;;
        let outputSize := (width image, height image) in
        objectT <-
          (if negb (profile cfg) then
             if object_enabled (object cfg)
             then emit (EvInvoke "nanodet") ;;; ret (Some (executeAsync m image))
             else ret None
           else
             if object_enabled (object cfg)
             then emit (EvInvoke "nanodet") ;;; ret (Some (executeAsync m image))
             else ret None) ;;
        match process objectT (inputSize m) outputSize cfg with
        | None => ret Pending
        | Some obj => set_last obj ;;; ret (Resolved (Value obj))
        end
  end.

End Defs.
End nanodet.

(** ** blazepose.ts: [load] and [predict] *)

Module blazepose.
Section Defs.
Context {RT : ObjectRuntime} {CO : Collaborators}.

(** [blazepose.load(config)]. *)
Definition load (cfg : Config) : M Handle :=
  w <- get ;;
  match blazepose_model w with
  | Some m => ret m
  | None =>
      let m := loadGraphModel (body_modelPath (body cfg)) in
      emit (EvLoadGraphModel "blazepose" (body_modelPath (body cfg))) ;;;
      modify (with_blazepose (Some m)) ;;;
      ret m
  end.

(** [(t) => (t.size === 195 || t.size === 155)]. *)
Definition is_points (t : list Q) : bool :=
  (List.length t =? 195)%nat || (List.length t =? 155)%nat.

(** [blazepose.predict(image, config)].  The answer is [null] without a
    model or with the body pipeline disabled.  Otherwise the model is run,
    plainly or through the profiler, and the key points are made of the
    output tensor of 195 or 155 values; when there is none, [find] answers
    [undefined], [dataSync] raises on it and the promise never settles. *)
Definition predict (image : Image) (cfg : Config)
    : M (Promise (jsval (list Body))) :=
  w <- get ;;
  match blazepose_model w with
  | None => ret (Resolved Null)
  | Some m =>
      if negb (body_enabled (body cfg)) then ret (Resolved Null)
      else
        emit (EvInvoke "blazepose") ;;;
        let resT := blazepose_outputs m image in
        let found :=
          if negb (profile cfg) then find is_points resT
          else find is_points resT in
        match found with
        | None => ret Pending
        | Some points =>
            ret (Resolved (Value
                   [Keypoints (keypoints Math_exp annotations_full
                                 annotations_upper image points)]))
        end
  end.

End Defs.
End blazepose.

(** ** The [Human] class *)

(** What [detect] resolves with: [{ error }] or the result object. *)
Record Result := {
  r_face : jsval (list Payload);
  r_body : jsval (list Body);
  r_hand : jsval (list Payload);
  r_gesture : list string;
  r_object : jsval (list Candidate);
  r_performance : gmap string Z;
  r_canvas : Payload }.

Inductive Outcome :=
| Failed (error : string)
| Detected (result : Result).

(** [resolve(v)] on a promise: only the first call settles it. *)
Definition resolve {A} (cell : Promise A) (v : A) : Promise A :=
  match cell with
  | Pending => Resolved v
  | Resolved _ => cell
  end.

(** The constructor: [state = 'idle'], no models, empty [perf], all private
    flags [false] except [#firstRun]. *)
Definition new_Human (cfg : Config) : Human :=
  {| config := cfg; state := "idle"; models := ∅; perf := ∅; numTensors := 0;
     analyzeMemoryLeaks := false; checkSanity := false; firstRun := true |}.

(** The program state right after module initialisation and [new Human]. *)
Definition initial_world (cfg : Config) (active_backend : string)
    (node browser bitmap image : bool) : World :=
  {| this := new_Human cfg;
     nanodet_vars := {| model := None; last := []; skipped := MAX_SAFE_INTEGER |};
     blazepose_model := None;
     tf_backend := active_backend; tf_numTensors := 0;
     IS_NODE := node; IS_BROWSER := browser;
     has_createImageBitmap := bitmap; has_Image := image;
     ticks := 0; trace := [] |}.

Definition is_tensor (i : Input) : bool :=
  match i with InputTensor _ => true | InputMedia _ => false end.

(** [this.models[k] = v], where [v] may be [null]. *)
Definition set_model (k : string) (v : option Handle) : M unit :=
  modify_this (fun h =>
    with_models (match v with
                 | Some m => <[k := m]> (models h)
                 | None => delete k (models h)
                 end) h).

Section Orchestrator.
Context {RT : ObjectRuntime} {CO : Collaborators}.

(** [analyze(...msg)]. *)
Definition analyze : M unit :=
  w <- get ;;
  if negb (analyzeMemoryLeaks (this w)) then ret tt
  else modify_this (with_numTensors (tf_numTensors w)).

(** [#sanity(input)].  [tf.getBackend()] does not raise in this embedding. *)
Definition sanity (input : option Input) : M (option string) :=
  w <- get ;;
  if negb (checkSanity (this w)) then ret None
  else
    match input with
    | None => ret (Some "input is not defined"%string)
    | Some i =>
        if IS_NODE w && negb (is_tensor i)
        then ret (Some "input must be a tensor"%string)
        else ret None
    end.

Definition set_config_backend (b : string) : M unit :=
  modify_this (fun h => with_config (set_backend b (config h)) h).

(** [#checkBackend(force)]. *)
Definition checkBackend (force : bool) : M unit :=
  w <- get ;;
  let c := config (this w) in
  if (negb (backend c =? "")%string && force)
     || negb (tf_backend w =? backend c)%string
  then
    timeStamp <- now ;;
    set_state "backend" ;;;
    when (negb (backend c =? "")%string)
      (when (IS_BROWSER w && (backend c =? "tensorflow")%string)
            (set_config_backend "webgl") ;;;
       w1 <- get ;;
       let b1 := backend (config (this w1)) in
       when (IS_NODE w && ((b1 =? "webgl")%string || (b1 =? "wasm")%string))
            (set_config_backend "tensorflow") ;;;
       w2 <- get ;;
       let b2 := backend (config (this w2)) in
       emit (EvSetBackend b2) ;;;
       when (backend_available b2) (modify (with_tf_backend b2))) ;;;
    t <- now ;;
    perf_set "backend" (trunc (t - timeStamp))
  else ret tt.

(** A line of the sequential branch of [load]:
    [if (cond && !this.models[k]) this.models[k] = await loader]. *)
Definition load_if (cond : bool) (k : string) (loader : M Handle) : M unit :=
  w <- get ;;
  if cond && negb (bool_decide (is_Some (models (this w) !! k)))
  then m <- loader ;; set_model k (Some m)
  else ret tt.

(** An element of the [Promise.all] array of [load]:
    [this.models[k] || (cond ? loader : null)]. *)
Definition keep_or (k : string) (cond : bool) (loader : M Handle)
    : M (option Handle) :=
  w <- get ;;
  match models (this w) !! k with
  | Some m => ret (Some m)
  | None => if cond then m <- loader ;; ret (Some m) else ret None
  end.

(** The loader of a sibling module that is not part of the sources. *)
Definition sibling_load (name : string) (c : Config) : M Handle :=
  emit (EvLoad name) ;;; ret (module_load name c).

(** The concurrent branch of [load]: the elements of the [Promise.all]
    array are evaluated in order, then assigned. *)
Definition load_async (c : Config) : M unit :=
  let f := face c in
  let p := body_modelPath (body c) in
  v_face <- keep_or "face" (face_enabled f) (sibling_load "facemesh" c) ;;
  v_age <- keep_or "age" (face_enabled f && age_enabled f) (sibling_load "age" c) ;;
  v_gender <- keep_or "gender" (face_enabled f && gender_enabled f) (sibling_load "gender" c) ;;
  v_emotion <- keep_or "emotion" (face_enabled f && emotion_enabled f) (sibling_load "emotion" c) ;;
  v_embedding <- keep_or "embedding" (face_enabled f && embedding_enabled f) (sibling_load "embedding" c) ;;
  v_handpose <- keep_or "handpose" (hand_enabled c) (sibling_load "handpose" c) ;;
  v_posenet <- keep_or "posenet" (body_enabled (body c) && includes p "posenet") (sibling_load "posenet" c) ;;
  v_blazepose <- keep_or "blazepose" (body_enabled (body c) && includes p "blazepose") (blazepose.load c) ;;
  v_efficientpose <- keep_or "efficientpose" (body_enabled (body c) && includes p "efficientpose") (sibling_load "efficientpose" c) ;;
  v_nanodet <- keep_or "nanodet" (object_enabled (object c)) (nanodet.load c) ;;
  v_faceres <- keep_or "faceres" (face_enabled f && description_enabled f) (sibling_load "faceres" c) ;;
  set_model "face" v_face ;;;
  set_model "age" v_age ;;;
  set_model "gender" v_gender ;;;
  set_model "emotion" v_emotion ;;;
  set_model "embedding" v_embedding ;;;
  set_model "handpose" v_handpose ;;;
  set_model "posenet" v_posenet ;;;
  set_model "blazepose" v_blazepose ;;;
  set_model "efficientpose" v_efficientpose ;;;
  set_model "nanodet" v_nanodet ;;;
  set_model "faceres" v_faceres.

(** The sequential branch of [load]. *)
Definition load_sync (c : Config) : M unit :=
  let f := face c in
  let p := body_modelPath (body c) in
  load_if (face_enabled f) "face" (sibling_load "facemesh" c) ;;;
  load_if (face_enabled f && age_enabled f) "age" (sibling_load "age" c) ;;;
  load_if (face_enabled f && gender_enabled f) "gender" (sibling_load "gender" c) ;;;
  load_if (face_enabled f && emotion_enabled f) "emotion" (sibling_load "emotion" c) ;;;
  load_if (face_enabled f && embedding_enabled f) "embedding" (sibling_load "embedding" c) ;;;
  load_if (hand_enabled c) "handpose" (sibling_load "handpose" c) ;;;
  load_if (body_enabled (body c) && includes p "posenet") "posenet" (sibling_load "posenet" c) ;;;
  load_if (body_enabled (body c) && includes p "blazepose") "blazepose" (blazepose.load c) ;;;
  load_if (body_enabled (body c) && includes p "efficientpose") "efficientpose" (sibling_load "efficientpose" c) ;;;
  load_if (object_enabled (object c)) "nanodet" (nanodet.load c) ;;;
  load_if (face_enabled f && description_enabled f) "faceres" (sibling_load "faceres" c).

(** [load(userConfig)]. *)
Definition load (userConfig : Overrides) : M unit :=
  set_state "load" ;;;
  timeStamp <- now ;;
  modify_this (fun h => with_config (mergeDeep (config h) userConfig) h) ;;;
  w <- get ;;
  when (firstRun (this w)) (checkBackend true) ;;;
  w <- get ;;
  let c := config (this w) in
  (if async c then load_async c else load_sync c) ;;;
  w <- get ;;
  when (firstRun (this w)) (modify_this (with_firstRun false)) ;;;
  t <- now ;;
  let current := trunc (t - timeStamp) in
  w <- get ;;
  when (default 0%Z (perf (this w) !! "load") <? current)%Z (perf_set "load" current).

(** *** The pipelines started by [detect] *)

Definition run_face (tensor : Image) : M (Promise (jsval (list Payload))) :=
  w <- get ;;
  let c := config (this w) in
  if face_enabled (face c)
  then emit (EvInvoke "face") ;;;
       ret (Resolved (Value (detectFace c (models (this w)) tensor)))
  else ret (Resolved (Value [])).

Definition run_body (tensor : Image) : M (Promise (jsval (list Body))) :=
  w <- get ;;
  let c := config (this w) in
  let p := body_modelPath (body c) in
  if includes p "posenet" then
    if body_enabled (body c) then
      match models (this w) !! "posenet" with
      | Some m => emit (EvInvoke "posenet") ;;;
                  ret (Resolved (Value (estimatePoses m tensor c)))
      | None => ret (Resolved Undefined)
      end
    else ret (Resolved (Value []))
  else if includes p "blazepose" then
    if body_enabled (body c) then blazepose.predict tensor c
    else ret (Resolved (Value []))
  else if includes p "efficientpose" then
    if body_enabled (body c) then
      emit (EvInvoke "efficientpose") ;;;
      ret (Resolved (efficientpose_predict tensor c))
    else ret (Resolved (Value []))
  else ret (Resolved Undefined).

Definition run_hand (tensor : Image) : M (Promise (jsval (list Payload))) :=
  w <- get ;;
  let c := config (this w) in
  if hand_enabled c then
    match models (this w) !! "handpose" with
    | Some m => emit (EvInvoke "handpose") ;;;
                ret (Resolved (Value (estimateHands m tensor c)))
    | None => ret (Resolved Undefined)
    end
  else ret (Resolved (Value [])).

Definition run_object (tensor : Image) : M (Promise (jsval (list Candidate))) :=
  w <- get ;;
  let c := config (this w) in
  if object_enabled (object c) then nanodet.predict tensor c
  else ret (Resolved (Value [])).

(** One stage of [detect].  In concurrent mode the pipeline is started by
    [started] and its promise is kept for the join; the stage timing is
    deleted.  In sequential mode the pipeline [awaited] is awaited: the
    method goes no further when the promise never settles, and otherwise the
    elapsed time is recorded when it is positive. *)
Definition stage {A B} (cell : Promise B) (name : string)
    (started awaited : M (Promise A)) (k : Promise A -> M (Promise B))
    : M (Promise B) :=
  w <- get ;;
  if async (config (this w)) then
    p <- started ;;
    perf_delete_if_truthy name ;;;
    k p
  else
    set_state ("run:" ++ name) ;;;
    timeStamp <- now ;;
    p <- awaited ;;
    match p with
    | Pending => ret cell
    | Resolved r =>
        t <- now ;;
        let current := trunc (t - timeStamp) in
        when (0 <? current)%Z (perf_set name current) ;;;
        k (Resolved r)
    end.

(** The tail of [detect] once the four results are known. *)
Definition finish (cell : Promise Outcome) (timeStart : Q) (canvas : Payload)
    (faceRes : jsval (list Payload)) (bodyRes : jsval (list Body))
    (handRes : jsval (list Payload))
    (objectRes : jsval (list Candidate)) : M (Promise Outcome) :=
  analyze ;;;
  w <- get ;;
  let c := config (this w) in
  gestureRes <-
    (if gesture_enabled c then
       timeStamp <- now ;;
       let g := (gesture_face faceRes ++ gesture_body bodyRes
                 ++ gesture_hand handRes ++ gesture_iris faceRes)%list in
       (if negb (async c)
        then t <- now ;; perf_set "gesture" (trunc (t - timeStamp))
        else perf_delete_if_truthy "gesture") ;;;
       ret g
     else ret []) ;;
  t <- now ;;
  perf_set "total" (trunc (t - timeStart)) ;;;
  set_state "idle" ;;;
  w <- get ;;
  ret (resolve cell
         (Detected {| r_face := faceRes; r_body := bodyRes; r_hand := handRes;
                      r_gesture := gestureRes; r_object := objectRes;
                      r_performance := perf (this w); r_canvas := canvas |})).

(** [detect(input, userConfig)].  The value is the state of the returned
    promise once the method has run as far as it can. *)
Definition detect (input : option Input) (userConfig : Overrides)
    : M (Promise Outcome) :=
  set_state "config" ;;;
  modify_this (fun h => with_config (mergeDeep (config h) userConfig) h) ;;;
  modify (fun w => with_trace (trace w ++ [EvDetect (config (this w))]) w) ;;;
  set_state "check" ;;;
  error <- sanity input ;;
  let cell := match error with
              | Some e => Resolved (Failed e)
              | None => Pending
              end in
  timeStart <- now ;;
  checkBackend false ;;;
  load no_overrides ;;;
  analyze ;;;
  timeStamp <- now ;;
  w <- get ;;
  match image_process input (config (this w)) with
  | None => ret (resolve cell (Failed "could not convert input to tensor"))
  | Some (tensor, canvas) =>
      t <- now ;;
      perf_set "image" (trunc (t - timeStamp)) ;;;
      analyze ;;;
      stage cell "face" (run_face tensor) (run_face tensor) (fun faceP =>
      analyze ;;;
      stage cell "body" (run_body tensor) (run_body tensor) (fun bodyP =>
      analyze ;;;
      analyze ;;;
      stage cell "hand" (run_hand tensor) (run_hand tensor) (fun handP =>
      analyze ;;;
      analyze ;;;
      stage cell "object" (run_object tensor) (run_object tensor) (fun objectP =>
      analyze ;;;
      match faceP, bodyP, handP, objectP with
      | Resolved faceRes, Resolved bodyRes, Resolved handRes, Resolved objectRes =>
          finish cell timeStart canvas faceRes bodyRes handRes objectRes
      | _, _, _, _ => ret cell
      end))))
  end.

(** *** Warm-up *)

Definition lift_outcome (p : Promise Outcome) : Promise (jsval Outcome) :=
  match p with
  | Resolved o => Resolved (Value o)
  | Pending => Pending
  end.

(** [#warmupBitmap()]. *)
Definition warmupBitmap : M (Promise (jsval Outcome)) :=
  w <- get ;;
  let c := config (this w) in
  let blob := if (warmup_mode c =? "face")%string then Some sample_face
              else if (warmup_mode c =? "full")%string then Some sample_body
              else None in
  match blob with
  | Some bitmap => p <- detect (Some (InputMedia bitmap)) (as_overrides c) ;;
                   ret (lift_outcome p)
  | None => ret (Resolved Undefined)
  end.

(** [#warmupCanvas()]. *)
Definition warmupCanvas : M (Promise (jsval Outcome)) :=
  w <- get ;;
  let c := config (this w) in
  let src := if (warmup_mode c =? "face")%string then Some sample_face
             else if (warmup_mode c =? "full")%string
                     || (warmup_mode c =? "body")%string then Some sample_body
             else None in
  match src with
  | Some canvas => p <- detect (Some (InputMedia canvas)) (as_overrides c) ;;
                   ret (lift_outcome p)
  | None => ret (Resolved Null)
  end.

(** [#warmupNode()]. *)
Definition warmupNode : M (Promise (jsval Outcome)) :=
  w <- get ;;
  let c := config (this w) in
  let img := if (warmup_mode c =? "face")%string then sample_face else sample_body in
  p <- detect (Some (InputTensor img)) (as_overrides c) ;;
  ret (lift_outcome p).

(** [warmup(userConfig)]. *)
Definition warmup (userConfig : Overrides) : M (Promise (jsval Outcome)) :=
  t0 <- now ;;
  modify_this (fun h => with_config (mergeDeep (config h) userConfig) h) ;;;
  w <- get ;;
  let save := videoOptimized (config (this w)) in
  modify_this (fun h => with_config (set_videoOptimized false (config h)) h) ;;;
  p <- (if has_createImageBitmap w then warmupBitmap
        else if has_Image w then warmupCanvas
        else warmupNode) ;;
  match p with
  | Pending => ret Pending
  | Resolved res =>
      modify_this (fun h => with_config (set_videoOptimized save (config h)) h) ;;;
      t1 <- now ;;
      ret (Resolved res)
  end.

End Orchestrator.

(** ** Vocabulary of the statements *)

(** A normalised coordinate inside the unit interval. *)
Definition in_unit (a : Q) : Prop := (0 <= a)%Q /\ (a <= 1)%Q.

(** [k] is the index of the maximum of [v 0 .. v (n-1)], the first one. *)
Definition first_max_index (v : nat -> Q) (n k : nat) : Prop :=
  (k < n)%nat /\
  (forall j, (j < n)%nat -> (v j <= v k)%Q) /\
  (forall j, (j < k)%nat -> (v j < v k)%Q).

(** The four pre-clamp box components [[x, y, w, h]] that [process] computes
    for cell [i] of a stride from four offset magnitudes [ks]. *)
Definition box_of_offsets (strideSize0 : nat) (inputSize0 : positive) (i : nat)
    (ks : list nat) : list Q :=
  let baseSize := (strideSize0 * 13)%nat in
  let cx := (((1 # 2) + inject_Z (trunc (Qnat (i mod baseSize)))) / Qnat baseSize)%Q in
  let cy := (((1 # 2) + inject_Z (trunc (Qnat i / Qnat baseSize))) / Qnat baseSize)%Q in
  let unit_ := (Qnat baseSize / Qnat strideSize0 / inject_Z (Zpos inputSize0))%Q in
  let off g := (Qnat (nth g ks 0%nat) * unit_)%Q in
  let x := (cx - (scaleBox / Qnat strideSize0 * off 0%nat))%Q in
  let y := (cy - (scaleBox / Qnat strideSize0 * off 1%nat))%Q in
  [ x; y;
    (cx + (scaleBox / Qnat strideSize0 * off 2%nat) - x)%Q;
    (cy + (scaleBox / Qnat strideSize0 * off 3%nat) - y)%Q ].

(** The number of model invocations of the object pipeline in a trace. *)
Definition is_object_invocation (e : Event) : bool :=
  match e with
  | EvInvoke m => (m =? "nanodet")%string
  | _ => false
  end.

Definition object_invocations (tr : list Event) : nat :=
  List.length (List.filter is_object_invocation tr).







(** The override object [{ async: b }] added to [u]. *)
Definition with_o_async (b : bool) (u : Overrides) : Overrides :=
  {| o_backend := o_backend u; o_wasmPath := o_wasmPath u; o_debug := o_debug u;
     o_async := Some b; o_profile := o_profile u; o_deallocate := o_deallocate u;
     o_scoped := o_scoped u; o_videoOptimized := o_videoOptimized u;
     o_warmup_mode := o_warmup_mode u; o_face := o_face u; o_body := o_body u;
     o_hand_enabled := o_hand_enabled u; o_object := o_object u;
     o_gesture_enabled := o_gesture_enabled u |}.

(** The final detections a settled [detect] reports, if any. *)
Definition detections_of (p : Promise Outcome)
    : Promise (string + jsval (list Candidate)) :=
  match p with
  | Pending => Pending
  | Resolved (Failed e) => Resolved (inl e)
  | Resolved (Detected r) => Resolved (inr (r_object r))
  end.



(** Successive [predict] calls on a list of frames. *)
Fixpoint predict_all `{ObjectRuntime} (frames : list Image) (cfg : Config)
    : M (list (Promise (jsval (list Candidate)))) :=
  match frames with
  | [] => ret []
  | f :: rest =>
      r <- nanodet.predict f cfg ;;
      rs <- predict_all rest cfg ;;
      ret (r :: rs)
  end.

(** The tensors [process] picks for a stride, by shape. *)
Definition is_scores_of `{ObjectRuntime} (s : nat) (a : Tensor) : bool :=
  (dim1 a =? (s * 13) ^ 2)%nat && (dim2 a =? List.length labels)%nat.

Definition is_features_of `{ObjectRuntime} (s : nat) (a : Tensor) : bool :=
  (dim1 a =? (s * 13) ^ 2)%nat && (dim2 a <? List.length labels)%nat.

(** [c] is the candidate pushed for cell [i] and class [j] of stride [s],
    from the scores tensor [st] and the features tensor [ft] of [res]. *)
Definition emitted_at `{ObjectRuntime} (res : list Tensor) (inputSize0 : positive)
    (outputShape : nat * nat) (cfg : Config) (s : nat) (st ft : Tensor)
    (i j : nat) (c : Candidate) : Prop :=
  In s [1; 2; 4]%nat /\
  find (is_scores_of s) res = Some st /\
  find (is_features_of s) res = Some ft /\
  (i < dim1 st)%nat /\ (j < List.length labels)%nat /\ j <> 61%nat /\
  Qgtb (at_ st i j) (minConfidence (object cfg)) = true /\
  exists idx id0,
    boxIdx_table ft = Some idx /\
    c = make_result id0 s inputSize0 outputShape (idx i) (at_ st i j) i j.

(** *** What [load] does, as a table *)

(** The loader behind a capability: a sibling module, or one of the two
    loaders of the embedded sources. *)
Inductive Loader :=
| Sibling (name : string)
| Nanodet
| Blazepose.

(** The capabilities in the order [load] visits them: the key in
    [this.models], the condition under which the capability is loaded, and
    its loader. *)
Definition plan (c : Config) : list (string * (bool * Loader)) :=
  let f := face c in
  let p := body_modelPath (body c) in
  [ ("face", (face_enabled f, Sibling "facemesh"));
    ("age", (face_enabled f && age_enabled f, Sibling "age"));
    ("gender", (face_enabled f && gender_enabled f, Sibling "gender"));
    ("emotion", (face_enabled f && emotion_enabled f, Sibling "emotion"));
    ("embedding", (face_enabled f && embedding_enabled f, Sibling "embedding"));
    ("handpose", (hand_enabled c, Sibling "handpose"));
    ("posenet", (body_enabled (body c) && includes p "posenet", Sibling "posenet"));
    ("blazepose", (body_enabled (body c) && includes p "blazepose", Blazepose));
    ("efficientpose",
      (body_enabled (body c) && includes p "efficientpose", Sibling "efficientpose"));
    ("nanodet", (object_enabled (object c), Nanodet));
    ("faceres", (face_enabled f && description_enabled f, Sibling "faceres")) ]%string.

(** The handle a loader answers with, given the module variables. *)
Definition handle_of `{ObjectRuntime} `{Collaborators} (c : Config)
    (nv : NanodetState) (bz : option Handle) (ld : Loader) : Handle :=
  match ld with
  | Sibling name => module_load name c
  | Nanodet =>
      match model nv with
      | Some m => m
      | None => loadGraphModel (object_modelPath (object c))
      end
  | Blazepose =>
      match bz with
      | Some m => m
      | None => loadGraphModel (body_modelPath (body c))
      end
  end.

(** The load events a loader causes, given the module variables. *)
Definition events_of (c : Config) (nv : NanodetState) (bz : option Handle)
    (ld : Loader) : list Event :=
  match ld with
  | Sibling name => [EvLoad name]
  | Nanodet =>
      match model nv with
      | Some _ => []
      | None => [EvLoadGraphModel "nanodet" (object_modelPath (object c))]
      end
  | Blazepose =>
      match bz with
      | Some _ => []
      | None => [EvLoadGraphModel "blazepose" (body_modelPath (body c))]
      end
  end.

(** A capability is loaded when its condition holds and its key is free. *)
Definition due (M : gmap string Handle) (k : string) (cond : bool) : bool :=
  cond && negb (bool_decide (is_Some (M !! k))).

(** The events of one [load] over the capabilities of [pl]. *)
Definition load_events (c : Config) (M : gmap string Handle)
    (nv : NanodetState) (bz : option Handle)
    (pl : list (string * (bool * Loader))) : list Event :=
  flat_map (fun e => if due M (fst e) (fst (snd e))
                     then events_of c nv bz (snd (snd e)) else []) pl.

Fixpoint assoc {A} (k : string) (l : list (string * A)) : option A :=
  match l with
  | [] => None
  | (k', a) :: rest => if (k' =? k)%string then Some a else assoc k rest
  end.

(** [this.models[k]] after one [load]. *)
Definition loaded_lookup `{ObjectRuntime} `{Collaborators} (c : Config)
    (M : gmap string Handle) (nv : NanodetState) (bz : option Handle)
    (k : string) : option Handle :=
  match M !! k with
  | Some m => Some m
  | None =>
      match assoc k (plan c) with
      | Some (true, ld) => Some (handle_of c nv bz ld)
      | _ => None
      end
  end.

(** The module variables after one [load]. *)
Definition loaded_nanodet `{ObjectRuntime} (c : Config)
    (M : gmap string Handle) (nv : NanodetState) : NanodetState :=
  if due M "nanodet" (object_enabled (object c)) then
    match model nv with
    | Some _ => nv
    | None => {| model := Some (loadGraphModel (object_modelPath (object c)));
                 last := last nv; skipped := skipped nv |}
    end
  else nv.

Definition loaded_blazepose `{ObjectRuntime} (c : Config)
    (M : gmap string Handle) (bz : option Handle) : option Handle :=
  if due M "blazepose"
         (body_enabled (body c) && includes (body_modelPath (body c)) "blazepose")
  then match bz with
       | Some m => Some m
       | None => Some (loadGraphModel (body_modelPath (body c)))
       end
  else bz.

(** The part of the state that [load] reads and writes. *)
Definition at_state (c : Config) (M : gmap string Handle) (nv : NanodetState)
    (bz : option Handle) (tr : list Event) (w : World) : Prop :=
  config (this w) = c /\ models (this w) = M /\ nanodet_vars w = nv /\
  blazepose_model w = bz /\ trace w = tr.

(** [this.models] after a conditional insertion. *)
Definition fill (b : bool) (k : string) (m : Handle) (M : gmap string Handle)
    : gmap string Handle :=
  if b then <[k := m]> M else M.

(** [this.models] after the assignment of a possibly [null] value. *)
Definition setm (k : string) (v : option Handle) (M : gmap string Handle)
    : gmap string Handle :=
  match v with
  | Some m => <[k := m]> M
  | None => delete k M
  end.

(** The fields of a configuration that decide what [load] loads are left
    unchanged by merging [u] again. *)
Definition settled (u : Overrides) (c : Config) : Prop :=
  mergeFace (face c) (o_face u) = face c /\
  mergeBody (body c) (o_body u) = body c /\
  pick (o_hand_enabled u) (hand_enabled c) = hand_enabled c /\
  mergeObject (object c) (o_object u) = object c /\
  pick (o_async u) (async c) = async c.

(** ** Vocabulary of the proofs *)

Unset Implicit Arguments.

(** What the scan of [v] knows after looking at positions [0 .. j-1]. *)
Definition scanned (v : nat -> Q) (best j : nat) : Prop :=
  (best < j)%nat /\
  (forall t, (t < j)%nat -> (v t <= v best)%Q) /\
  (forall t, (t < best)%nat -> (v t < v best)%Q).

(** Every candidate collected so far was pushed for some cell and class. *)
Definition all_emitted `{ObjectRuntime} (res : list Tensor)
    (inputSize0 : positive) (outputShape : nat * nat) (cfg : Config)
    (acc : nat * list Candidate) : Prop :=
  Forall (fun c => exists s st ft i j,
              emitted_at res inputSize0 outputShape cfg s st ft i j c)
         (snd acc).

(** [a] may come before [b] in a list sorted by descending [key]. *)
Definition desc {A} (key : A -> Q) (a b : A) : Prop := (key b <= key a)%Q.

(** [d] survived the overlap test against the selected [c]. *)
Definition clear_of `{ObjectRuntime} (boxes : list (list Q)) (thr : Q)
    (c d : nat) : Prop :=
  (iou (nth d boxes []) (nth c boxes []) < thr)%Q.

(** Two boxes that may stay together. *)
Definition apart `{ObjectRuntime} (cfg : Config) (a b : Candidate) : Prop :=
  (iou (boxRaw a) (boxRaw b) < iouThreshold (object cfg))%Q.

(** The test that serves a frame from the cache. *)
Definition skip_test (st : NanodetState) (cfg : Config) : bool :=
  (skipped st <? skipFrames (object cfg))%Z && videoOptimized cfg
  && (0 <? List.length (last st))%nat.

(** The decode [predict] performs on a frame when it does not skip. *)
Definition decoded `{ObjectRuntime} (m : Handle) (image : Image) (cfg : Config)
    : option (list Candidate) :=
  process (Some (executeAsync m image)) (inputSize m)
          (width image, height image) cfg.

(** [m] keeps the state predicate [I]. *)
Definition preserves {A} (I : World -> Prop) (m : M A) : Prop :=
  forall w, I w -> I (snd (m w)).


(** A detection entered under [videoOptimized = b]. *)
Definition detect_under (b : bool) (e : Event) : Prop :=
  match e with
  | EvDetect c => videoOptimized c = b
  | _ => True
  end.

(** The flag is [b], and every detection entered since the trace was [tr0]
    ran under [b]. *)
Definition flag_inv (b : bool) (tr0 : list Event) (w : World) : Prop :=
  videoOptimized (config (this w)) = b /\
  exists evs, trace w = (tr0 ++ evs)%list /\ List.Forall (detect_under b) evs.

(** The module variables after a loader ran. *)
Definition after_nv `{ObjectRuntime} (c : Config) (nv : NanodetState) (ld : Loader) : NanodetState :=
  match ld with
  | Nanodet =>
      match model nv with
      | Some _ => nv
      | None => {| model := Some (loadGraphModel (object_modelPath (object c)));
                   last := last nv; skipped := skipped nv |}
      end
  | _ => nv
  end.

(** The blazepose module variable after a loader ran. *)
Definition after_bz `{ObjectRuntime} (c : Config) (bz : option Handle) (ld : Loader) : option Handle :=
  match ld with
  | Blazepose =>
      match bz with
      | Some m => Some m
      | None => Some (loadGraphModel (body_modelPath (body c)))
      end
  | _ => bz
  end.

(** [loader] is the loader [ld] called with configuration [c']. *)
Definition runs_as `{ObjectRuntime} `{Collaborators} (ld : Loader) (c' : Config) (loader : M Handle) : Prop :=
  forall c M nv bz tr w,
    at_state c M nv bz tr w ->
    fst (loader w) = handle_of c' nv bz ld /\
    at_state c M (after_nv c' nv ld) (after_bz c' bz ld)
             (tr ++ events_of c' nv bz ld) (snd (loader w)).




(** What the object pipeline and the steps before it can see of a state,
    the execution mode left out. *)
Definition same_view (w1 w2 : World) : Prop :=
  nanodet_vars w1 = nanodet_vars w2 /\
  set_async true (config (this w1)) = set_async true (config (this w2)) /\
  checkSanity (this w1) = checkSanity (this w2) /\
  firstRun (this w1) = firstRun (this w2) /\
  models (this w1) !! "nanodet" = models (this w2) !! "nanodet" /\
  tf_backend w1 = tf_backend w2 /\
  IS_NODE w1 = IS_NODE w2 /\ IS_BROWSER w1 = IS_BROWSER w2 /\
  blazepose_model w1 = blazepose_model w2 /\
  models (this w1) !! "blazepose" = models (this w2) !! "blazepose".

(** Two computations started in states with the same view end in states
    with the same view, with answers related by [RA]. *)
Definition rel {A B} (RA : A -> B -> Prop) (m1 : M A) (m2 : M B) : Prop :=
  forall w1 w2, same_view w1 w2 ->
    RA (fst (m1 w1)) (fst (m2 w2)) /\ same_view (snd (m1 w1)) (snd (m2 w2)).

(** A computation that leaves the view alone. *)
Definition keeps {A} (m : M A) : Prop := forall w, same_view (snd (m w)) w.

(** The parts of the view that the two branches of [load] do not touch. *)
Definition rest_of_view (w0 w : World) : Prop :=
  config (this w) = config (this w0) /\
  checkSanity (this w) = checkSanity (this w0) /\
  firstRun (this w) = firstRun (this w0) /\
  tf_backend w = tf_backend w0 /\
  IS_NODE w = IS_NODE w0 /\ IS_BROWSER w = IS_BROWSER w0.

(** The two computations, started in [w1] and [w2], end with answers
    related by [RA] and in states related by [V]. *)
Definition ends_at {A B} (V : World -> World -> Prop) (w1 w2 : World)
    (RA : A -> B -> Prop) (m1 : M A) (m2 : M B) : Prop :=
  RA (fst (m1 w1)) (fst (m2 w2)) /\ V (snd (m1 w1)) (snd (m2 w2)).

(** Any two states: the end of a computation of which only the answer is
    compared. *)
Definition anywhere (w1 w2 : World) : Prop := True.

(** A computation that answers [a] from every state. *)
Definition answers {A} (a : A) (m : M A) : Prop := forall w, fst (m w) = a.

(** A pipeline whose promise always settles. *)
Definition settles {A} (m : M (Promise A)) : Prop :=
  forall w, exists r, fst (m w) = Resolved r.

(** Two settled [detect] promises report the same detections. *)
Definition agree (p1 p2 : Promise Outcome) : Prop :=
  detections_of p1 = detections_of p2.

(** ** Vocabulary of the further properties *)

(** The loop state of [process] numbers the candidates in the order they are
    pushed: [id] counts from [0]. *)
Definition numbered (acc : nat * list Candidate) : Prop :=
  map id (snd acc) = seq 0 (fst acc).


(** [m], started in a state satisfying [P], answers [a] in a state [w] with
    [Q a w]. *)
Definition hoare {A} (P : World -> Prop) (m : M A) (Q : A -> World -> Prop) : Prop :=
  forall w, P w -> Q (fst (m w)) (snd (m w)).

(** The stages of [detect] that are timed one by one. *)
Definition stage_names : list string := ["face"; "body"; "hand"; "object"]%string.

(** No stage timing is stored unless it is positive. *)
Definition stage_positive (p : gmap string Z) : Prop :=
  forall n v, In n stage_names -> p !! n = Some v -> (0 < v)%Z.

(** Two configurations that differ at most in [backend]. *)
Definition same_but_backend (c1 c2 : Config) : Prop :=
  set_backend "" c1 = set_backend "" c2.

(** What holds while [detect] runs under the merged configuration [c]: the
    configuration is [c] up to the backend, sanity checking is off, the stage
    timings are positive, in concurrent mode the timings of the stages in
    [done] are gone, and the entries in [present] are there. *)
Definition detect_inv (c : Config) (done present : list string) (w : World) : Prop :=
  same_but_backend (config (this w)) c /\
  checkSanity (this w) = false /\
  stage_positive (perf (this w)) /\
  (async c = true -> List.Forall (fun n => perf (this w) !! n = None) done) /\
  List.Forall (fun n => is_Some (perf (this w) !! n)) present.

(** What [detect] leaves and answers, for the merged configuration [c], on an
    instance whose sanity checking is off. *)
Definition detect_post (c : Config) (p : Promise Outcome) (w : World) : Prop :=
  same_but_backend (config (this w)) c /\
  checkSanity (this w) = false /\
  stage_positive (perf (this w)) /\
  match p with
  | Pending =>
      object_enabled (object c) = true \/
      (body_enabled (body c) = true /\
       includes (body_modelPath (body c)) "blazepose" = true)
  | Resolved (Failed e) => e = "could not convert input to tensor"%string
  | Resolved (Detected r) =>
      r_performance r = perf (this w) /\
      state (this w) = "idle"%string /\
      is_Some (r_performance r !! "total") /\
      is_Some (r_performance r !! "image") /\
      (async c = true ->
       List.Forall (fun n => r_performance r !! n = None) stage_names) /\
      (face_enabled (face c) = false -> r_face r = Value []) /\
      (body_enabled (body c) = false ->
       r_body r = Value [] \/ r_body r = Undefined) /\
      (hand_enabled c = false -> r_hand r = Value []) /\
      (object_enabled (object c) = false -> r_object r = Value []) /\
      (gesture_enabled c = false -> r_gesture r = [])
  end.

(** An instance as the constructor makes it and the methods leave it: sanity
    checking is off and no stored stage timing is zero or negative. *)
Definition healthy (w : World) : Prop :=
  checkSanity (this w) = false /\ stage_positive (perf (this w)).


(** Whether [#checkBackend(force)] asks the engine for a backend. *)
Definition backend_requested (force : bool) (w : World) : bool :=
  let b := backend (config (this w)) in
  negb (b =? "")%string && (force || negb (tf_backend w =? b)%string).

(** An invocation of one of the models [names]. *)
Definition invokes (names : list string) (e : Event) : bool :=
  match e with
  | EvInvoke m => existsb (String.eqb m) names
  | _ => false
  end.

(** The configuration is [c] up to the backend, and the invocations of
    [names] recorded so far are [evs]. *)
Definition silent_inv (c : Config) (names : list string) (evs : list Event)
    (w : World) : Prop :=
  same_but_backend (config (this w)) c /\
  List.filter (invokes names) (trace w) = evs.

(** ** A concrete runtime, used to run the embedded code on examples *)

Module Sample.

Definition labels10 : list string :=
  [ "person"; "bicycle"; "car"; "motorcycle"; "airplane";
    "bus"; "train"; "truck"; "boat"; "traffic light" ]%string.

(** Intersection over union of two corner-format boxes. *)
Definition box_iou (a b : list Q) : Q :=
  let c k l := nth k l 0%Q in
  let ymin_a := Qmin (c 0%nat a) (c 2%nat a) in
  let xmin_a := Qmin (c 1%nat a) (c 3%nat a) in
  let ymax_a := Qmax (c 0%nat a) (c 2%nat a) in
  let xmax_a := Qmax (c 1%nat a) (c 3%nat a) in
  let ymin_b := Qmin (c 0%nat b) (c 2%nat b) in
  let xmin_b := Qmin (c 1%nat b) (c 3%nat b) in
  let ymax_b := Qmax (c 0%nat b) (c 2%nat b) in
  let xmax_b := Qmax (c 1%nat b) (c 3%nat b) in
  let area_a := ((ymax_a - ymin_a) * (xmax_a - xmin_a))%Q in
  let area_b := ((ymax_b - ymin_b) * (xmax_b - xmin_b))%Q in
  if Qle_bool area_a 0 || Qle_bool area_b 0 then 0%Q
  else
    let ih := Qmax (Qmin ymax_a ymax_b - Qmax ymin_a ymin_b) 0 in
    let iw := Qmax (Qmin xmax_a xmax_b - Qmax xmin_a xmin_b) 0 in
    ((ih * iw) / (area_a + area_b - ih * iw))%Q.

(** A toy detection head.  The class scores of the coarsest grid are read
    off the frame, [pixels[i * 10 + j] / 255] for cell [i] and class [j];
    the finer grids score nothing.  Every cell has the same eight
    regression features. *)
Definition scores_of (img : Image) (stride : nat) : Tensor :=
  {| dim1 := (stride * 13) ^ 2; dim2 := 10;
     at_ := fun i j =>
       if (stride =? 1)%nat
       then (inject_Z (nth (i * 10 + j) (pixels img) 0%Z) / 255)%Q
       else 0%Q |}.

Definition features_of (stride : nat) : Tensor :=
  {| dim1 := (stride * 13) ^ 2; dim2 := 8;
     at_ := fun _ f => nth f [1; 5; 7; 2; 0; 0; 3; 9]%Q 0%Q |}.

Definition execute (m : Handle) (img : Image) : list Tensor :=
  [ features_of 1; scores_of img 1;
    scores_of img 2; features_of 2;
    features_of 4; scores_of img 4 ].

(** The arg-max of the runtime's reference kernel on a ragged shape.  The
    kernel takes the features of all cells as one flat array; row [r = 4 i + g]
    of its answer starts at offset [r * F / 4] and scans the whole numbers
    [j < F / 4].  At a fractional offset every read is [undefined], no
    comparison succeeds and the answer is [0]; at a whole offset the answer
    is the first index of the maximum of the values scanned.  The reshape
    raises when there is no feature at all. *)
Definition ragged_kernel (t : Tensor) : option (nat -> nat -> nat) :=
  let F := dim2 t in
  if (F =? 0)%nat then None
  else Some (fun i g =>
    let r := (4 * i + g)%nat in
    if ((r * F) mod 4 =? 0)%nat
    then argMax (fun k => let p := ((r * F) / 4 + k)%nat in at_ t (p / F) (p mod F))
                ((F + 3) / 4)
    else 0%nat).

#[local] Instance runtime : ObjectRuntime :=
  {| labels := labels10;
     iou := box_iou;
     loadGraphModel := fun path => {| handle_path := path; inputSize := 416 |};
     executeAsync := execute;
     argMax_ragged := ragged_kernel |}.

(** A model output of 31 key points, and a stand-in for [Math.exp] that is
    never negative. *)
Definition pose_points : list Q :=
  flat_map (fun i => [Qnat (8 * i); Qnat (255 - 8 * i); Qnat i; 2; -2]%Q) (seq 0 31).

Definition exp_ (v : Q) : Q := ((1 + v / 2) * (1 + v / 2))%Q.

(** A short table of part names, standing in for the tables of
    [./annotations]. *)
Definition parts : list string := ["nose"; "leftEye"; "rightEye"]%string.

#[local] Instance collaborators : Collaborators :=
  {| now_at := fun n => (inject_Z (Z.of_nat n) / 4)%Q;
     module_load := fun name _ => {| handle_path := name; inputSize := 1 |};
     backend_available := fun _ => true;
     image_process := fun input _ =>
       match input with
       | Some (InputTensor t) => Some (t, [])
       | Some (InputMedia t) => Some (t, [1%Z])
       | None => None
       end;
     detectFace := fun _ _ _ => [];
     estimatePoses := fun _ _ _ => [];
     efficientpose_predict := fun _ _ => Value [];
     estimateHands := fun _ _ _ => [];
     blazepose_outputs := fun _ img =>
       match pixels img with
       | [] => [[1 # 2]]
       | _ => [[1 # 2]; pose_points]
       end;
     Math_exp := exp_;
     annotations_full := parts;
     annotations_upper := parts;
     gesture_face := fun _ => [];
     gesture_body := fun _ => [];
     gesture_hand := fun _ => [];
     gesture_iris := fun _ => [];
     sample_face := {| height := 256; width := 256; pixels := [] |};
     sample_body := {| height := 1200; width := 1200; pixels := [] |} |}.

Definition defaults : Config :=
  {| backend := "webgl"; wasmPath := "../assets/"; debug := false;
     async := false; profile := false; deallocate := false; scoped := false;
     videoOptimized := true; warmup_mode := "face";
     face := {| face_enabled := false; age_enabled := false;
                gender_enabled := false; emotion_enabled := false;
                embedding_enabled := false; description_enabled := false |};
     body := {| body_enabled := false;
                body_modelPath := "../models/blazepose.json" |};
     hand_enabled := false;
     object := {| object_enabled := true;
                  object_modelPath := "../models/nanodet.json";
                  minConfidence := 1 # 2; iouThreshold := 2 # 5;
                  maxResults := 10; skipFrames := 2 |};
     gesture_enabled := true |}.

(** A frame on which the toy head scores class 0 at 0.9 and class 2 at 0.8
    in cell 0, and class 1 at 0.6 in cell 90. *)
Definition busy_frame : Image :=
  {| height := 480; width := 640;
     pixels := ([230; 0; 204] ++ repeat 0 898 ++ [153])%Z |}.

(** A frame on which nothing scores. *)
Definition blank_frame : Image :=
  {| height := 480; width := 640; pixels := [] |}.

(** A browser without [createImageBitmap], whose engine runs [webgl]. *)
Definition browser (cfg : Config) : World :=
  initial_world cfg "webgl" false true false true.

(** The handle [load] makes of the object model, and what the toy head
    returns for the busy frame. *)
Definition handle : Handle :=
  {| handle_path := "../models/nanodet.json"; inputSize := 416 |}.

Definition outputs : list Tensor := execute handle busy_frame.

(** The three candidates [decode] pushes for the busy frame. *)
Definition person : Candidate :=
  {| id := 0; strideSize := 1; score := 230 # 255; class := 1; label := "person";
     center := [24%Z; 18%Z]; centerRaw := [1 # 26; 1 # 26];
     box := [0%Z; 18%Z; 50%Z; 37%Z];
     boxRaw := [0%Q; 832 # 21632; 36558080 # 467943424; 36558080 # 467943424] |}.

Definition car : Candidate :=
  {| id := 1; strideSize := 1; score := 204 # 255; class := 3; label := "car";
     center := [24%Z; 18%Z]; centerRaw := [1 # 26; 1 # 26];
     box := [0%Z; 18%Z; 50%Z; 37%Z];
     boxRaw := [0%Q; 832 # 21632; 36558080 # 467943424; 36558080 # 467943424] |}.

Definition bicycle : Candidate :=
  {| id := 2; strideSize := 1; score := 153 # 255; class := 2; label := "bicycle";
     center := [615%Z; 240%Z]; centerRaw := [25 # 26; 13 # 26];
     box := [565%Z; 240%Z; 50%Z; 37%Z];
     boxRaw := [19110 # 21632; 10816 # 21632; 36558080 # 467943424;
                36558080 # 467943424] |}.

(** All the candidates of the busy frame, and those the suppressor keeps. *)
Definition candidates : list Candidate := [person; car; bicycle].

Definition survivors : list Candidate := [person; bicycle].

(** The browser once the object model is loaded. *)
Definition loaded : World := snd (nanodet.load defaults (browser defaults)).


Definition video : list Image :=
  [busy_frame; blank_frame; blank_frame; busy_frame].

Definition busy_input : option Input := Some (InputMedia busy_frame).

(** The instance after one sequential [detect] of the busy frame. *)
Definition after_sync : World :=
  snd (detect busy_input no_overrides (browser defaults)).

(** What [warmup] resolves with in the browser. *)
Definition warm_result : jsval Outcome :=
  match fst (warmup no_overrides (browser defaults)) with
  | Resolved r => r
  | Pending => Null
  end.

(** The override objects [{ object: { enabled: false } }],
    [{ warmup: 'none' }] and [{ backend: 'tensorflow' }]. *)
Definition object_off : Overrides :=
  {| o_backend := None; o_wasmPath := None; o_debug := None; o_async := None;
     o_profile := None; o_deallocate := None; o_scoped := None;
     o_videoOptimized := None; o_warmup_mode := None;
     o_face := Build_FaceOverrides None None None None None None;
     o_body := Build_BodyOverrides None None;
     o_hand_enabled := None;
     o_object := Build_ObjectOverrides (Some false) None None None None None;
     o_gesture_enabled := None |}.

Definition warmup_none : Overrides :=
  {| o_backend := None; o_wasmPath := None; o_debug := None; o_async := None;
     o_profile := None; o_deallocate := None; o_scoped := None;
     o_videoOptimized := None; o_warmup_mode := Some "none"%string;
     o_face := Build_FaceOverrides None None None None None None;
     o_body := Build_BodyOverrides None None;
     o_hand_enabled := None;
     o_object := Build_ObjectOverrides None None None None None None;
     o_gesture_enabled := None |}.

(** The defaults without the object pipeline, without [videoOptimized], and
    with the backend of node. *)
Definition idle : Config := mergeDeep defaults object_off.

Definition unoptimized : Config := set_videoOptimized false defaults.

Definition for_node : Config := set_backend "tensorflow" defaults.

(** Seven frames of the busy scene. *)
Definition busy_frames : list Image := repeat busy_frame 7.

(** What a sequential [detect] of the busy frame resolves with in the
    browser, and what a concurrent one resolves with after it. *)
Definition empty_result : Result :=
  {| r_face := Undefined; r_body := Undefined; r_hand := Undefined;
     r_gesture := []; r_object := Undefined; r_performance := ∅;
     r_canvas := [] |}.

Definition sync_result : Result :=
  match fst (detect busy_input no_overrides (browser defaults)) with
  | Resolved (Detected r) => r
  | _ => empty_result
  end.

Definition async_result : Result :=
  match fst (detect busy_input (with_o_async true no_overrides) after_sync) with
  | Resolved (Detected r) => r
  | _ => empty_result
  end.

(** The first key point of [pose_points] on a frame of 640 by 480. *)
Definition nose : Keypoint :=
  Eval vm_compute in keypoint exp_ parts 640 480 pose_points 0.

(** A head whose regression outputs have six features a cell, which is not
    a multiple of four, and what it returns for the busy frame. *)
Definition ragged_features_of (stride : nat) : Tensor :=
  {| dim1 := (stride * 13) ^ 2; dim2 := 6;
     at_ := fun _ f => nth f [1; 5; -9; -8; -7; -1]%Q 0%Q |}.

Definition ragged_outputs : list Tensor :=
  [ ragged_features_of 1; scores_of busy_frame 1;
    scores_of busy_frame 2; ragged_features_of 2;
    ragged_features_of 4; scores_of busy_frame 4 ].

(** The three candidates [decode] pushes for the busy frame from these
    outputs: every box is twice as wide as in [candidates] and has no
    height. *)
Definition wide_person : Candidate :=
  {| id := 0; strideSize := 1; score := 230 # 255; class := 1; label := "person";
     center := [24%Z; 18%Z]; centerRaw := [1 # 26; 1 # 26];
     box := [0%Z; 18%Z; 100%Z; 0%Z];
     boxRaw := [0%Q; 832 # 21632; 73116160 # 467943424; 0%Q] |}.

Definition wide_car : Candidate :=
  {| id := 1; strideSize := 1; score := 204 # 255; class := 3; label := "car";
     center := [24%Z; 18%Z]; centerRaw := [1 # 26; 1 # 26];
     box := [0%Z; 18%Z; 100%Z; 0%Z];
     boxRaw := [0%Q; 832 # 21632; 73116160 # 467943424; 0%Q] |}.

Definition wide_bicycle : Candidate :=
  {| id := 2; strideSize := 1; score := 153 # 255; class := 2; label := "bicycle";
     center := [615%Z; 240%Z]; centerRaw := [25 # 26; 13 # 26];
     box := [565%Z; 240%Z; 100%Z; 0%Z];
     boxRaw := [19110 # 21632; 10816 # 21632; 73116160 # 467943424; 0%Q] |}.

Definition ragged_candidates : list Candidate :=
  [wide_person; wide_car; wide_bicycle].

(** The override object [{ body: { enabled: true } }], the defaults with the
    body pipeline, and the browser once blazepose is loaded. *)
Definition body_on : Overrides :=
  {| o_backend := None; o_wasmPath := None; o_debug := None; o_async := None;
     o_profile := None; o_deallocate := None; o_scoped := None;
     o_videoOptimized := None; o_warmup_mode := None;
     o_face := Build_FaceOverrides None None None None None None;
     o_body := Build_BodyOverrides (Some true) None;
     o_hand_enabled := None;
     o_object := Build_ObjectOverrides None None None None None None;
     o_gesture_enabled := None |}.

Definition posing : Config := mergeDeep defaults body_on.

Definition posed : World := snd (blazepose.load posing (browser posing)).


Definition video_off : Overrides :=
  {| o_backend := None; o_wasmPath := None; o_debug := None; o_async := None;
     o_profile := None; o_deallocate := None; o_scoped := None;
     o_videoOptimized := Some false; o_warmup_mode := None;
     o_face := Build_FaceOverrides None None None None None None;
     o_body := Build_BodyOverrides None None;
     o_hand_enabled := None;
     o_object := Build_ObjectOverrides None None None None None None;
     o_gesture_enabled := None |}.



(** The handle [load] makes of blazepose, and what [predict] makes of the
    busy frame with it. *)
Definition pose_handle : Handle :=
  {| handle_path := "../models/blazepose.json"; inputSize := 416 |}.

Definition pose : list Body :=
  [Keypoints (keypoints exp_ parts parts busy_frame pose_points)].

End Sample.

(* ================================================================== *)
(** * Part II. Properties *)
(* ================================================================== *)


(** ** Numbers *)

Lemma Qltb_lt a b : Qltb a b = true <-> (a < b)%Q.
Proof.
  unfold Qltb. rewrite negb_true_iff. split.
  - intros Hb. apply Qnot_le_lt. intros Hle.
    apply Qle_bool_iff in Hle. congruence.
  - intros Hlt. destruct (Qle_bool b a) eqn:E; [|reflexivity].
    apply Qle_bool_iff in E. exfalso. exact (Qlt_not_le _ _ Hlt E).
Qed.

Lemma Qltb_ge a b : Qltb a b = false <-> (b <= a)%Q.
Proof.
  unfold Qltb. rewrite negb_false_iff. apply Qle_bool_iff.
Qed.

Lemma Qgtb_gt a b : Qgtb a b = true <-> (b < a)%Q.
Proof. apply (Qltb_lt b a). Qed.

Lemma clamp_in_unit a : in_unit (clamp a).
Proof.
  unfold in_unit, clamp. split.
  - apply Q.le_max_l.
  - apply Q.max_lub; [discriminate | apply Q.le_min_r].
Qed.

(** ** The runtime's arg-max *)

Section ArgMax.
Variable v : nat -> Q.

Lemma scanned_step best j :
  scanned v best j ->
  scanned v (if Qltb (v best) (v j) then j else best) (S j).
Proof.
  intros (Hlt & Hmax & Hfirst).
  destruct (Qltb (v best) (v j)) eqn:E.
  - apply Qltb_lt in E. repeat split.
    + lia.
    + intros t Ht. destruct (Nat.eq_dec t j) as [->|Hne].
      * apply Qle_refl.
      * apply Qlt_le_weak. apply Qle_lt_trans with (v best); [|exact E].
        apply Hmax. lia.
    + intros t Ht. apply Qle_lt_trans with (v best); [|exact E].
      apply Hmax. exact Ht.
  - apply Qltb_ge in E. repeat split.
    + lia.
    + intros t Ht. destruct (Nat.eq_dec t j) as [->|Hne].
      * exact E.
      * apply Hmax. lia.
    + exact Hfirst.
Qed.

Lemma argMax_from_scanned n : forall best j,
  scanned v best j -> scanned v (argMax_from v best j n) (j + n).
Proof.
  induction n as [|n IH]; intros best j H; simpl.
  - now rewrite Nat.add_0_r.
  - replace (j + S n)%nat with (S j + n)%nat by lia.
    apply IH, scanned_step, H.
Qed.

Lemma argMax_first_max n :
  (0 < n)%nat -> first_max_index v n (argMax v n).
Proof.
  intros Hn. destruct n as [|n]; [lia|].
  unfold argMax. simpl.
  assert (H0 : scanned v 0 1).
  { repeat split; [lia | | intros t Ht; lia].
    intros t Ht. replace t with 0%nat by lia. apply Qle_refl. }
  replace (if Qltb (v 0%nat) (v 0%nat) then 0%nat else 0%nat) with 0%nat
    by (destruct (Qltb (v 0%nat) (v 0%nat)); reflexivity).
  exact (argMax_from_scanned n 0%nat 1%nat H0).
Qed.

End ArgMax.

Lemma four_groups_pos ft :
  four_groups ft = true -> (0 < dim2 ft / 4)%nat.
Proof.
  unfold four_groups. rewrite andb_true_iff, Nat.ltb_lt, Nat.eqb_eq.
  intros [Hpos Hmod].
  pose proof (Nat.div_mod_eq (dim2 ft) 4). lia.
Qed.

Lemma boxIdx_length ft i : List.length (boxIdx ft i) = 4%nat.
Proof. reflexivity. Qed.

Lemma boxIdx_nth ft i g :
  (g < 4)%nat ->
  nth g (boxIdx ft i) 0%nat
  = argMax (fun k => at_ ft i (g * (dim2 ft / 4) + k)) (dim2 ft / 4).
Proof.
  intros Hg. destruct g as [|[|[|[|g]]]]; try reflexivity. lia.
Qed.

(** ** The stride decoder *)

Section DecoderFacts.
Context {RT : ObjectRuntime}.
Variables (res : list Tensor) (inputSize0 : positive)
          (outputShape : nat * nat) (cfg : Config).

Lemma fold_left_invariant {A B} (f : A -> B -> A) (P : A -> Prop) (l : list B) :
  (forall a x, In x l -> P a -> P (f a x)) ->
  forall a, P a -> P (fold_left f l a).
Proof.
  induction l as [|x l IH]; intros Hstep a Ha; simpl; [exact Ha|].
  apply IH.
  - intros a' x' Hin. apply Hstep. now right.
  - apply Hstep; [now left | exact Ha].
Qed.

Lemma stride_step_emitted s acc acc' :
  In s [1; 2; 4]%nat ->
  stride_step res inputSize0 outputShape cfg acc s = Some acc' ->
  all_emitted res inputSize0 outputShape cfg acc -> all_emitted res inputSize0 outputShape cfg acc'.
Proof.
  intros Hs Hstep Hacc. unfold stride_step in Hstep.
  change (find _ res) with (find (is_features_of s) res) in Hstep at 1.
  destruct (find (is_features_of s) res) as [ft|] eqn:Eft; [|discriminate].
  destruct (boxIdx_table ft) as [idx|] eqn:Eidx; [|discriminate].
  change (find _ res) with (find (is_scores_of s) res) in Hstep.
  destruct (find (is_scores_of s) res) as [st|] eqn:Est; [|discriminate].
  injection Hstep as <-.
  assert (Hdim : dim2 st = List.length labels).
  { apply find_some in Est. destruct Est as [_ Hp].
    unfold is_scores_of in Hp. apply andb_true_iff in Hp.
    destruct Hp as [_ Hp]. now apply Nat.eqb_eq in Hp. }
  apply fold_left_invariant; [|exact Hacc].
  intros a i Hi Ha. unfold cell_step.
  apply fold_left_invariant; [|exact Ha].
  intros b j Hj Hb. unfold class_step.
  destruct (Qgtb (at_ st i j) (minConfidence (object cfg))
            && negb (j =? 61)%nat) eqn:Epass; [|exact Hb].
  apply andb_true_iff in Epass. destruct Epass as [Hscore Hne].
  apply negb_true_iff, Nat.eqb_neq in Hne.
  apply in_seq in Hi. apply in_seq in Hj.
  unfold all_emitted in *. simpl. apply Forall_app. split; [exact Hb|].
  constructor; [|constructor].
  exists s, st, ft, i, j. unfold emitted_at.
  repeat split; try assumption; try lia.
  exists idx, (fst b). split; [exact Eidx | reflexivity].
Qed.

Lemma decode_strides_emitted strides : forall acc acc',
  incl strides [1; 2; 4]%nat ->
  decode_strides res inputSize0 outputShape cfg acc strides = Some acc' ->
  all_emitted res inputSize0 outputShape cfg acc -> all_emitted res inputSize0 outputShape cfg acc'.
Proof.
  induction strides as [|s rest IH]; intros acc acc' Hincl Hdec Hacc; simpl in Hdec.
  - now injection Hdec as <-.
  - destruct (stride_step res inputSize0 outputShape cfg acc s) as [acc1|] eqn:E;
      [|discriminate].
    apply (IH acc1 acc'); [| exact Hdec |].
    + intros x Hx. apply Hincl. now right.
    + apply (stride_step_emitted s acc); [apply Hincl; now left | exact E | exact Hacc].
Qed.

(** Every candidate of a successful decode was pushed for a cell and a
    class of one of the three strides. *)
Lemma decode_emitted results c :
  decode res inputSize0 outputShape cfg = Some results ->
  In c results ->
  exists s st ft i j, emitted_at res inputSize0 outputShape cfg s st ft i j c.
Proof.
  unfold decode. intros Hdec Hin.
  destruct (decode_strides res inputSize0 outputShape cfg (0%nat, []) [1; 2; 4]%nat)
    as [acc|] eqn:E; [|discriminate].
  simpl in Hdec. injection Hdec as <-.
  assert (H : all_emitted res inputSize0 outputShape cfg acc).
  { apply (decode_strides_emitted [1; 2; 4]%nat (0%nat, []) acc).
    - apply incl_refl.
    - exact E.
    - unfold all_emitted. simpl. constructor. }
  unfold all_emitted in H. rewrite List.Forall_forall in H. now apply H.
Qed.

End DecoderFacts.

Lemma make_result_boxRaw `{ObjectRuntime} id0 s inputSize0 outputShape ks i sc j :
  List.length ks = 4%nat ->
  boxRaw (make_result id0 s inputSize0 outputShape ks sc i j)
  = map clamp (box_of_offsets s inputSize0 i ks).
Proof.
  intros Hlen. destruct ks as [|k0 [|k1 [|k2 [|k3 [|k4 ks]]]]]; try discriminate Hlen.
  reflexivity.
Qed.

Lemma boxIdx_table_groups `{ObjectRuntime} ft idx :
  boxIdx_table ft = Some idx -> four_groups ft = true -> idx = boxIdx ft.
Proof.
  unfold boxIdx_table. intros E Hg. rewrite Hg in E. now injection E as <-.
Qed.

Lemma boxIdx_table_length `{ObjectRuntime} ft idx i :
  boxIdx_table ft = Some idx -> List.length (idx i) = 4%nat.
Proof.
  unfold boxIdx_table. destruct (four_groups ft).
  - intros E. injection E as <-. reflexivity.
  - destruct (argMax_ragged ft) as [f|]; [|discriminate].
    intros E. injection E as <-. reflexivity.
Qed.

(** C2 (as amended).  Index-as-value regression.  For every candidate of a
    successful decode there are a stride, the regression-feature tensor of
    that stride and a cell such that the candidate's box is computed from
    the four numbers [ks] the runtime answers for that cell, as the offset
    magnitudes, and from nothing else of the features.  When the feature
    count [F] of the tensor is a positive multiple of four, the features of
    the cell are four groups of [F / 4] consecutive values and each of the
    four numbers is the index at which its group takes its maximum value (the
    first such index). *)
Theorem decode_regression_uses_argmax_index `{ObjectRuntime}
    (res : list Tensor) (inputSize0 : positive) (outputShape : nat * nat)
    (cfg : Config) (results : list Candidate) (c : Candidate) :
  decode res inputSize0 outputShape cfg = Some results ->
  In c results ->
  exists s ft i idx,
    In s [1; 2; 4]%nat /\
    find (is_features_of s) res = Some ft /\
    boxIdx_table ft = Some idx /\
    let n := (dim2 ft / 4)%nat in
    let ks := idx i in
    List.length ks = 4%nat /\
    boxRaw c = map clamp (box_of_offsets s inputSize0 i ks) /\
    (four_groups ft = true ->
     forall g, (g < 4)%nat ->
       first_max_index (fun k => at_ ft i (g * n + k)) n (nth g ks 0%nat)).
Proof.
  intros Hdec Hin.
  destruct (decode_emitted res inputSize0 outputShape cfg results c Hdec Hin)
    as (s & st & ft & i & j & Hs & _ & Hft & _ & _ & _ & _ & idx & id0 & Hidx & ->).
  exists s, ft, i, idx.
  split; [exact Hs|]. split; [exact Hft|]. split; [exact Hidx|].
  cbv zeta. split; [exact (boxIdx_table_length ft idx i Hidx)|].
  split; [apply make_result_boxRaw, (boxIdx_table_length ft idx i Hidx)|].
  intros Hg g Hlt. rewrite (boxIdx_table_groups ft idx Hidx Hg).
  rewrite boxIdx_nth by exact Hlt.
  apply argMax_first_max, four_groups_pos, Hg.
Qed.

(** C4.  Every candidate of a successful decode has a [boxRaw] of four
    components, each inside [[0, 1]]; the pixel-space [box] is computed from
    these clamped components, scaled by the output shape and truncated. *)
Theorem decode_boxRaw_in_unit `{ObjectRuntime}
    (res : list Tensor) (inputSize0 : positive) (outputShape : nat * nat)
    (cfg : Config) (results : list Candidate) (c : Candidate) :
  decode res inputSize0 outputShape cfg = Some results ->
  In c results ->
  List.length (boxRaw c) = 4%nat /\
  List.Forall in_unit (boxRaw c) /\
  box c = map trunc [ (nth 0%nat (boxRaw c) 0 * Qnat (fst outputShape))%Q;
                      (nth 1%nat (boxRaw c) 0 * Qnat (snd outputShape))%Q;
                      (nth 2%nat (boxRaw c) 0 * Qnat (fst outputShape))%Q;
                      (nth 3%nat (boxRaw c) 0 * Qnat (snd outputShape))%Q ].
Proof.
  intros Hdec Hin.
  destruct (decode_emitted res inputSize0 outputShape cfg results c Hdec Hin)
    as (s & st & ft & i & j & _ & _ & _ & _ & _ & _ & _ & idx & id0 & _ & ->).
  split; [reflexivity|]. split; [|reflexivity].
  unfold make_result. cbv zeta. cbn [boxRaw].
  apply List.Forall_forall. intros a Ha.
  apply in_map_iff in Ha. destruct Ha as (b & <- & _). apply clamp_in_unit.
Qed.

(** C10.  Every candidate of a successful decode was pushed for a surviving
    pair of a cell [i] and a class [j] of some stride: [j] indexes the label
    table and is not [61], the candidate's score is the score of the pair and
    exceeds [minConfidence]; its [class] is [j + 1] and its [label] is the
    entry of the label table at index [j]. *)
Theorem decode_class_is_label_index_plus_one `{ObjectRuntime}
    (res : list Tensor) (inputSize0 : positive) (outputShape : nat * nat)
    (cfg : Config) (results : list Candidate) (c : Candidate) :
  decode res inputSize0 outputShape cfg = Some results ->
  In c results ->
  exists s st i j,
    find (is_scores_of s) res = Some st /\
    (i < dim1 st)%nat /\ (j < List.length labels)%nat /\ j <> 61%nat /\
    score c = at_ st i j /\
    Qgtb (score c) (minConfidence (object cfg)) = true /\
    class c = (j + 1)%nat /\
    nth_error labels j = Some (label c).
Proof.
  intros Hdec Hin.
  destruct (decode_emitted res inputSize0 outputShape cfg results c Hdec Hin)
    as (s & st & ft & i & j & _ & Hst & _ & Hi & Hj & Hne & Hsc & idx & id0 & _ & ->).
  exists s, st, i, j. simpl.
  repeat split; try assumption.
  now apply nth_error_nth'.
Qed.

(** ** Sorting by descending key *)

Section SortDesc.
Context {A : Type} (key : A -> Q).

Lemma insert_desc_perm x l : Permutation (insert_desc key x l) (x :: l).
Proof.
  induction l as [|y l IH]; simpl; [apply Permutation_refl|].
  destruct (Qle_bool (key y) (key x)); [apply Permutation_refl|].
  apply Permutation_trans with (y :: x :: l).
  - apply perm_skip, IH.
  - apply perm_swap.
Qed.

Lemma sort_desc_perm l : Permutation (sort_desc key l) l.
Proof.
  induction l as [|x l IH]; simpl; [apply perm_nil|].
  apply Permutation_trans with (x :: sort_desc key l).
  - apply insert_desc_perm.
  - apply perm_skip, IH.
Qed.

Lemma insert_desc_sorted x l :
  StronglySorted (desc key) l -> StronglySorted (desc key) (insert_desc key x l).
Proof.
  induction l as [|y l IH]; intros Hs; simpl.
  - constructor; [constructor | constructor].
  - inversion Hs as [|y' l' Hl Hy]; subst.
    destruct (Qle_bool (key y) (key x)) eqn:E.
    + apply Qle_bool_iff in E. constructor; [exact Hs|].
      constructor; [exact E|].
      rewrite List.Forall_forall in Hy |- *. intros z Hz.
      unfold desc in *. apply Qle_trans with (key y); [now apply Hy | exact E].
    + assert (Hlt : (key x < key y)%Q).
      { apply Qnot_le_lt. intros Hle. apply Qle_bool_iff in Hle. congruence. }
      constructor; [apply IH, Hl|].
      rewrite List.Forall_forall in Hy |- *. intros z Hz.
      apply (Permutation_in _ (insert_desc_perm x l)) in Hz.
      destruct Hz as [<-|Hz]; [now apply Qlt_le_weak | now apply Hy].
Qed.

Lemma sort_desc_sorted l : StronglySorted (desc key) (sort_desc key l).
Proof.
  induction l as [|x l IH]; simpl; [constructor|].
  apply insert_desc_sorted, IH.
Qed.

End SortDesc.

(** ** Pairs of a list *)

Section Pairs.
Context {A : Type} (R : A -> A -> Prop).
Hypothesis R_sym : forall a b, R a b -> R b a.

Lemma ForallOrdPairs_perm l l' :
  Permutation l l' -> ForallOrdPairs R l -> ForallOrdPairs R l'.
Proof.
  induction 1 as [|x l l' Hp IH|x y l|l l' l'' Hp1 IH1 Hp2 IH2]; intros H.
  - exact H.
  - inversion H as [|a l0 Hx Hl]; subst. constructor.
    + rewrite List.Forall_forall in Hx |- *. intros z Hz. apply Hx.
      now apply (Permutation_in _ (Permutation_sym Hp)).
    + now apply IH.
  - inversion H as [|a l0 Hy Hl]; subst.
    inversion Hl as [|b l1 Hx Hl']; subst.
    inversion Hy as [|c l2 Hyx Hyl]; subst.
    constructor; [|constructor; assumption].
    constructor; [now apply R_sym | assumption].
  - now apply IH2, IH1.
Qed.

Lemma ForallOrdPairs_nth_error l : ForallOrdPairs R l ->
  forall p q a b, p <> q ->
    nth_error l p = Some a -> nth_error l q = Some b -> R a b.
Proof.
  induction 1 as [|x l Hx Hl IH]; intros p q a b Hne Hp Hq.
  - destruct p; discriminate.
  - rewrite List.Forall_forall in Hx.
    destruct p as [|p], q as [|q]; simpl in Hp, Hq.
    + congruence.
    + injection Hp as <-. apply Hx. eapply nth_error_In, Hq.
    + injection Hq as <-. apply R_sym, Hx. eapply nth_error_In, Hp.
    + apply (IH p q); [congruence | assumption | assumption].
Qed.

End Pairs.

Lemma ForallOrdPairs_impl_In {A} (P Q : A -> A -> Prop) (l : list A) :
  (forall a b, In a l -> In b l -> P a b -> Q a b) ->
  ForallOrdPairs P l -> ForallOrdPairs Q l.
Proof.
  induction l as [|x l IH]; intros Himp H; [constructor|].
  inversion H as [|a l0 Hx Hl]; subst. constructor.
  - rewrite List.Forall_forall in Hx |- *. intros z Hz.
    apply Himp; [now left | now right | now apply Hx].
  - apply IH; [|exact Hl]. intros a b Ha Hb. apply Himp; now right.
Qed.

Lemma ForallOrdPairs_map {A B} (f : A -> B) (R : B -> B -> Prop) (l : list A) :
  ForallOrdPairs (fun a b => R (f a) (f b)) l -> ForallOrdPairs R (map f l).
Proof.
  induction 1 as [|x l Hx Hl IH]; simpl; constructor; [|exact IH].
  rewrite List.Forall_forall in Hx |- *. intros z Hz.
  apply in_map_iff in Hz. destruct Hz as (a & <- & Ha). now apply Hx.
Qed.

Lemma ForallOrdPairs_filter {A} (R : A -> A -> Prop) (f : A -> bool) (l : list A) :
  ForallOrdPairs R l -> ForallOrdPairs R (List.filter f l).
Proof.
  induction 1 as [|x l Hx Hl IH]; simpl; [constructor|].
  destruct (f x); [|exact IH]. constructor; [|exact IH].
  rewrite List.Forall_forall in Hx |- *. intros z Hz.
  apply filter_In in Hz. now apply Hx.
Qed.

Lemma NoDup_ForallOrdPairs {A} (l : list A) :
  List.NoDup l -> ForallOrdPairs (fun a b => a <> b) l.
Proof.
  induction 1 as [|x l Hx Hl IH]; constructor; [|exact IH].
  apply List.Forall_forall. intros z Hz Heq. subst z. exact (Hx Hz).
Qed.

(** ** The suppressor *)

Section Greedy.
Context {RT : ObjectRuntime}.
Variables (boxes : list (list Q)) (thr : Q).

Let passes (c d : nat) : bool :=
  Qltb (iou (nth d boxes []) (nth c boxes [])) thr.

Lemma greedy_incl k : forall cands c,
  In c (greedy boxes thr k cands) -> In c cands.
Proof.
  induction k as [|k IH]; intros cands c Hin; simpl in Hin; [contradiction|].
  destruct cands as [|c0 rest]; [contradiction|].
  destruct Hin as [<-|Hin]; [now left|].
  right. apply IH, filter_In in Hin. apply Hin.
Qed.

Lemma greedy_length k : forall cands,
  (List.length (greedy boxes thr k cands) <= k)%nat.
Proof.
  induction k as [|k IH]; intros cands; simpl; [lia|].
  destruct cands as [|c0 rest]; simpl; [lia|].
  specialize (IH (List.filter (passes c0) rest)). unfold passes in IH. lia.
Qed.

Lemma greedy_NoDup k : forall cands,
  List.NoDup cands -> List.NoDup (greedy boxes thr k cands).
Proof.
  induction k as [|k IH]; intros cands Hnd; simpl; [constructor|].
  destruct cands as [|c0 rest]; [constructor|].
  inversion Hnd as [|x l Hx Hl]; subst. constructor.
  - intros Hin. apply greedy_incl, filter_In in Hin. apply Hx, Hin.
  - apply IH, List.NoDup_filter, Hl.
Qed.

Lemma greedy_clear k : forall cands,
  ForallOrdPairs (clear_of boxes thr) (greedy boxes thr k cands).
Proof.
  induction k as [|k IH]; intros cands; simpl; [constructor|].
  destruct cands as [|c0 rest]; [constructor|].
  constructor; [|apply IH].
  apply List.Forall_forall. intros d Hd.
  apply greedy_incl, filter_In in Hd. destruct Hd as [_ Hd].
  unfold clear_of. now apply Qltb_lt.
Qed.

End Greedy.

Lemma combine_seq_nth_error {A} (l : list A) : forall start i c,
  In (i, c) (combine (seq start (List.length l)) l) ->
  (start <= i)%nat /\ nth_error l (i - start) = Some c.
Proof.
  induction l as [|x l IH]; intros start i c Hin; simpl in Hin; [contradiction|].
  destruct Hin as [Heq|Hin].
  - injection Heq as <- <-. rewrite Nat.sub_diag. split; [lia | reflexivity].
  - apply IH in Hin. destruct Hin as [Hle Hnth]. split; [lia|].
    replace (i - start)%nat with (S (i - S start)) by lia. exact Hnth.
Qed.

Lemma combine_seq_fst {A} (l : list A) : forall start,
  map fst (combine (seq start (List.length l)) l) = seq start (List.length l).
Proof.
  induction l as [|x l IH]; intros start; simpl; [reflexivity|].
  now rewrite IH.
Qed.

Lemma NoDup_map_filter {A B} (f : A -> B) (g : A -> bool) (l : list A) :
  List.NoDup (map f l) -> List.NoDup (map f (List.filter g l)).
Proof.
  induction l as [|x l IH]; simpl; intros Hnd; [constructor|].
  inversion Hnd as [|y m Hy Hm]; subst.
  destruct (g x); simpl; [|now apply IH].
  constructor; [|now apply IH].
  intros Hin. apply Hy. apply in_map_iff in Hin.
  destruct Hin as (a & Ha & Hin). apply filter_In in Hin.
  apply in_map_iff. exists a. now split.
Qed.

Lemma NoDup_map_pairs {A B} (f : A -> B) (l : list A) :
  List.NoDup (map f l) -> ForallOrdPairs (fun a b => f a <> f b) l.
Proof.
  induction l as [|x l IH]; simpl; intros Hnd; [constructor|].
  inversion Hnd as [|y m Hy Hm]; subst. constructor; [|now apply IH].
  apply List.Forall_forall. intros z Hz Heq. apply Hy. rewrite Heq.
  now apply in_map.
Qed.

Lemma idx_includes_In nmsIdx i : idx_includes nmsIdx i = true <-> In i nmsIdx.
Proof.
  unfold idx_includes. rewrite existsb_exists. split.
  - intros (x & Hx & Heq). apply Nat.eqb_eq in Heq. now subst.
  - intros Hin. exists i. split; [exact Hin | apply Nat.eqb_refl].
Qed.

Section Suppress.
Context {RT : ObjectRuntime}.
Variables (results : list Candidate) (cfg : Config).
Hypothesis iou_sym : forall a b, (iou a b == iou b a)%Q.

Let thr := iouThreshold (object cfg).
Let boxes := map boxRaw results.

(** The indices the suppressor answers with ([nmsIdx] of [process]). *)
Let nmsIdx : list nat :=
  if (0 <? List.length boxes)%nat
  then nonMaxSuppression boxes (map score results) (maxResults (object cfg))
         thr (minConfidence (object cfg))
  else [].

Let kept : list (nat * Candidate) :=
  List.filter (fun p => idx_includes nmsIdx (fst p))
              (combine (seq 0 (List.length results)) results).

Lemma apart_sym a b : apart cfg a b -> apart cfg b a.
Proof. unfold apart. intros H. now rewrite iou_sym. Qed.

Lemma suppress_unfold :
  suppress results cfg = sort_desc score (map snd kept).
Proof. reflexivity. Qed.

Lemma nmsIdx_length : (List.length nmsIdx <= maxResults (object cfg))%nat.
Proof.
  unfold nmsIdx. destruct (0 <? List.length boxes)%nat; simpl; [|lia].
  apply greedy_length.
Qed.

Lemma nmsIdx_clear : ForallOrdPairs (clear_of boxes thr) nmsIdx.
Proof.
  unfold nmsIdx. destruct (0 <? List.length boxes)%nat; [|constructor].
  apply greedy_clear.
Qed.

Lemma kept_box i c : In (i, c) kept -> nth i boxes [] = boxRaw c /\ In i nmsIdx.
Proof.
  unfold kept. intros Hin. apply filter_In in Hin. destruct Hin as [Hin Hidx].
  apply idx_includes_In in Hidx. split; [|exact Hidx].
  apply combine_seq_nth_error in Hin. destruct Hin as [_ Hnth].
  rewrite Nat.sub_0_r in Hnth.
  apply nth_error_nth. unfold boxes. now apply map_nth_error.
Qed.

Lemma kept_length : (List.length kept <= List.length nmsIdx)%nat.
Proof.
  rewrite <- (List.length_map fst kept).
  apply List.NoDup_incl_length.
  - unfold kept. apply NoDup_map_filter. rewrite combine_seq_fst.
    apply List.seq_NoDup.
  - intros i Hi. apply in_map_iff in Hi. destruct Hi as ([j c] & <- & Hin).
    now apply kept_box in Hin.
Qed.

Lemma kept_apart : ForallOrdPairs (apart cfg) (map snd kept).
Proof.
  apply ForallOrdPairs_map.
  apply ForallOrdPairs_impl_In with (P := fun p q => fst p <> fst q).
  - intros [i a] [j b] Ha Hb Hne. simpl in Hne |- *.
    apply kept_box in Ha. apply kept_box in Hb.
    destruct Ha as [Hba Hi], Hb as [Hbb Hj].
    destruct (ForallOrdPairs_In nmsIdx_clear i j Hi Hj) as [Heq|[H|H]].
    + contradiction.
    + unfold clear_of in H. rewrite Hba, Hbb in H. now apply apart_sym.
    + unfold clear_of in H. rewrite Hba, Hbb in H. exact H.
  - unfold kept. apply ForallOrdPairs_filter, NoDup_map_pairs.
    rewrite combine_seq_fst. apply List.seq_NoDup.
Qed.

Lemma suppress_incl c : In c (suppress results cfg) -> In c results.
Proof.
  rewrite suppress_unfold. intros Hin.
  apply (Permutation_in _ (sort_desc_perm score (map snd kept))) in Hin.
  apply in_map_iff in Hin. destruct Hin as ([i a] & <- & Hin).
  unfold kept in Hin. apply filter_In in Hin. destruct Hin as [Hin _].
  now apply in_combine_r in Hin.
Qed.

End Suppress.

(** C3.  Postconditions of the suppressor, for a runtime whose overlap measure
    is symmetric.  Whatever the candidates, the output of [suppress] has at
    most [maxResults] entries, is sorted by descending score, holds no two
    entries whose boxes overlap by [iouThreshold] or more, and consists of
    candidates; on the empty candidate list the output is the empty list. *)
Theorem suppress_postconditions `{ObjectRuntime}
    (results : list Candidate) (cfg : Config) :
  (forall a b, (iou a b == iou b a)%Q) ->
  let out := suppress results cfg in
  (List.length out <= maxResults (object cfg))%nat /\
  StronglySorted (fun a b => (score b <= score a)%Q) out /\
  (forall p q a b, p <> q ->
     nth_error out p = Some a -> nth_error out q = Some b ->
     (iou (boxRaw a) (boxRaw b) < iouThreshold (object cfg))%Q) /\
  incl out results /\
  suppress [] cfg = [].
Proof.
  intros Hsym out. subst out. repeat split.
  - rewrite suppress_unfold.
    rewrite (Permutation_length (sort_desc_perm score _)), List.length_map.
    eapply Nat.le_trans; [apply kept_length | apply nmsIdx_length].
  - rewrite suppress_unfold. apply (sort_desc_sorted score).
  - assert (Hpairs : ForallOrdPairs (apart cfg) (suppress results cfg)).
    { rewrite suppress_unfold.
      apply (ForallOrdPairs_perm (apart cfg) (apart_sym cfg Hsym)
               (map snd _) _ (Permutation_sym (sort_desc_perm score _))).
      apply kept_apart, Hsym. }
    exact (ForallOrdPairs_nth_error (apart cfg) (apart_sym cfg Hsym) _ Hpairs).
  - intros c. apply suppress_incl.
Qed.

(** ** The frame-skip cache of [predict] *)

Section FrameSkip.
Context {RT : ObjectRuntime}.

Lemma predict_no_model w image cfg :
  model (nanodet_vars w) = None ->
  nanodet.predict image cfg w = (Resolved Null, w).
Proof.
  intros Hm. unfold nanodet.predict, bind, get. now rewrite Hm.
Qed.

Lemma predict_cached w m image cfg :
  model (nanodet_vars w) = Some m ->
  skip_test (nanodet_vars w) cfg = true ->
  nanodet.predict image cfg w
  = (Resolved (Value (last (nanodet_vars w))),
     with_nanodet {| model := Some m; last := last (nanodet_vars w);
                     skipped := incr (skipped (nanodet_vars w)) |} w).
Proof.
  intros Hm Ht. unfold skip_test in Ht.
  unfold nanodet.predict, bind, get. rewrite Hm, Ht.
  unfold nanodet.set_skipped, modify, ret. simpl. now rewrite Hm.
Qed.

Lemma predict_decodes w m image cfg :
  model (nanodet_vars w) = Some m ->
  skip_test (nanodet_vars w) cfg = false ->
  object_enabled (object cfg) = true ->
  let reset := if videoOptimized cfg then 0%Z else MAX_SAFE_INTEGER in
  let tr := (trace w ++ [EvInvoke "nanodet"])%list in
  nanodet.predict image cfg w
  = match decoded m image cfg with
    | Some obj =>
        (Resolved (Value obj),
         with_nanodet {| model := Some m; last := obj; skipped := reset |}
                      (with_trace tr w))
    | None =>
        (Pending,
         with_nanodet {| model := Some m; last := last (nanodet_vars w);
                         skipped := reset |}
                      (with_trace tr w))
    end.
Proof.
  intros Hm Ht Hen. unfold skip_test in Ht. unfold decoded.
  unfold nanodet.predict, bind, get. rewrite Hm, Ht, Hen.
  unfold nanodet.set_skipped, nanodet.set_last, emit, modify, ret. simpl.
  rewrite Hm.
  destruct (profile cfg); simpl;
    destruct (decode (executeAsync m image) (inputSize m)
                (width image, height image) cfg); reflexivity.
Qed.

Lemma incr_exact n : (- 2 ^ 53 <= n < 2 ^ 53)%Z -> incr n = (n + 1)%Z.
Proof.
  intros [Hlo Hhi]. unfold incr.
  apply Z.leb_le in Hlo. apply Z.ltb_lt in Hhi. now rewrite Hlo, Hhi.
Qed.



End FrameSkip.


(** ** Reasoning about [M] computations *)

Lemma preserves_ret {A} (I : World -> Prop) (a : A) : preserves I (ret a).
Proof. intros w H. exact H. Qed.

Lemma preserves_get (I : World -> Prop) : preserves I get.
Proof. intros w H. exact H. Qed.

Lemma preserves_bind {A B} (I : World -> Prop) (m : M A) (k : A -> M B) :
  preserves I m -> (forall a, preserves I (k a)) -> preserves I (bind m k).
Proof.
  intros Hm Hk w H. unfold bind.
  specialize (Hm w H). destruct (m w) as [a w1]. simpl in Hm.
  exact (Hk a w1 Hm).
Qed.

Lemma preserves_modify (I : World -> Prop) (f : World -> World) :
  (forall w, I w -> I (f w)) -> preserves I (modify f).
Proof. intros Hf w H. exact (Hf w H). Qed.

Lemma preserves_now `{Collaborators} (I : World -> Prop) :
  (forall w t, I w -> I (with_ticks t w)) -> preserves I now.
Proof. intros Hf w H1. exact (Hf w _ H1). Qed.

Ltac head_of t :=
  lazymatch t with
  | ?f _ => head_of f
  | _ => t
  end.

(** Walks through a computation, leaving one goal [forall w, I w -> I (f w)]
    for each state update [modify f] on the way; [fin] closes those. *)
Ltac preserve_with fin :=
  lazymatch goal with
  | |- preserves _ (bind _ _) =>
      apply preserves_bind; [preserve_with fin | intro; preserve_with fin]
  | |- preserves _ (ret _) => apply preserves_ret
  | |- preserves _ get => apply preserves_get
  | |- preserves _ now => apply preserves_now; fin
  | |- preserves _ (modify _) => apply preserves_modify; fin
  | |- preserves _ (if ?b then _ else _) => destruct b; preserve_with fin
  | |- preserves _ (match ?x with _ => _ end) => destruct x; preserve_with fin
  | |- preserves _ (let _ := _ in _) => cbv zeta; preserve_with fin
  | |- preserves _ ?m =>
      let h := head_of m in unfold h; preserve_with fin
  end.

(** Forward execution of a bind. *)
Lemma bind_inv {A B} (m : M A) (k : A -> M B) (w : World) (r : B * World) :
  bind m k w = r -> exists a w1, m w = (a, w1) /\ k a w1 = r.
Proof.
  unfold bind. destruct (m w) as [a w1]. intros E. now exists a, w1.
Qed.

Lemma preserves_run {A} (I : World -> Prop) (m : M A) (w : World) (a : A) (w' : World) :
  preserves I m -> m w = (a, w') -> I w -> I w'.
Proof. intros Hm E H. specialize (Hm w H). now rewrite E in Hm. Qed.

(** ** [detect] on an absent input *)

Section NullInput.
Context {RT : ObjectRuntime} {CO : Collaborators}.







End NullInput.


(** ** The [videoOptimized] flag across [detect] and [warmup] *)

Section WarmupFlag.
Context {RT : ObjectRuntime} {CO : Collaborators}.

Ltac flag_core Hvo evs Htr Hall :=
  split;
  [ first [ assumption | rewrite Hvo; assumption ]
  | first
      [ exists evs; split; assumption
      | eexists (evs ++ [_])%list; split;
        [ rewrite Htr; symmetry; apply app_assoc
        | apply List.Forall_app; split;
          [ assumption
          | constructor; [simpl; first [exact I | assumption] | constructor] ] ] ] ].

Ltac flag_update :=
  unfold flag_inv; intros; simpl;
  match goal with
  | H : _ /\ _ |- _ =>
      let Hvo := fresh "Hvo" in let evs := fresh "evs" in
      let Htr := fresh "Htr" in let Hall := fresh "Hall" in
      destruct H as [Hvo (evs & Htr & Hall)];
      first
        [ solve [flag_core Hvo evs Htr Hall]
        | repeat match goal with
                 | |- context [match ?x with _ => _ end] => destruct x
                 end;
          simpl; flag_core Hvo evs Htr Hall ]
  end.

Lemma detect_keeps_flag b tr0 input u :
  pick (o_videoOptimized u) b = b ->
  preserves (flag_inv b tr0) (detect input u).
Proof. intros Hu. preserve_with flag_update. Qed.

(** A detection started with the current configuration as its overrides
    keeps the flag. *)
Lemma detect_self_keeps_flag tr0 input w p w' :
  flag_inv false tr0 w ->
  detect input (as_overrides (config (this w))) w = (p, w') ->
  flag_inv false tr0 w'.
Proof.
  intros HI E.
  eapply preserves_run; [|exact E|exact HI].
  apply detect_keeps_flag. simpl. exact (proj1 HI).
Qed.

Ltac run_get E :=
  let E1 := fresh "E" in
  apply bind_inv in E; destruct E as (? & ? & E1 & E);
  unfold get in E1; injection E1 as <- <-; cbv zeta in E.

Ltac run_detect HI E :=
  let E1 := fresh "E" in
  apply bind_inv in E; destruct E as (? & ? & E1 & E);
  apply (detect_self_keeps_flag _ _ _ _ _ HI) in E1;
  unfold ret in E; injection E as _ <-; exact E1.

Lemma warmupBitmap_keeps_flag tr0 : preserves (flag_inv false tr0) warmupBitmap.
Proof.
  intros w HI. destruct (warmupBitmap w) as [p w'] eqn:E. simpl.
  unfold warmupBitmap in E. run_get E.
  destruct (warmup_mode (config (this w)) =? "face")%string;
    [run_detect HI E|].
  destruct (warmup_mode (config (this w)) =? "full")%string;
    [run_detect HI E|].
  unfold ret in E. injection E as _ <-. exact HI.
Qed.

Lemma warmupCanvas_keeps_flag tr0 : preserves (flag_inv false tr0) warmupCanvas.
Proof.
  intros w HI. destruct (warmupCanvas w) as [p w'] eqn:E. simpl.
  unfold warmupCanvas in E. run_get E.
  destruct (warmup_mode (config (this w)) =? "face")%string;
    [run_detect HI E|].
  destruct ((warmup_mode (config (this w)) =? "full")%string
            || (warmup_mode (config (this w)) =? "body")%string);
    [run_detect HI E|].
  unfold ret in E. injection E as _ <-. exact HI.
Qed.

Lemma warmupNode_keeps_flag tr0 : preserves (flag_inv false tr0) warmupNode.
Proof.
  intros w HI. destruct (warmupNode w) as [p w'] eqn:E. simpl.
  unfold warmupNode in E. run_get E. run_detect HI E.
Qed.

Lemma warmup_outcome (w : World) (u : Overrides) p w' :
  warmup u w = (p, w') ->
  (exists evs, trace w' = (trace w ++ evs)%list /\
               List.Forall (detect_under false) evs) /\
  videoOptimized (config (this w'))
  = match p with
    | Resolved _ => videoOptimized (mergeDeep (config (this w)) u)
    | Pending => false
    end.
Proof.
  intros E. unfold warmup in E.
  apply bind_inv in E. destruct E as (t0 & w1 & E1 & E).
  unfold now in E1. injection E1 as _ <-.
  apply bind_inv in E. destruct E as (? & w2 & E2 & E).
  unfold modify_this, modify in E2. injection E2 as _ <-.
  run_get E.
  apply bind_inv in E. destruct E as (? & w3 & E3 & E).
  unfold modify_this, modify in E3. injection E3 as _ <-.
  simpl in E.
  apply bind_inv in E. destruct E as (q & w4 & E4 & E).
  match type of E4 with
  | _ ?w0 = _ => assert (H3 : flag_inv false (trace w) w0)
  end.
  { split; [reflexivity|]. exists []. split; [|constructor].
    simpl. now rewrite app_nil_r. }
  assert (H4 : flag_inv false (trace w) w4).
  { destruct (has_createImageBitmap w);
      [exact (preserves_run _ _ _ _ _ (warmupBitmap_keeps_flag _) E4 H3)|].
    destruct (has_Image w);
      [exact (preserves_run _ _ _ _ _ (warmupCanvas_keeps_flag _) E4 H3)|].
    exact (preserves_run _ _ _ _ _ (warmupNode_keeps_flag _) E4 H3). }
  destruct q as [res'|].
  - apply bind_inv in E. destruct E as (? & w5 & E5 & E).
    unfold modify_this, modify in E5. injection E5 as _ <-.
    apply bind_inv in E. destruct E as (t1 & w6 & E6 & E).
    unfold now in E6. injection E6 as _ <-.
    unfold ret in E. injection E as <- <-.
    destruct H4 as [_ Hev]. split; [exact Hev | reflexivity].
  - unfold ret in E. injection E as <- <-.
    destruct H4 as [Hflag Hev]. split; [exact Hev | exact Hflag].
Qed.

End WarmupFlag.

(** C9.  When [warmup] returns, the [videoOptimized] flag of the
    configuration is the value it had once the overrides of the call were
    merged (the saved value), so it is the value from before the call when the
    overrides do not set it.  Every detection entered during the call runs
    with [videoOptimized = false].  When the warm-up detection never settles,
    [warmup] never returns and the flag stays [false].  This holds for every
    configuration, platform and warm-up mode. *)
Theorem warmup_restores_videoOptimized `{ObjectRuntime} `{Collaborators}
    (w : World) (u : Overrides) :
  let w' := snd (warmup u w) in
  (exists evs, trace w' = (trace w ++ evs)%list /\
               List.Forall (detect_under false) evs) /\
  match fst (warmup u w) with
  | Resolved _ =>
      videoOptimized (config (this w'))
      = videoOptimized (mergeDeep (config (this w)) u) /\
      (o_videoOptimized u = None ->
       videoOptimized (config (this w')) = videoOptimized (config (this w)))
  | Pending => videoOptimized (config (this w')) = false
  end.
Proof.
  intros w'. subst w'. destruct (warmup u w) as [p w'] eqn:Ew. cbn [fst snd].
  destruct (warmup_outcome w u p w' Ew) as [Hevs Hflag].
  split; [exact Hevs|].
  destruct p as [res|]; [|exact Hflag].
  split; [exact Hflag|].
  intros Hu. rewrite Hflag. simpl. now rewrite Hu.
Qed.

(** ** What [load] does to the state *)

Section LoadSpec.
Context {RT : ObjectRuntime} {CO : Collaborators}.

Lemma fill_lookup_ne b k k' m (M : gmap string Handle) :
  k <> k' -> fill b k m M !! k' = M !! k'.
Proof. intros Hne. unfold fill. destruct b; [|reflexivity]. now apply lookup_insert_ne. Qed.

Lemma fill_lookup_eq b k m (M : gmap string Handle) :
  fill b k m M !! k = if b then Some m else M !! k.
Proof. unfold fill. destruct b; [|reflexivity]. apply lookup_insert_eq. Qed.

Lemma setm_lookup_ne k k' v (M : gmap string Handle) :
  k <> k' -> setm k v M !! k' = M !! k'.
Proof.
  intros Hne. unfold setm. destruct v.
  - now apply lookup_insert_ne.
  - now apply lookup_delete_ne.
Qed.

Lemma setm_lookup_eq k v (M : gmap string Handle) : setm k v M !! k = v.
Proof.
  unfold setm. destruct v; [apply lookup_insert_eq | apply lookup_delete_eq].
Qed.

Lemma due_fill_ne b k k' m M cond :
  k <> k' -> due (fill b k m M) k' cond = due M k' cond.
Proof. intros Hne. unfold due. now rewrite fill_lookup_ne. Qed.

Lemma sibling_runs name c' : runs_as (Sibling name) c' (sibling_load name c').
Proof.
  intros c M nv bz tr w (Hc & HM & Hnv & Hbz & Htr). split; [reflexivity|].
  unfold at_state. simpl. rewrite Htr. repeat split; auto.
Qed.

Lemma nanodet_runs c' : runs_as Nanodet c' (nanodet.load c').
Proof.
  intros c M nv bz tr w (Hc & HM & Hnv & Hbz & Htr).
  unfold nanodet.load, bind, get, at_state. simpl. rewrite Hnv.
  destruct (model nv) as [m|] eqn:Em; simpl.
  - rewrite app_nil_r. repeat split; auto.
  - rewrite Hnv, Htr. repeat split; auto.
Qed.

Lemma blazepose_runs c' : runs_as Blazepose c' (blazepose.load c').
Proof.
  intros c M nv bz tr w (Hc & HM & Hnv & Hbz & Htr).
  unfold blazepose.load, bind, get, at_state. simpl. rewrite Hbz.
  destruct bz as [m|]; simpl.
  - rewrite app_nil_r. repeat split; auto.
  - rewrite Htr. repeat split; auto.
Qed.

Lemma load_if_at ld c' loader cond k c M nv bz tr w w' :
  runs_as ld c' loader ->
  at_state c M nv bz tr w ->
  load_if cond k loader w = (tt, w') ->
  at_state c (fill (due M k cond) k (handle_of c' nv bz ld) M)
           (if due M k cond then after_nv c' nv ld else nv)
           (if due M k cond then after_bz c' bz ld else bz)
           (tr ++ if due M k cond then events_of c' nv bz ld else [])
           w'.
Proof.
  intros Hld Hat E. unfold load_if, bind, get in E.
  pose proof Hat as (Hc & HM & Hnv & Hbz & Htr).
  rewrite HM in E. fold (due M k cond) in E.
  destruct (due M k cond).
  - destruct (Hld _ _ _ _ _ _ Hat) as [Hh (Hc' & HM' & Hnv' & Hbz' & Htr')].
    destruct (loader w) as [h w1]. simpl in *. subst h.
    unfold set_model, modify_this, modify in E. injection E as <-.
    unfold at_state, fill. simpl. rewrite HM'. repeat split; auto.
  - unfold ret in E. injection E as <-. unfold fill. rewrite app_nil_r. exact Hat.
Qed.

Lemma keep_or_at ld c' loader cond k c M nv bz tr w v w' :
  runs_as ld c' loader ->
  at_state c M nv bz tr w ->
  keep_or k cond loader w = (v, w') ->
  v = match M !! k with
      | Some m => Some m
      | None => if cond then Some (handle_of c' nv bz ld) else None
      end /\
  at_state c M
           (if due M k cond then after_nv c' nv ld else nv)
           (if due M k cond then after_bz c' bz ld else bz)
           (tr ++ if due M k cond then events_of c' nv bz ld else [])
           w'.
Proof.
  intros Hld Hat E. unfold keep_or, bind, get in E.
  pose proof Hat as (Hc & HM & Hnv & Hbz & Htr).
  rewrite HM in E. unfold due.
  destruct (M !! k) as [m|] eqn:Ek.
  - unfold ret in E. injection E as <- <-.
    rewrite bool_decide_eq_true_2 by eauto. rewrite andb_false_r, app_nil_r. repeat split; auto.
  - rewrite bool_decide_eq_false_2 by (intros [? ?]; discriminate).
    rewrite andb_true_r. destruct cond.
    + destruct (Hld _ _ _ _ _ _ Hat) as [Hh Hat'].
      destruct (loader w) as [h w1]. simpl in *. subst h.
      unfold ret in E. injection E as <- <-. auto.
    + unfold ret in E. injection E as <- <-. rewrite app_nil_r. auto.
Qed.

Lemma set_model_at k v c M nv bz tr w w' :
  at_state c M nv bz tr w ->
  set_model k v w = (tt, w') ->
  at_state c (setm k v M) nv bz tr w'.
Proof.
  intros (Hc & HM & Hnv & Hbz & Htr) E.
  unfold set_model, modify_this, modify in E. injection E as <-.
  unfold at_state, setm. simpl. rewrite HM. repeat split; auto.
Qed.

Lemma if_same {A} (b : bool) (x : A) : (if b then x else x) = x.
Proof. now destruct b. Qed.

Lemma lookup_one (M : gmap string Handle) k cond h :
  (if due M k cond then Some h else M !! k)
  = match M !! k with
    | Some m => Some m
    | None => match (cond, h) with
              | (true, h) => Some h
              | _ => None
              end
    end.
Proof.
  unfold due. destruct (M !! k) as [m|] eqn:E.
  - rewrite bool_decide_eq_true_2 by eauto. now rewrite andb_false_r.
  - rewrite bool_decide_eq_false_2 by (intros [? ?]; discriminate).
    rewrite andb_true_r. now destruct cond.
Qed.

Ltac sync_step E Hat lem :=
  let E1 := fresh "E" in let w1 := fresh "w" in let H1 := fresh "Hat" in
  apply bind_inv in E; destruct E as ([] & w1 & E1 & E);
  pose proof (load_if_at _ _ _ _ _ _ _ _ _ _ _ _ lem Hat E1) as H1;
  clear E1 Hat; rename H1 into Hat;
  cbn [after_nv after_bz events_of handle_of] in Hat;
  rewrite ?if_same in Hat;
  rewrite ?due_fill_ne in Hat by discriminate.

Lemma load_sync_at c M nv bz tr w w' :
  at_state c M nv bz tr w ->
  load_sync c w = (tt, w') ->
  exists M',
    at_state c M' (loaded_nanodet c M nv) (loaded_blazepose c M bz)
             (tr ++ load_events c M nv bz (plan c)) w' /\
    forall k, M' !! k = loaded_lookup c M nv bz k.
Proof.
  intros Hat E. unfold load_sync in E. cbv zeta in E.
  sync_step E Hat (sibling_runs "facemesh" c).
  sync_step E Hat (sibling_runs "age" c).
  sync_step E Hat (sibling_runs "gender" c).
  sync_step E Hat (sibling_runs "emotion" c).
  sync_step E Hat (sibling_runs "embedding" c).
  sync_step E Hat (sibling_runs "handpose" c).
  sync_step E Hat (sibling_runs "posenet" c).
  sync_step E Hat (blazepose_runs c).
  sync_step E Hat (sibling_runs "efficientpose" c).
  sync_step E Hat (nanodet_runs c).
  pose proof (load_if_at _ _ _ _ _ _ _ _ _ _ _ _ (sibling_runs "faceres" c) Hat E) as H1.
  clear E Hat.
  cbn [after_nv after_bz events_of handle_of] in H1.
  rewrite ?if_same in H1. rewrite ?due_fill_ne in H1 by discriminate.
  eexists. split.
  - unfold load_events, plan, loaded_nanodet, loaded_blazepose.
    cbn [flat_map fst snd events_of].
    rewrite app_nil_r, !app_assoc. exact H1.
  - intros k. unfold loaded_lookup.
    repeat lazymatch goal with
           | |- fill _ ?k' _ _ !! k = _ =>
               destruct (decide (k' = k)) as [<-|?];
               [ rewrite fill_lookup_eq, ?fill_lookup_ne by discriminate;
                 simpl (assoc _ _); apply lookup_one
               | rewrite fill_lookup_ne by assumption ]
           end.
    destruct (M !! k); [reflexivity|].
    unfold plan. cbv zeta. cbn [assoc].
    repeat (rewrite (proj2 (String.eqb_neq _ _)) by assumption).
    reflexivity.
Qed.

Ltac async_step E Hat lem v :=
  let E1 := fresh "E" in let w1 := fresh "w" in let H1 := fresh "Hat" in
  let Hv := fresh "Hv" in
  apply bind_inv in E; destruct E as (v & w1 & E1 & E);
  destruct (keep_or_at _ _ _ _ _ _ _ _ _ _ _ _ _ lem Hat E1) as [Hv H1];
  clear E1 Hat; rename H1 into Hat;
  cbn [after_nv after_bz events_of handle_of] in Hat, Hv;
  rewrite ?if_same in Hat.

Ltac assign_step E Hat :=
  let E1 := fresh "E" in let w1 := fresh "w" in let H1 := fresh "Hat" in
  apply bind_inv in E; destruct E as ([] & w1 & E1 & E);
  pose proof (set_model_at _ _ _ _ _ _ _ _ _ Hat E1) as H1;
  clear E1 Hat; rename H1 into Hat.

Lemma load_async_at c M nv bz tr w w' :
  at_state c M nv bz tr w ->
  load_async c w = (tt, w') ->
  exists M',
    at_state c M' (loaded_nanodet c M nv) (loaded_blazepose c M bz)
             (tr ++ load_events c M nv bz (plan c)) w' /\
    forall k, M' !! k = loaded_lookup c M nv bz k.
Proof.
  intros Hat E. unfold load_async in E. cbv zeta in E.
  async_step E Hat (sibling_runs "facemesh" c) v1.
  async_step E Hat (sibling_runs "age" c) v2.
  async_step E Hat (sibling_runs "gender" c) v3.
  async_step E Hat (sibling_runs "emotion" c) v4.
  async_step E Hat (sibling_runs "embedding" c) v5.
  async_step E Hat (sibling_runs "handpose" c) v6.
  async_step E Hat (sibling_runs "posenet" c) v7.
  async_step E Hat (blazepose_runs c) v8.
  async_step E Hat (sibling_runs "efficientpose" c) v9.
  async_step E Hat (nanodet_runs c) v10.
  async_step E Hat (sibling_runs "faceres" c) v11.
  do 10 assign_step E Hat.
  pose proof (set_model_at _ _ _ _ _ _ _ _ _ Hat E) as H1. clear E Hat.
  eexists. split.
  - unfold load_events, plan, loaded_nanodet, loaded_blazepose.
    cbn [flat_map fst snd events_of].
    rewrite app_nil_r, !app_assoc. exact H1.
  - intros k. unfold loaded_lookup.
    repeat lazymatch goal with
           | |- setm ?k' _ _ !! k = _ =>
               destruct (decide (k' = k)) as [<-|?];
               [ rewrite setm_lookup_eq; subst; simpl (assoc _ _);
                 destruct (M !! _); reflexivity
               | rewrite setm_lookup_ne by assumption ]
           end.
    destruct (M !! k); [reflexivity|].
    unfold plan. cbv zeta. cbn [assoc].
    repeat (rewrite (proj2 (String.eqb_neq _ _)) by assumption).
    reflexivity.
Qed.

End LoadSpec.


Section LoadWhole.
Context {RT : ObjectRuntime} {CO : Collaborators}.




Lemma set_backend_id c : set_backend (backend c) c = c.
Proof. now destruct c. Qed.




End LoadWhole.

Section Idempotent.
Context {RT : ObjectRuntime} {CO : Collaborators}.







End Idempotent.

Section Idempotent2.
Context {RT : ObjectRuntime} {CO : Collaborators}.




End Idempotent2.

Section FreshLoad.
Context {RT : ObjectRuntime} {CO : Collaborators}.





End FreshLoad.


(** ** Sequential and concurrent mode *)

Section Modes.
Context {RT : ObjectRuntime} {CO : Collaborators}.

Lemma same_view_refl w : same_view w w.
Proof. repeat split. Qed.

Lemma same_view_sym w1 w2 : same_view w1 w2 -> same_view w2 w1.
Proof. unfold same_view. intuition congruence. Qed.

Lemma same_view_trans w1 w2 w3 :
  same_view w1 w2 -> same_view w2 w3 -> same_view w1 w3.
Proof. unfold same_view. intuition congruence. Qed.

Lemma rel_bind {A1 A2 B1 B2} (RA : A1 -> A2 -> Prop) (RB : B1 -> B2 -> Prop)
    (m1 : M A1) (m2 : M A2) (k1 : A1 -> M B1) (k2 : A2 -> M B2) :
  rel RA m1 m2 ->
  (forall a1 a2, RA a1 a2 -> rel RB (k1 a1) (k2 a2)) ->
  rel RB (bind m1 k1) (bind m2 k2).
Proof.
  intros Hm Hk w1 w2 Hs. unfold bind.
  destruct (Hm w1 w2 Hs) as [Ha Hs'].
  destruct (m1 w1) as [a1 w1'], (m2 w2) as [a2 w2']. simpl in *.
  exact (Hk a1 a2 Ha w1' w2' Hs').
Qed.

Lemma rel_ret {A B} (RA : A -> B -> Prop) a b : RA a b -> rel RA (ret a) (ret b).
Proof. intros H w1 w2 Hs. split; assumption. Qed.

Lemma rel_get : rel same_view get get.
Proof. intros w1 w2 Hs. split; assumption. Qed.

Lemma rel_keeps {A B} (m1 : M A) (m2 : M B) :
  keeps m1 -> keeps m2 -> rel (fun _ _ => True) m1 m2.
Proof.
  intros H1 H2 w1 w2 Hs. split; [exact I|].
  apply same_view_trans with w1; [apply H1|].
  apply same_view_trans with w2; [exact Hs|]. apply same_view_sym, H2.
Qed.

Lemma keeps_of_preserves {A} (m : M A) :
  (forall w0, preserves (fun w => same_view w w0) m) -> keeps m.
Proof. intros H w. apply (H w w), same_view_refl. Qed.

Lemma keeps_left {A B C} (RB : B -> C -> Prop) (m : M A) (k : A -> M B) (m2 : M C) :
  keeps m -> (forall a, rel RB (k a) m2) -> rel RB (bind m k) m2.
Proof.
  intros Hm Hk w1 w2 Hs. unfold bind.
  pose proof (Hm w1) as H1. destruct (m w1) as [a w1']. simpl in H1.
  apply Hk. apply same_view_trans with w1; assumption.
Qed.

Lemma keeps_right {A B C} (RB : C -> B -> Prop) (m : M A) (k : A -> M B) (m1 : M C) :
  keeps m -> (forall a, rel RB m1 (k a)) -> rel RB m1 (bind m k).
Proof.
  intros Hm Hk w1 w2 Hs. unfold bind.
  pose proof (Hm w2) as H2. destruct (m w2) as [a w2']. simpl in H2.
  apply Hk. apply same_view_trans with w2; [assumption|].
  now apply same_view_sym.
Qed.

Ltac view_update :=
  unfold same_view; intros; simpl;
  repeat match goal with
         | |- context [match ?x with _ => _ end] => destruct x
         end;
  simpl; assumption.

Ltac keeps_tac := apply keeps_of_preserves; intro; preserve_with view_update.

Lemma keeps_set_state s : keeps (set_state s).
Proof. keeps_tac. Qed.
Lemma keeps_now : keeps now.
Proof. keeps_tac. Qed.
Lemma keeps_analyze : keeps analyze.
Proof. keeps_tac. Qed.
Lemma keeps_perf_set k v : keeps (perf_set k v).
Proof. keeps_tac. Qed.
Lemma keeps_perf_delete k : keeps (perf_delete_if_truthy k).
Proof. keeps_tac. Qed.
Lemma keeps_emit e : keeps (emit e).
Proof. keeps_tac. Qed.
Lemma keeps_run_face t : keeps (run_face t).
Proof. keeps_tac. Qed.
Lemma keeps_run_body t : keeps (run_body t).
Proof. keeps_tac. Qed.
Lemma keeps_run_hand t : keeps (run_hand t).
Proof. keeps_tac. Qed.

Lemma view_fields c1 c2 :
  set_async true c1 = set_async true c2 ->
  backend c1 = backend c2 /\ wasmPath c1 = wasmPath c2 /\ debug c1 = debug c2 /\
  profile c1 = profile c2 /\ deallocate c1 = deallocate c2 /\
  scoped c1 = scoped c2 /\ videoOptimized c1 = videoOptimized c2 /\
  warmup_mode c1 = warmup_mode c2 /\ face c1 = face c2 /\ body c1 = body c2 /\
  hand_enabled c1 = hand_enabled c2 /\ object c1 = object c2 /\
  gesture_enabled c1 = gesture_enabled c2.
Proof.
  unfold set_async. intros H. injection H. intros. repeat split; assumption.
Qed.

Ltac view_facts Hs :=
  let H1 := fresh "Hnv" in let H2 := fresh "Hcfg" in let H3 := fresh "Hcs" in
  let H4 := fresh "Hfr" in let H5 := fresh "Hmd" in let H6 := fresh "Htf" in
  let H7 := fresh "Hnode" in let H8 := fresh "Hbr" in
  let H9 := fresh "Hbz" in let H10 := fresh "Hmb" in
  destruct Hs as (H1 & H2 & H3 & H4 & H5 & H6 & H7 & H8 & H9 & H10);
  let F := fresh "F" in
  pose proof (view_fields _ _ H2) as F;
  destruct F as (Hbk & Hwp & Hdbg & Hprof & Hdea & Hsc & Hvo & Hwm & Hface
                 & Hbody & Hhand & Hobj & Hgest).

Lemma sanity_rel input : rel eq (sanity input) (sanity input).
Proof.
  intros w1 w2 Hs. pose proof Hs as Hs'. view_facts Hs'.
  unfold sanity, bind, get, ret. simpl.
  rewrite Hcs, Hnode.
  destruct (negb (checkSanity (this w2))); simpl; [split; [reflexivity|exact Hs]|].
  destruct input as [i|]; simpl; [|split; [reflexivity|exact Hs]].
  destruct (IS_NODE w2 && negb (is_tensor i)); simpl; split;
    solve [reflexivity | exact Hs].
Qed.

Lemma checkBackend_rel force :
  rel (fun _ _ => True) (checkBackend force) (checkBackend force).
Proof.
  intros w1 w2 Hs. split; [exact I|]. view_facts Hs.
  unfold checkBackend, bind, get, now, set_state, when, set_config_backend,
    emit, perf_set, modify_this, modify, ret.
  simpl.
  repeat match goal with
         | H : ?f (config (this w1)) = _ |- _ => rewrite H
         end.
  rewrite Htf, Hnode, Hbr.
  repeat (match goal with
          | |- context [if ?b then _ else _] => destruct b eqn:?
          end; simpl);
    unfold same_view; simpl; repeat split;
    first [congruence | unfold set_async, set_backend; simpl; congruence].
Qed.

Lemma merge_none c : mergeDeep c no_overrides = c.
Proof. destruct c as [? ? ? ? ? ? ? ? ? [] [] ? [] ?]. reflexivity. Qed.

Ltac partial_update :=
  intros; simpl;
  repeat match goal with
         | |- context [match ?x with _ => _ end] => destruct x
         end;
  simpl; assumption.

Lemma load_sync_rest w0 c : preserves (rest_of_view w0) (load_sync c).
Proof. unfold rest_of_view. preserve_with partial_update. Qed.

Lemma load_async_rest w0 c : preserves (rest_of_view w0) (load_async c).
Proof. unfold rest_of_view. preserve_with partial_update. Qed.

(** Either branch of [load], seen through the view. *)
Lemma load_branch_view w w' :
  (if async (config (this w)) then load_async (config (this w))
   else load_sync (config (this w))) w = (tt, w') ->
  rest_of_view w w' /\
  nanodet_vars w'
  = loaded_nanodet (config (this w)) (models (this w)) (nanodet_vars w) /\
  blazepose_model w'
  = loaded_blazepose (config (this w)) (models (this w)) (blazepose_model w) /\
  forall k, models (this w') !! k
            = loaded_lookup (config (this w)) (models (this w)) (nanodet_vars w)
                            (blazepose_model w) k.
Proof.
  intros E.
  assert (Hat : at_state (config (this w)) (models (this w)) (nanodet_vars w)
                         (blazepose_model w) (trace w) w) by (repeat split).
  assert (Hr : rest_of_view w w) by (repeat split).
  destruct (async (config (this w))).
  - destruct (load_async_at _ _ _ _ _ _ _ Hat E)
      as (M' & (_ & HM & Hnv & Hbz & _) & Hlk).
    split; [exact (preserves_run _ _ _ _ _ (load_async_rest w _) E Hr)|].
    split; [exact Hnv|]. split; [exact Hbz|]. rewrite HM. exact Hlk.
  - destruct (load_sync_at _ _ _ _ _ _ _ Hat E)
      as (M' & (_ & HM & Hnv & Hbz & _) & Hlk).
    split; [exact (preserves_run _ _ _ _ _ (load_sync_rest w _) E Hr)|].
    split; [exact Hnv|]. split; [exact Hbz|]. rewrite HM. exact Hlk.
Qed.

Lemma rel_at_get {B1 B2} V w1 w2 (RB : B1 -> B2 -> Prop)
    (k1 : World -> M B1) (k2 : World -> M B2) :
  ends_at V w1 w2 RB (k1 w1) (k2 w2) ->
  ends_at V w1 w2 RB (bind get k1) (bind get k2).
Proof. intros H. exact H. Qed.

Lemma rel_at_bind {A1 A2 B1 B2} V w1 w2 (RA : A1 -> A2 -> Prop)
    (RB : B1 -> B2 -> Prop) (m1 : M A1) (m2 : M A2)
    (k1 : A1 -> M B1) (k2 : A2 -> M B2) :
  ends_at same_view w1 w2 RA m1 m2 ->
  (forall a1 a2 w1' w2', RA a1 a2 -> same_view w1' w2' ->
     ends_at V w1' w2' RB (k1 a1) (k2 a2)) ->
  ends_at V w1 w2 RB (bind m1 k1) (bind m2 k2).
Proof.
  unfold ends_at, bind. intros [Ha Hs] Hk.
  destruct (m1 w1) as [a1 w1'], (m2 w2) as [a2 w2']. simpl in *.
  exact (Hk a1 a2 w1' w2' Ha Hs).
Qed.

Lemma rel_at_keeps {A1 A2 B1 B2} V w1 w2 (RB : B1 -> B2 -> Prop)
    (m1 : M A1) (m2 : M A2) (k1 : A1 -> M B1) (k2 : A2 -> M B2) :
  keeps m1 -> keeps m2 -> same_view w1 w2 ->
  (forall a1 a2 w1' w2', same_view w1' w2' ->
     ends_at V w1' w2' RB (k1 a1) (k2 a2)) ->
  ends_at V w1 w2 RB (bind m1 k1) (bind m2 k2).
Proof.
  intros H1 H2 Hs Hk.
  apply rel_at_bind with (RA := fun _ _ => True); [|intros; now apply Hk].
  exact (rel_keeps m1 m2 H1 H2 w1 w2 Hs).
Qed.

(** A step on the left only. *)
Lemma rel_at_keeps_l {A1 B1 B2} V w1 w2 (RB : B1 -> B2 -> Prop)
    (m1 : M A1) (k1 : A1 -> M B1) (m2 : M B2) :
  keeps m1 -> same_view w1 w2 ->
  (forall a1 w1', same_view w1' w2 -> ends_at V w1' w2 RB (k1 a1) m2) ->
  ends_at V w1 w2 RB (bind m1 k1) m2.
Proof.
  intros H1 Hs Hk. unfold ends_at, bind.
  pose proof (H1 w1) as Hv. destruct (m1 w1) as [a1 w1']. simpl in Hv.
  apply Hk. now apply same_view_trans with w1.
Qed.

Lemma rel_at_keeps_r {A2 B1 B2} V w1 w2 (RB : B1 -> B2 -> Prop)
    (m1 : M B1) (m2 : M A2) (k2 : A2 -> M B2) :
  keeps m2 -> same_view w1 w2 ->
  (forall a2 w2', same_view w1 w2' -> ends_at V w1 w2' RB m1 (k2 a2)) ->
  ends_at V w1 w2 RB m1 (bind m2 k2).
Proof.
  intros H2 Hs Hk. unfold ends_at, bind.
  pose proof (H2 w2) as Hv. destruct (m2 w2) as [a2 w2']. simpl in Hv.
  apply Hk. apply same_view_trans with w2; [exact Hs | now apply same_view_sym].
Qed.

Lemma rel_at_ret {A B} V w1 w2 (RA : A -> B -> Prop) a b :
  RA a b -> V w1 w2 -> ends_at V w1 w2 RA (ret a) (ret b).
Proof. intros H Hs. split; assumption. Qed.

Lemma load_branch_rel w1 w2 :
  same_view w1 w2 ->
  ends_at same_view w1 w2 (fun _ _ => True)
    (if async (config (this w1)) then load_async (config (this w1))
     else load_sync (config (this w1)))
    (if async (config (this w2)) then load_async (config (this w2))
     else load_sync (config (this w2))).
Proof.
  intros Hs. split; [exact I|].
  destruct ((if async (config (this w1)) then load_async (config (this w1))
             else load_sync (config (this w1))) w1) as [[] w1'] eqn:E1.
  destruct ((if async (config (this w2)) then load_async (config (this w2))
             else load_sync (config (this w2))) w2) as [[] w2'] eqn:E2.
  cbn [snd].
  destruct (load_branch_view _ _ E1)
    as ((Hc1 & Hcs1 & Hfr1 & Htf1 & Hn1 & Hb1) & Hnv1 & Hbz1 & Hm1).
  destruct (load_branch_view _ _ E2)
    as ((Hc2 & Hcs2 & Hfr2 & Htf2 & Hn2 & Hb2) & Hnv2 & Hbz2 & Hm2).
  view_facts Hs.
  assert (Hdue : due (models (this w1)) "nanodet" (object_enabled (object (config (this w1))))
                 = due (models (this w2)) "nanodet" (object_enabled (object (config (this w2))))).
  { unfold due. now rewrite Hmd, Hobj. }
  unfold same_view. repeat split; try congruence.
  - rewrite Hnv1, Hnv2. unfold loaded_nanodet. rewrite Hdue, Hnv, Hobj.
    reflexivity.
  - rewrite (Hm1 "nanodet"%string), (Hm2 "nanodet"%string).
    unfold loaded_lookup. rewrite Hmd.
    destruct (models (this w2) !! "nanodet"); [reflexivity|].
    simpl. rewrite Hnv, Hobj. reflexivity.
  - rewrite Hbz1, Hbz2. unfold loaded_blazepose, due. now rewrite Hmb, Hbody, Hbz.
  - rewrite (Hm1 "blazepose"%string), (Hm2 "blazepose"%string).
    unfold loaded_lookup. rewrite Hmb.
    destruct (models (this w2) !! "blazepose"); [reflexivity|].
    simpl. rewrite Hbz, Hbody. reflexivity.
Qed.

Lemma merge_view u w1 w2 :
  same_view w1 w2 ->
  same_view (with_this (with_config (mergeDeep (config (this w1)) u) (this w1)) w1)
            (with_this (with_config (mergeDeep (config (this w2)) u) (this w2)) w2).
Proof.
  intros Hs. view_facts Hs. unfold same_view. simpl.
  repeat split; try assumption.
  unfold set_async, mergeDeep. simpl. congruence.
Qed.

Lemma rel_intro {A B} (RA : A -> B -> Prop) (m1 : M A) (m2 : M B) :
  (forall w1 w2, same_view w1 w2 -> ends_at same_view w1 w2 RA m1 m2) -> rel RA m1 m2.
Proof. intros H. exact H. Qed.

Lemma load_rel u : rel (fun _ _ => True) (load u) (load u).
Proof.
  apply rel_intro. intros w1 w2 Hs. unfold load.
  apply rel_at_keeps; [apply keeps_set_state | apply keeps_set_state | exact Hs|].
  clear w1 w2 Hs. intros _ _ w1 w2 Hs.
  apply rel_at_keeps; [apply keeps_now | apply keeps_now | exact Hs|].
  clear w1 w2 Hs. intros t1 t2 w1 w2 Hs.
  apply rel_at_bind with (RA := fun _ _ => True).
  { split; [exact I|]. apply merge_view, Hs. }
  clear w1 w2 Hs. intros _ _ w1 w2 _ Hs.
  apply rel_at_get.
  apply rel_at_bind with (RA := fun _ _ => True).
  { pose proof Hs as Hs'. view_facts Hs'. rewrite Hfr.
    destruct (firstRun (this w2)); unfold when.
    - apply (checkBackend_rel true w1 w2 Hs).
    - now apply rel_at_ret. }
  clear w1 w2 Hs. intros _ _ w1 w2 _ Hs.
  apply rel_at_get. cbv zeta.
  apply rel_at_bind with (RA := fun _ _ => True).
  { apply load_branch_rel, Hs. }
  clear w1 w2 Hs. intros _ _ w1 w2 _ Hs.
  apply rel_at_get.
  apply rel_at_bind with (RA := fun _ _ => True).
  { pose proof Hs as Hs'. view_facts Hs'. rewrite Hfr.
    destruct (firstRun (this w2)) eqn:E; unfold when.
    - split; [exact I|]. unfold modify_this, modify, same_view. simpl.
      repeat split; assumption.
    - now apply rel_at_ret. }
  clear w1 w2 Hs. intros _ _ w1 w2 _ Hs.
  apply rel_at_keeps; [apply keeps_now | apply keeps_now | exact Hs|].
  clear w1 w2 Hs. intros t1' t2' w1 w2 Hs.
  apply rel_at_get.
  apply (rel_keeps _ _); [| |exact Hs].
  - unfold when. destruct (_ <? _)%Z; [apply keeps_perf_set | intros w; apply same_view_refl].
  - unfold when. destruct (_ <? _)%Z; [apply keeps_perf_set | intros w; apply same_view_refl].
Qed.

Lemma run_face_settles t : settles (run_face t).
Proof.
  intros w. unfold run_face, bind, get, emit, modify, ret. simpl.
  destruct (face_enabled _); simpl; eauto.
Qed.

(** The body pipeline stays pending on one side exactly when it does on
    the other: whether blazepose finds its key points depends on the view
    only. *)
Lemma run_body_pending t w1 w2 :
  same_view w1 w2 ->
  (fst (run_body t w1) = Pending <-> fst (run_body t w2) = Pending).
Proof.
  intros Hs. view_facts Hs.
  unfold run_body, blazepose.predict, bind, get, emit, modify, ret. cbn.
  rewrite ?Hbody, ?Hprof.
  repeat (first [ match goal with
                  | |- context [if ?b then _ else _] => destruct b
                  end
                | match goal with
                  | |- context [match ?x with _ => _ end] => destruct x
                  end ];
          cbn; rewrite ?Hbz).
  all: split; intros E; solve [reflexivity | discriminate E].
Qed.

Lemma run_hand_settles t : settles (run_hand t).
Proof.
  intros w. unfold run_hand, bind, get, emit, modify, ret. simpl.
  repeat match goal with
         | |- context [if ?b then _ else _] => destruct b; simpl
         | |- context [match ?x with _ => _ end] => destruct x; simpl
         end; eauto.
Qed.

Lemma rel_at_settled_l {A1 B1 B2} V w1 w2 (RB : B1 -> B2 -> Prop)
    (m1 : M (Promise A1)) (k1 : Promise A1 -> M B1) (m2 : M B2) :
  keeps m1 -> settles m1 -> same_view w1 w2 ->
  (forall r w1', same_view w1' w2 -> ends_at V w1' w2 RB (k1 (Resolved r)) m2) ->
  ends_at V w1 w2 RB (bind m1 k1) m2.
Proof.
  intros H1 Hr Hs Hk. unfold ends_at, bind.
  pose proof (H1 w1) as Hv. destruct (Hr w1) as [r Hres].
  destruct (m1 w1) as [a1 w1']. simpl in Hv, Hres. subst a1.
  apply Hk. now apply same_view_trans with w1.
Qed.

Lemma rel_at_settled_r {A2 B1 B2} V w1 w2 (RB : B1 -> B2 -> Prop)
    (m1 : M B1) (m2 : M (Promise A2)) (k2 : Promise A2 -> M B2) :
  keeps m2 -> settles m2 -> same_view w1 w2 ->
  (forall r w2', same_view w1 w2' -> ends_at V w1 w2' RB m1 (k2 (Resolved r))) ->
  ends_at V w1 w2 RB m1 (bind m2 k2).
Proof.
  intros H2 Hr Hs Hk. unfold ends_at, bind.
  pose proof (H2 w2) as Hv. destruct (Hr w2) as [r Hres].
  destruct (m2 w2) as [a2 w2']. simpl in Hv, Hres. subst a2.
  apply Hk. apply same_view_trans with w2; [exact Hs | now apply same_view_sym].
Qed.

Lemma keeps_when b (m : M unit) : keeps m -> keeps (when b m).
Proof. intros H. unfold when. destruct b; [exact H|]. intros w. apply same_view_refl. Qed.

(** A stage whose pipeline keeps the view and settles comes down to its
    continuation, whatever the mode. *)
Lemma rel_at_get_l {B1 B2} V w1 w2 (RB : B1 -> B2 -> Prop)
    (k1 : World -> M B1) (m2 : M B2) :
  ends_at V w1 w2 RB (k1 w1) m2 -> ends_at V w1 w2 RB (bind get k1) m2.
Proof. intros H. exact H. Qed.

Lemma rel_at_get_r {B1 B2} V w1 w2 (RB : B1 -> B2 -> Prop)
    (m1 : M B1) (k2 : World -> M B2) :
  ends_at V w1 w2 RB m1 (k2 w2) -> ends_at V w1 w2 RB m1 (bind get k2).
Proof. intros H. exact H. Qed.

Lemma stage_left {A B1 B2} V w1 w2 (cell : Promise B1)
    name (run : M (Promise A)) (k1 : Promise A -> M (Promise B1)) (m2 : M B2)
    (RB' : Promise B1 -> B2 -> Prop) :
  keeps run -> settles run -> same_view w1 w2 ->
  (forall r w1', same_view w1' w2 -> ends_at V w1' w2 RB' (k1 (Resolved r)) m2) ->
  ends_at V w1 w2 RB' (stage cell name run run k1) m2.
Proof.
  intros Hk Hr Hs H. unfold stage.
  apply rel_at_get_l. destruct (async (config (this w1))).
  - apply rel_at_settled_l; [exact Hk | exact Hr | exact Hs|].
    intros r w1' Hs'.
    apply rel_at_keeps_l; [apply keeps_perf_delete | exact Hs'|].
    intros _ w1'' Hs''. now apply H.
  - apply rel_at_keeps_l; [apply keeps_set_state | exact Hs|].
    intros _ w1' Hs'.
    apply rel_at_keeps_l; [apply keeps_now | exact Hs'|].
    intros t w1'' Hs''.
    apply rel_at_settled_l; [exact Hk | exact Hr | exact Hs''|].
    intros r w3 Hs3. cbv iota.
    apply rel_at_keeps_l; [apply keeps_now | exact Hs3|].
    intros t' w4 Hs4. cbv zeta.
    apply rel_at_keeps_l; [apply keeps_when, keeps_perf_set | exact Hs4|].
    intros _ w5 Hs5. now apply H.
Qed.

Lemma stage_right {A B1 B2} V w1 w2 (cell : Promise B2)
    name (run : M (Promise A)) (k2 : Promise A -> M (Promise B2)) (m1 : M B1)
    (RB' : B1 -> Promise B2 -> Prop) :
  keeps run -> settles run -> same_view w1 w2 ->
  (forall r w2', same_view w1 w2' -> ends_at V w1 w2' RB' m1 (k2 (Resolved r))) ->
  ends_at V w1 w2 RB' m1 (stage cell name run run k2).
Proof.
  intros Hk Hr Hs H. unfold stage.
  apply rel_at_get_r. destruct (async (config (this w2))).
  - apply rel_at_settled_r; [exact Hk | exact Hr | exact Hs|].
    intros r w2' Hs'.
    apply rel_at_keeps_r; [apply keeps_perf_delete | exact Hs'|].
    intros _ w2'' Hs''. now apply H.
  - apply rel_at_keeps_r; [apply keeps_set_state | exact Hs|].
    intros _ w2' Hs'.
    apply rel_at_keeps_r; [apply keeps_now | exact Hs'|].
    intros t w2'' Hs''.
    apply rel_at_settled_r; [exact Hk | exact Hr | exact Hs''|].
    intros r w3 Hs3. cbv iota.
    apply rel_at_keeps_r; [apply keeps_now | exact Hs3|].
    intros t' w4 Hs4. cbv zeta.
    apply rel_at_keeps_r; [apply keeps_when, keeps_perf_set | exact Hs4|].
    intros _ w5 Hs5. now apply H.
Qed.

(** Both sides pass a stage whose pipeline keeps the view and settles. *)
Lemma stage_both {A B1 B2} V w1 w2 (cell1 : Promise B1) (cell2 : Promise B2)
    name (run : M (Promise A))
    (k1 : Promise A -> M (Promise B1)) (k2 : Promise A -> M (Promise B2))
    (RB : Promise B1 -> Promise B2 -> Prop) :
  keeps run -> settles run -> same_view w1 w2 ->
  (forall r1 r2 w1' w2', same_view w1' w2' ->
     ends_at V w1' w2' RB (k1 (Resolved r1)) (k2 (Resolved r2))) ->
  ends_at V w1 w2 RB (stage cell1 name run run k1) (stage cell2 name run run k2).
Proof.
  intros Hk Hr Hs H.
  apply stage_left; [exact Hk | exact Hr | exact Hs|].
  intros r1 w1' Hs1.
  apply stage_right; [exact Hk | exact Hr | exact Hs1|].
  intros r2 w2' Hs2. now apply H.
Qed.

Lemma process_ext r i o c1 c2 :
  object c1 = object c2 -> process r i o c1 = process r i o c2.
Proof.
  intros Hobj.
  unfold process, decode, decode_strides, stride_step, cell_step, class_step,
    suppress.
  now rewrite Hobj.
Qed.

Lemma predict_rel t w1 w2 :
  same_view w1 w2 ->
  object_enabled (object (config (this w1))) = true ->
  ends_at same_view w1 w2 eq (nanodet.predict t (config (this w1)))
                  (nanodet.predict t (config (this w2))).
Proof.
  intros Hs Hen1. pose proof Hs as Hs'. view_facts Hs'.
  assert (Hen2 : object_enabled (object (config (this w2))) = true)
    by now rewrite <- Hobj.
  unfold ends_at.
  destruct (model (nanodet_vars w1)) as [m|] eqn:Em1.
  - assert (Em2 : model (nanodet_vars w2) = Some m) by now rewrite <- Hnv.
    destruct (skip_test (nanodet_vars w1) (config (this w1))) eqn:Et1.
    + assert (Et2 : skip_test (nanodet_vars w2) (config (this w2)) = true).
      { unfold skip_test in *. now rewrite <- Hnv, <- Hobj, <- Hvo. }
      rewrite (predict_cached w1 m t _ Em1 Et1), (predict_cached w2 m t _ Em2 Et2).
      simpl. split; [now rewrite Hnv|].
      unfold same_view. simpl. rewrite Hnv. repeat split; assumption.
    + assert (Et2 : skip_test (nanodet_vars w2) (config (this w2)) = false).
      { unfold skip_test in *. now rewrite <- Hnv, <- Hobj, <- Hvo. }
      rewrite (predict_decodes w1 m t _ Em1 Et1 Hen1),
              (predict_decodes w2 m t _ Em2 Et2 Hen2).
      unfold decoded.
      rewrite (process_ext _ _ _ _ _ Hobj), Hvo, Hnv.
      destruct (process _ _ _ (config (this w2))); simpl;
        (split; [reflexivity|]); unfold same_view; simpl;
        repeat split; assumption.
  - assert (Em2 : model (nanodet_vars w2) = None) by now rewrite <- Hnv.
    rewrite (predict_no_model w1 t _ Em1), (predict_no_model w2 t _ Em2).
    simpl. split; [reflexivity | exact Hs].
Qed.

Lemma run_object_rel t : rel eq (run_object t) (run_object t).
Proof.
  apply rel_intro. intros w1 w2 Hs. unfold run_object.
  apply rel_at_get. cbv zeta.
  pose proof Hs as Hs'. view_facts Hs'.
  destruct (object_enabled (object (config (this w1)))) eqn:E1.
  - rewrite <- Hobj, E1. now apply predict_rel.
  - rewrite <- Hobj, E1. now apply rel_at_ret.
Qed.

Lemma keeps_finish cell ts cv f b h o : keeps (finish cell ts cv f b h o).
Proof. keeps_tac. Qed.

Lemma finish_detections cell ts cv f b h o w :
  detections_of (fst (finish cell ts cv f b h o w))
  = match cell with
    | Pending => Resolved (inr o)
    | Resolved _ => detections_of cell
    end.
Proof.
  destruct (finish cell ts cv f b h o w) as [p w'] eqn:E. cbn [fst].
  unfold finish in E.
  apply bind_inv in E. destruct E as (? & ? & _ & E).
  apply bind_inv in E. destruct E as (? & ? & _ & E). cbv zeta in E.
  apply bind_inv in E. destruct E as (? & ? & _ & E).
  apply bind_inv in E. destruct E as (? & ? & _ & E).
  apply bind_inv in E. destruct E as (? & ? & _ & E).
  apply bind_inv in E. destruct E as (? & ? & _ & E).
  apply bind_inv in E. destruct E as (? & ? & _ & E).
  unfold ret in E. injection E as <- _.
  destruct cell as [[e|r]|]; reflexivity.
Qed.

Lemma finish_rel w1 w2 cell ts1 ts2 cv1 cv2 f1 f2 b1 b2 h1 h2 o :
  same_view w1 w2 ->
  ends_at same_view w1 w2 agree (finish cell ts1 cv1 f1 b1 h1 o)
                     (finish cell ts2 cv2 f2 b2 h2 o).
Proof.
  intros Hs. split.
  - unfold agree. now rewrite !finish_detections.
  - apply same_view_trans with w1; [apply keeps_finish|].
    apply same_view_trans with w2; [exact Hs|].
    apply same_view_sym, keeps_finish.
Qed.

(** What a stage comes down to, in either mode: its pipeline runs in a
    state with the view of the start; when the promise settles the stage goes
    on with its continuation, in a state with the same view still; when it
    stays pending, the stage goes on with its continuation in concurrent mode
    and answers [cell] in sequential mode. *)
Lemma stage_runs {A B} (cell : Promise B) name (run : M (Promise A))
    (k : Promise A -> M (Promise B)) w :
  keeps run ->
  exists w0, same_view w0 w /\
    match fst (run w0) with
    | Resolved r =>
        exists w2, same_view w2 w /\
          stage cell name run run k w = k (Resolved r) w2
    | Pending =>
        (exists w2, stage cell name run run k w = k Pending w2) \/
        fst (stage cell name run run k w) = cell
    end.
Proof.
  intros Hk.
  assert (Est : stage cell name run run k w
    = if async (config (this w)) then
        let (p, w1) := run w in
        let (_, w2) := perf_delete_if_truthy name w1 in k p w2
      else
        let (_, wa) := set_state ("run:" ++ name) w in
        let (ts, wb) := now wa in
        let (p, w1) := run wb in
        match p with
        | Pending => (cell, w1)
        | Resolved r =>
            let (ts', wc) := now w1 in
            let (_, wd) := when (0 <? trunc (ts' - ts))%Z
                                (perf_set name (trunc (ts' - ts))) wc in
            k (Resolved r) wd
        end).
  { unfold stage, bind, get. destruct (async (config (this w))); [reflexivity|].
    destruct (set_state ("run:" ++ name) w) as [[] wa].
    destruct (now wa) as [ts wb].
    destruct (run wb) as [[r|] w1]; reflexivity. }
  rewrite Est. clear Est.
  destruct (async (config (this w))).
  - exists w. split; [apply same_view_refl|].
    pose proof (Hk w) as Hv. destruct (run w) as [p w1]. cbn [fst snd] in Hv |- *.
    pose proof (keeps_perf_delete name w1) as Hd.
    destruct (perf_delete_if_truthy name w1) as [[] w2]. cbn [snd] in Hd.
    destruct p as [r|].
    + exists w2. split; [|reflexivity].
      apply same_view_trans with w1; assumption.
    + left. now exists w2.
  - pose proof (keeps_set_state ("run:" ++ name) w) as H1.
    destruct (set_state ("run:" ++ name) w) as [[] wa]. cbn [snd] in H1.
    pose proof (keeps_now wa) as H2.
    destruct (now wa) as [ts wb]. cbn [snd] in H2.
    assert (Hb : same_view wb w) by (apply same_view_trans with wa; assumption).
    exists wb. split; [exact Hb|].
    pose proof (Hk wb) as Hv. destruct (run wb) as [p w1]. cbn [fst snd] in Hv |- *.
    destruct p as [r|]; [|right; reflexivity].
    pose proof (keeps_now w1) as H3.
    destruct (now w1) as [ts' wc]. cbn [snd] in H3.
    pose proof (keeps_when (0 <? trunc (ts' - ts))%Z
                  (perf_set name (trunc (ts' - ts)))
                  (keeps_perf_set name (trunc (ts' - ts))) wc) as H4.
    destruct (when (0 <? trunc (ts' - ts))%Z
                   (perf_set name (trunc (ts' - ts))) wc) as [[] wd].
    cbn [snd] in H4. exists wd. split; [|reflexivity].
    apply same_view_trans with wc; [exact H4|].
    apply same_view_trans with w1; [exact H3|].
    apply same_view_trans with wb; assumption.
Qed.

Lemma answers_ret {A} (a : A) : answers a (ret a).
Proof. intros w. reflexivity. Qed.

Lemma answers_bind {A B} (b : B) (m : M A) (k : A -> M B) :
  (forall a, answers b (k a)) -> answers b (bind m k).
Proof.
  intros Hk w. unfold bind. destruct (m w) as [a w1]. apply Hk.
Qed.

Lemma answers_stage {A B} (cell : Promise B) name (s a : M (Promise A))
    (k : Promise A -> M (Promise B)) :
  (forall p, answers cell (k p)) -> answers cell (stage cell name s a k).
Proof.
  intros Hk. unfold stage.
  apply answers_bind. intros w0.
  destruct (async (config (this w0))).
  - apply answers_bind. intros p. apply answers_bind. intros _. apply Hk.
  - apply answers_bind. intros _. apply answers_bind. intros ts.
    apply answers_bind. intros [r|]; [|apply answers_ret].
    apply answers_bind. intros ts'. cbv zeta.
    apply answers_bind. intros _. apply Hk.
Qed.

(** The body stage, whatever the modes of the two sides: both sides go on
    with a settled body result, or the body promise stays pending on both
    and each side answers [cell], at once or after its remaining stages. *)
Lemma stage_body w1 w2 (cell : Promise Outcome) t
    (k1 k2 : Promise (jsval (list Body)) -> M (Promise Outcome)) :
  same_view w1 w2 ->
  (forall r1 r2 w1' w2', same_view w1' w2' ->
     ends_at anywhere w1' w2' agree (k1 (Resolved r1)) (k2 (Resolved r2))) ->
  answers cell (k1 Pending) -> answers cell (k2 Pending) ->
  ends_at anywhere w1 w2 agree
    (stage cell "body" (run_body t) (run_body t) k1)
    (stage cell "body" (run_body t) (run_body t) k2).
Proof.
  intros Hs Hres Hp1 Hp2.
  destruct (stage_runs cell "body" (run_body t) k1 w1 (keeps_run_body t))
    as (wa & Ha & H1).
  destruct (stage_runs cell "body" (run_body t) k2 w2 (keeps_run_body t))
    as (wb & Hb & H2).
  assert (Hab : same_view wa wb).
  { apply same_view_trans with w1; [exact Ha|].
    apply same_view_trans with w2; [exact Hs | now apply same_view_sym]. }
  pose proof (run_body_pending t wa wb Hab) as Hiff.
  unfold ends_at.
  destruct (fst (run_body t wa)) as [r1|], (fst (run_body t wb)) as [r2|].
  - destruct H1 as (wa' & Ha' & ->), H2 as (wb' & Hb' & ->).
    apply Hres.
    apply same_view_trans with w1; [exact Ha'|].
    apply same_view_trans with w2; [exact Hs | now apply same_view_sym].
  - exfalso. destruct Hiff as [_ Hiff]. specialize (Hiff eq_refl). discriminate Hiff.
  - exfalso. destruct Hiff as [Hiff _]. specialize (Hiff eq_refl). discriminate Hiff.
  - split; [|exact I]. unfold agree.
    assert (E1 : fst (stage cell "body" (run_body t) (run_body t) k1 w1) = cell)
      by (destruct H1 as [(wa' & ->)|E]; [apply Hp1 | exact E]).
    assert (E2 : fst (stage cell "body" (run_body t) (run_body t) k2 w2) = cell)
      by (destruct H2 as [(wb' & ->)|E]; [apply Hp2 | exact E]).
    now rewrite E1, E2.
Qed.

Lemma ends_anywhere {A B} V w1 w2 (RA : A -> B -> Prop) (m1 : M A) (m2 : M B) :
  ends_at V w1 w2 RA m1 m2 -> ends_at anywhere w1 w2 RA m1 m2.
Proof. intros [H _]. split; [exact H | exact I]. Qed.

(** The object stage, whatever the modes of the two sides. *)
Lemma stage_object V w1 w2 (cell : Promise Outcome) t
    (k1 k2 : Promise (jsval (list Candidate)) -> M (Promise Outcome)) :
  same_view w1 w2 ->
  (forall r w1' w2', same_view w1' w2' ->
     ends_at V w1' w2' agree (k1 (Resolved r)) (k2 (Resolved r))) ->
  (forall (s1 s2 : bool) w1' w2', same_view w1' w2' ->
     ends_at V w1' w2' agree (if s1 then ret cell else k1 Pending)
                          (if s2 then ret cell else k2 Pending)) ->
  ends_at V w1 w2 agree (stage cell "object" (run_object t) (run_object t) k1)
                     (stage cell "object" (run_object t) (run_object t) k2).
Proof.
  intros Hs Hres Hpend. unfold stage. apply rel_at_get.
  destruct (async (config (this w1))), (async (config (this w2))).
  - apply rel_at_bind with (RA := eq); [exact (run_object_rel t w1 w2 Hs)|].
    intros p ? w1' w2' <- Hs1.
    apply rel_at_keeps;
      [apply keeps_perf_delete | apply keeps_perf_delete | exact Hs1|].
    intros _ _ w1'' w2'' Hs2.
    destruct p as [r|]; [now apply Hres | exact (Hpend false false _ _ Hs2)].
  - apply rel_at_keeps_r; [apply keeps_set_state | exact Hs|].
    intros _ w2' Hs1.
    apply rel_at_keeps_r; [apply keeps_now | exact Hs1|].
    intros ts w2'' Hs2.
    apply rel_at_bind with (RA := eq); [exact (run_object_rel t _ _ Hs2)|].
    intros p ? w1' w3 <- Hs3.
    apply rel_at_keeps_l; [apply keeps_perf_delete | exact Hs3|].
    intros _ w1'' Hs4.
    destruct p as [r|]; [|exact (Hpend false true _ _ Hs4)].
    apply rel_at_keeps_r; [apply keeps_now | exact Hs4|].
    intros ts' w4 Hs5. cbv zeta.
    apply rel_at_keeps_r; [apply keeps_when, keeps_perf_set | exact Hs5|].
    intros _ w5 Hs6. now apply Hres.
  - apply rel_at_keeps_l; [apply keeps_set_state | exact Hs|].
    intros _ w1' Hs1.
    apply rel_at_keeps_l; [apply keeps_now | exact Hs1|].
    intros ts w1'' Hs2.
    apply rel_at_bind with (RA := eq); [exact (run_object_rel t _ _ Hs2)|].
    intros p ? w3 w2' <- Hs3.
    apply rel_at_keeps_r; [apply keeps_perf_delete | exact Hs3|].
    intros _ w2'' Hs4.
    destruct p as [r|]; [|exact (Hpend true false _ _ Hs4)].
    apply rel_at_keeps_l; [apply keeps_now | exact Hs4|].
    intros ts' w4 Hs5. cbv zeta.
    apply rel_at_keeps_l; [apply keeps_when, keeps_perf_set | exact Hs5|].
    intros _ w5 Hs6. now apply Hres.
  - apply rel_at_keeps; [apply keeps_set_state | apply keeps_set_state | exact Hs|].
    intros _ _ w1' w2' Hs1.
    apply rel_at_keeps; [apply keeps_now | apply keeps_now | exact Hs1|].
    intros ts1 ts2 w1'' w2'' Hs2.
    apply rel_at_bind with (RA := eq); [exact (run_object_rel t _ _ Hs2)|].
    intros p ? w3 w4 <- Hs3.
    destruct p as [r|]; [|exact (Hpend true true _ _ Hs3)].
    apply rel_at_keeps; [apply keeps_now | apply keeps_now | exact Hs3|].
    intros ts1' ts2' w5 w6 Hs4. cbv zeta.
    apply rel_at_keeps;
      [apply keeps_when, keeps_perf_set | apply keeps_when, keeps_perf_set | exact Hs4|].
    intros _ _ w7 w8 Hs5. now apply Hres.
Qed.

Lemma keeps_record_detect :
  keeps (modify (fun w => with_trace (trace w ++ [EvDetect (config (this w))]) w)).
Proof. keeps_tac. Qed.

Lemma merge_modes_view u w1 w2 :
  same_view w1 w2 ->
  same_view
    (with_this (with_config (mergeDeep (config (this w1)) (with_o_async false u))
                            (this w1)) w1)
    (with_this (with_config (mergeDeep (config (this w2)) (with_o_async true u))
                            (this w2)) w2).
Proof.
  intros Hs. view_facts Hs. unfold same_view. simpl.
  repeat split; try assumption.
  unfold set_async, mergeDeep. simpl. congruence.
Qed.

(** [detect] in the two modes, from states with the same view. *)
Lemma detect_modes (input : option Input) (u : Overrides) (w1 w2 : World) :
  (forall i c b, image_process i (set_async b c) = image_process i c) ->
  same_view w1 w2 ->
  ends_at anywhere w1 w2 agree (detect input (with_o_async false u))
                               (detect input (with_o_async true u)).
Proof.
  intros Himg Hs. unfold detect.
  apply rel_at_keeps; [apply keeps_set_state | apply keeps_set_state | exact Hs|].
  clear w1 w2 Hs. intros _ _ w1 w2 Hs.
  apply rel_at_bind with (RA := fun _ _ => True).
  { split; [exact I|]. apply merge_modes_view, Hs. }
  clear w1 w2 Hs. intros _ _ w1 w2 _ Hs.
  apply rel_at_keeps; [apply keeps_record_detect | apply keeps_record_detect | exact Hs|].
  clear w1 w2 Hs. intros _ _ w1 w2 Hs.
  apply rel_at_keeps; [apply keeps_set_state | apply keeps_set_state | exact Hs|].
  clear w1 w2 Hs. intros _ _ w1 w2 Hs.
  apply rel_at_bind with (RA := eq); [exact (sanity_rel input w1 w2 Hs)|].
  clear w1 w2 Hs. intros error ? w1 w2 <- Hs. cbv zeta.
  set (cell := match error with
               | Some e => Resolved (Failed e)
               | None => Pending
               end).
  apply rel_at_keeps; [apply keeps_now | apply keeps_now | exact Hs|].
  clear w1 w2 Hs. intros timeStart1 timeStart2 w1 w2 Hs.
  apply rel_at_bind with (RA := fun _ _ => True);
    [exact (checkBackend_rel false w1 w2 Hs)|].
  clear w1 w2 Hs. intros _ _ w1 w2 _ Hs.
  apply rel_at_bind with (RA := fun _ _ => True);
    [exact (load_rel no_overrides w1 w2 Hs)|].
  clear w1 w2 Hs. intros _ _ w1 w2 _ Hs.
  apply rel_at_keeps; [apply keeps_analyze | apply keeps_analyze | exact Hs|].
  clear w1 w2 Hs. intros _ _ w1 w2 Hs.
  apply rel_at_keeps; [apply keeps_now | apply keeps_now | exact Hs|].
  clear w1 w2 Hs. intros timeStamp1 timeStamp2 w1 w2 Hs.
  apply rel_at_get.
  assert (Hsame : image_process input (config (this w1))
                  = image_process input (config (this w2))).
  { rewrite <- (Himg input (config (this w1)) true),
            <- (Himg input (config (this w2)) true).
    now rewrite (proj1 (proj2 Hs)). }
  rewrite Hsame.
  destruct (image_process input (config (this w2))) as [[tensor canvas]|];
    [|apply rel_at_ret; [reflexivity | exact I]].
  apply rel_at_keeps; [apply keeps_now | apply keeps_now | exact Hs|].
  clear w1 w2 Hs Hsame. intros t1 t2 w1 w2 Hs.
  apply rel_at_keeps; [apply keeps_perf_set | apply keeps_perf_set | exact Hs|].
  clear w1 w2 Hs. intros _ _ w1 w2 Hs.
  apply rel_at_keeps; [apply keeps_analyze | apply keeps_analyze | exact Hs|].
  clear w1 w2 Hs. intros _ _ w1 w2 Hs.
  apply stage_both; [apply keeps_run_face | apply run_face_settles | exact Hs|].
  clear w1 w2 Hs. intros face1 face2 w1 w2 Hs.
  apply rel_at_keeps; [apply keeps_analyze | apply keeps_analyze | exact Hs|].
  clear w1 w2 Hs. intros _ _ w1 w2 Hs.
  apply stage_body; [exact Hs | | |].
  2-3: apply answers_bind; intros _; apply answers_bind; intros _;
       apply answers_stage; intros handP;
       apply answers_bind; intros _; apply answers_bind; intros _;
       apply answers_stage; intros objectP;
       apply answers_bind; intros _;
       destruct handP, objectP; apply answers_ret.
  clear w1 w2 Hs. intros body1 body2 w1 w2 Hs.
  apply rel_at_keeps; [apply keeps_analyze | apply keeps_analyze | exact Hs|].
  clear w1 w2 Hs. intros _ _ w1 w2 Hs.
  apply rel_at_keeps; [apply keeps_analyze | apply keeps_analyze | exact Hs|].
  clear w1 w2 Hs. intros _ _ w1 w2 Hs.
  apply stage_both; [apply keeps_run_hand | apply run_hand_settles | exact Hs|].
  clear w1 w2 Hs. intros hand1 hand2 w1 w2 Hs.
  apply rel_at_keeps; [apply keeps_analyze | apply keeps_analyze | exact Hs|].
  clear w1 w2 Hs. intros _ _ w1 w2 Hs.
  apply rel_at_keeps; [apply keeps_analyze | apply keeps_analyze | exact Hs|].
  clear w1 w2 Hs. intros _ _ w1 w2 Hs.
  apply stage_object; [exact Hs | |].
  - intros r w1' w2' Hs'.
    apply rel_at_keeps; [apply keeps_analyze | apply keeps_analyze | exact Hs'|].
    intros _ _ w1'' w2'' Hs''.
    apply (ends_anywhere same_view). now apply finish_rel.
  - intros s1 s2 w1' w2' Hs'.
    destruct s1, s2.
    + apply rel_at_ret; [reflexivity | exact I].
    + apply rel_at_keeps_r; [apply keeps_analyze | exact Hs'|].
      intros _ w2'' Hs''. apply rel_at_ret; [reflexivity | exact I].
    + apply rel_at_keeps_l; [apply keeps_analyze | exact Hs'|].
      intros _ w1'' Hs''. apply rel_at_ret; [reflexivity | exact I].
    + apply rel_at_keeps; [apply keeps_analyze | apply keeps_analyze | exact Hs'|].
      intros _ _ w1'' w2'' Hs''. apply rel_at_ret; [reflexivity | exact I].
Qed.

End Modes.

(** C6.  For a pre-processing stage that does not read the execution mode,
    [detect] run in sequential mode and [detect] run in concurrent mode, from
    the same state, on the same input and with otherwise the same overrides,
    report the same final detections: both stay pending, or both resolve with
    the same error, or both resolve with the same object results, in order
    and value.  The promise stays pending in both modes when the object
    pipeline raises and when blazepose finds no key points in its output:
    the sequential run stops at that stage, the concurrent run at the join.
    The performance reports, which hold the timings, are not compared; nor
    are the face, body and hand results. *)
Theorem detect_modes_agree `{ObjectRuntime} `{Collaborators}
    (w : World) (input : option Input) (u : Overrides) :
  (forall i c b, image_process i (set_async b c) = image_process i c) ->
  detections_of (fst (detect input (with_o_async false u) w))
  = detections_of (fst (detect input (with_o_async true u) w)).
Proof.
  intros Himg.
  exact (proj1 (detect_modes input u w w Himg (same_view_refl w))).
Qed.

(** ** The candidates of the decoder *)

Section DecoderMore.
Context {RT : ObjectRuntime}.
Variables (res : list Tensor) (inputSize0 : positive)
          (outputShape : nat * nat) (cfg : Config).

Lemma class_step_numbered s st idx i acc j :
  numbered acc -> numbered (class_step cfg s inputSize0 outputShape st idx i acc j).
Proof.
  unfold numbered, class_step. intros H.
  destruct (Qgtb _ _ && negb _); [|exact H].
  cbn [fst snd]. rewrite map_app, H, seq_S. reflexivity.
Qed.

Lemma stride_step_numbered s acc acc' :
  stride_step res inputSize0 outputShape cfg acc s = Some acc' ->
  numbered acc -> numbered acc'.
Proof.
  unfold stride_step. cbv zeta.
  destruct (find _ res) as [ft|]; [|discriminate].
  destruct (boxIdx_table ft) as [idx|]; [|discriminate].
  destruct (find _ res) as [st|]; [|discriminate].
  intros E H. injection E as <-.
  apply fold_left_invariant; [|exact H].
  intros a i _ Ha. unfold cell_step.
  apply fold_left_invariant; [|exact Ha].
  intros b j _ Hb. now apply class_step_numbered.
Qed.

Lemma decode_strides_numbered strides : forall acc acc',
  decode_strides res inputSize0 outputShape cfg acc strides = Some acc' ->
  numbered acc -> numbered acc'.
Proof.
  induction strides as [|s rest IH]; intros acc acc' E H; simpl in E.
  - now injection E as <-.
  - destruct (stride_step res inputSize0 outputShape cfg acc s) as [acc1|] eqn:E1;
      [|discriminate].
    exact (IH _ _ E (stride_step_numbered s acc acc1 E1 H)).
Qed.

End DecoderMore.

Lemma decode_numbered `{ObjectRuntime}
    (res : list Tensor) (inputSize0 : positive) (outputShape : nat * nat)
    (cfg : Config) (results : list Candidate) :
  decode res inputSize0 outputShape cfg = Some results ->
  map id results = seq 0 (List.length results).
Proof.
  unfold decode. intros E.
  destruct (decode_strides res inputSize0 outputShape cfg (0%nat, []) [1; 2; 4]%nat)
    as [acc|] eqn:Es; [|discriminate].
  simpl in E. injection E as <-.
  assert (Hn : numbered acc)
    by (apply (decode_strides_numbered res inputSize0 outputShape cfg _ _ _ Es);
        reflexivity).
  unfold numbered in Hn. rewrite Hn.
  f_equal. rewrite <- (List.length_map id), Hn. now rewrite List.length_seq.
Qed.

(** X1.  The candidates of a successful decode are numbered in the order they
    are pushed: their [id]s are [0, 1, ..., n-1], hence pairwise distinct. *)
Theorem decode_ids_count_from_zero `{ObjectRuntime}
    (res : list Tensor) (inputSize0 : positive) (outputShape : nat * nat)
    (cfg : Config) (results : list Candidate) :
  decode res inputSize0 outputShape cfg = Some results ->
  map id results = seq 0 (List.length results) /\
  List.NoDup (map id results).
Proof.
  intros Hdec.
  pose proof (decode_numbered res inputSize0 outputShape cfg results Hdec) as Hids.
  split; [exact Hids|]. rewrite Hids. apply List.seq_NoDup.
Qed.

(** ** [Math.trunc] *)

Lemma trunc_Qnat n : trunc (Qnat n) = Z.of_nat n.
Proof. unfold trunc, Qnat. simpl. apply Z.quot_1_r. Qed.

Lemma trunc_below q :
  (0 <= q)%Q -> (0 <= trunc q)%Z /\ (inject_Z (trunc q) <= q)%Q.
Proof.
  destruct q as [a b]. unfold Qle, trunc. simpl. intros Ha.
  assert (Ha' : (0 <= a)%Z) by lia.
  rewrite Z.quot_div_nonneg by lia. split.
  - apply Z.div_pos; lia.
  - rewrite Z.mul_1_r, Z.mul_comm. apply Z.mul_div_le. lia.
Qed.

Lemma trunc_le q n : (0 <= q)%Q -> (q <= inject_Z n)%Q -> (0 <= trunc q <= n)%Z.
Proof.
  intros H0 Hn. destruct (trunc_below q H0) as [Ht Hq]. split; [exact Ht|].
  rewrite Zle_Qle. now apply Qle_trans with q.
Qed.

Lemma trunc_lt q n : (0 <= q)%Q -> (q < inject_Z n)%Q -> (0 <= trunc q < n)%Z.
Proof.
  intros H0 Hn. destruct (trunc_below q H0) as [Ht Hq]. split; [exact Ht|].
  rewrite Zlt_Qlt. now apply Qle_lt_trans with q.
Qed.

(** The centre of cell number [n] of [B] cells, as a fraction of the side. *)
Lemma cell_fraction n B :
  (0 <= n < B)%Z ->
  (0 < ((1 # 2) + inject_Z n) / inject_Z B)%Q /\
  (((1 # 2) + inject_Z n) / inject_Z B < 1)%Q.
Proof.
  intros [Hn HB].
  assert (HBq : (0 < inject_Z B)%Q) by (change 0%Q with (inject_Z 0); rewrite <- Zlt_Qlt; lia).
  assert (Hnq : (0 <= inject_Z n)%Q) by (change 0%Q with (inject_Z 0); rewrite <- Zle_Qle; lia).
  assert (Hle : (inject_Z n + 1 <= inject_Z B)%Q).
  { change 1%Q with (inject_Z 1).
    rewrite <- (inject_Z_plus n 1), <- Zle_Qle. lia. }
  split.
  - apply Qlt_shift_div_l; [exact HBq|]. lra.
  - apply Qlt_shift_div_r; [exact HBq|]. lra.
Qed.

Lemma scaled_inside (W : nat) (a : Q) :
  (0 <= a)%Q -> (a <= 1)%Q ->
  (0 <= trunc (Qnat W * a) <= Z.of_nat W)%Z.
Proof.
  intros H0 H1.
  assert (HW : (0 <= Qnat W)%Q) by (unfold Qnat; change 0%Q with (inject_Z 0); rewrite <- Zle_Qle; lia).
  apply trunc_le.
  - now apply Qmult_le_0_compat.
  - unfold Qnat in *. nra.
Qed.

Lemma grid_cell `{ObjectRuntime} (res : list Tensor) s st i :
  In s [1; 2; 4]%nat ->
  find (is_scores_of s) res = Some st ->
  (i < dim1 st)%nat ->
  (0 < s * 13)%nat /\ (i < (s * 13) * (s * 13))%nat.
Proof.
  intros Hs Hst Hi.
  apply find_some in Hst. destruct Hst as [_ Hst].
  unfold is_scores_of in Hst. apply andb_prop in Hst. destruct Hst as [Hd _].
  apply Nat.eqb_eq in Hd. rewrite Hd in Hi.
  split.
  - simpl in Hs. lia.
  - simpl in Hi. lia.
Qed.

Lemma cell_centre (base i : nat) :
  (0 < base)%nat -> (i < base * base)%nat ->
  let cx := (((1 # 2) + inject_Z (trunc (Qnat (i mod base)))) / Qnat base)%Q in
  let cy := (((1 # 2) + inject_Z (trunc (Qnat i / Qnat base))) / Qnat base)%Q in
  (0 < cx)%Q /\ (cx < 1)%Q /\ (0 < cy)%Q /\ (cy < 1)%Q.
Proof.
  intros Hb Hi cx cy. subst cx cy.
  assert (Hbq : (0 < Qnat base)%Q)
    by (unfold Qnat; change 0%Q with (inject_Z 0); rewrite <- Zlt_Qlt; lia).
  assert (Hiq : (0 <= Qnat i)%Q)
    by (unfold Qnat; change 0%Q with (inject_Z 0); rewrite <- Zle_Qle; lia).
  rewrite trunc_Qnat.
  assert (Hx : (0 <= Z.of_nat (i mod base) < Z.of_nat base)%Z).
  { pose proof (Nat.mod_upper_bound i base). lia. }
  assert (Hy : (0 <= trunc (Qnat i / Qnat base) < Z.of_nat base)%Z).
  { apply trunc_lt.
    - apply Qle_shift_div_l; [exact Hbq|]. lra.
    - apply Qlt_shift_div_r; [exact Hbq|].
      unfold Qnat. rewrite <- inject_Z_mult, <- Zlt_Qlt. lia. }
  destruct (cell_fraction _ _ Hx) as [Hx0 Hx1].
  destruct (cell_fraction _ _ Hy) as [Hy0 Hy1].
  unfold Qnat at 1 2 4. auto.
Qed.

Lemma inside_scaled (W : nat) (a : Q) :
  in_unit a -> (0 <= trunc (a * Qnat W) <= Z.of_nat W)%Z.
Proof.
  intros [H0 H1].
  assert (HW : (0 <= Qnat W)%Q)
    by (unfold Qnat; change 0%Q with (inject_Z 0); rewrite <- Zle_Qle; lia).
  apply trunc_le.
  - now apply Qmult_le_0_compat.
  - unfold Qnat in *. nra.
Qed.

(** X3.  Every candidate of a successful decode has its normalised centre
    strictly inside the unit square and its pixel centre inside the frame. *)
Theorem decode_center_inside_frame `{ObjectRuntime}
    (res : list Tensor) (inputSize0 : positive) (outputShape : nat * nat)
    (cfg : Config) (results : list Candidate) (c : Candidate) :
  decode res inputSize0 outputShape cfg = Some results ->
  In c results ->
  exists cx cy x y,
    centerRaw c = [cx; cy] /\ center c = [x; y] /\
    (0 < cx)%Q /\ (cx < 1)%Q /\ (0 < cy)%Q /\ (cy < 1)%Q /\
    (0 <= x <= Z.of_nat (fst outputShape))%Z /\
    (0 <= y <= Z.of_nat (snd outputShape))%Z.
Proof.
  intros Hdec Hin.
  destruct (decode_emitted res inputSize0 outputShape cfg results c Hdec Hin)
    as (s & st & ft & i & j & Hs & Hst & _ & Hi & _ & _ & _ & idx & id0 & _ & ->).
  destruct (grid_cell res s st i Hs Hst Hi) as [Hb Hi2].
  destruct (cell_centre (s * 13) i Hb Hi2) as (Hx0 & Hx1 & Hy0 & Hy1).
  cbv zeta in Hx0, Hx1, Hy0, Hy1.
  do 4 eexists. split; [reflexivity|]. split; [reflexivity|].
  repeat split; try assumption;
    apply scaled_inside; apply Qlt_le_weak; assumption.
Qed.

(** X4.  The pixel box of every candidate of a successful decode has its corner
    and its extent between 0 and the frame width, respectively height. *)
Theorem decode_box_inside_frame `{ObjectRuntime}
    (res : list Tensor) (inputSize0 : positive) (outputShape : nat * nat)
    (cfg : Config) (results : list Candidate) (c : Candidate) :
  decode res inputSize0 outputShape cfg = Some results ->
  In c results ->
  exists x y w h,
    box c = [x; y; w; h] /\
    (0 <= x <= Z.of_nat (fst outputShape))%Z /\
    (0 <= y <= Z.of_nat (snd outputShape))%Z /\
    (0 <= w <= Z.of_nat (fst outputShape))%Z /\
    (0 <= h <= Z.of_nat (snd outputShape))%Z.
Proof.
  intros Hdec Hin.
  destruct (decode_emitted res inputSize0 outputShape cfg results c Hdec Hin)
    as (s & st & ft & i & j & _ & _ & _ & _ & _ & _ & _ & idx & id0 & _ & ->).
  do 4 eexists. split; [reflexivity|].
  repeat split; try (apply inside_scaled; apply clamp_in_unit).
Qed.

(** ** What [process] answers with *)

Lemma kept_ids_distinct (f : nat * Candidate -> bool) (results : list Candidate) :
  forall start,
  List.NoDup (map id results) ->
  List.NoDup (map id (map snd (List.filter f
                 (combine (seq start (List.length results)) results)))).
Proof.
  induction results as [|x l IH]; intros start Hnd; simpl; [constructor|].
  inversion Hnd as [|y m Hy Hm]; subst.
  destruct (f (start, x)); simpl; [|now apply IH].
  constructor; [|now apply IH].
  intros Hin. apply Hy.
  apply in_map_iff in Hin. destruct Hin as (c & Hc & Hin).
  apply in_map_iff in Hin. destruct Hin as ([i a] & Ha & Hin). simpl in Ha. subst a.
  apply filter_In in Hin. destruct Hin as [Hin _].
  apply in_combine_r in Hin. rewrite <- Hc. now apply in_map.
Qed.

(** X5.  The detections [process] answers with are candidates of the decoder;
    they carry pairwise distinct [id]s, each below the number of candidates
    pushed, and each scores above [minConfidence]. *)
Theorem process_results_distinct_and_confident `{ObjectRuntime}
    (res : list Tensor) (inputSize0 : positive) (outputShape : nat * nat)
    (cfg : Config) (out : list Candidate) :
  process (Some res) inputSize0 outputShape cfg = Some out ->
  List.NoDup (map id out) /\
  List.Forall (fun c => (minConfidence (object cfg) < score c)%Q) out /\
  exists results,
    decode res inputSize0 outputShape cfg = Some results /\
    incl out results /\
    List.Forall (fun c => (id c < List.length results)%nat) out.
Proof.
  unfold process. intros E.
  destruct (decode res inputSize0 outputShape cfg) as [results|] eqn:Hdec;
    [|discriminate].
  injection E as <-.
  assert (Hincl : incl (suppress results cfg) results)
    by (intros c; apply suppress_incl).
  pose proof (decode_numbered res inputSize0 outputShape cfg results Hdec)
    as Hids.
  split; [|split].
  - unfold suppress. cbv zeta.
    eapply Permutation_NoDup.
    + apply Permutation_map, Permutation_sym, sort_desc_perm.
    + apply kept_ids_distinct. rewrite Hids. apply List.seq_NoDup.
  - apply List.Forall_forall. intros c Hc. apply Hincl in Hc.
    destruct (decode_emitted res inputSize0 outputShape cfg results c Hdec Hc)
      as (s & st & ft & i & j & _ & _ & _ & _ & _ & _ & Hsc & idx & id0 & _ & ->).
    simpl. now apply Qgtb_gt.
  - exists results. split; [reflexivity|]. split; [exact Hincl|].
    apply List.Forall_forall. intros c Hc. apply Hincl in Hc.
    assert (Hin : In (id c) (map id results)) by now apply in_map.
    rewrite Hids in Hin. apply in_seq in Hin. lia.
Qed.


(** ** More on the frame-skip cache *)

Section FrameSkipMore.
Context {RT : ObjectRuntime}.

Lemma predict_cache_after w image cfg :
  let r := fst (nanodet.predict image cfg w) in
  let w' := snd (nanodet.predict image cfg w) in
  model (nanodet_vars w') = model (nanodet_vars w) /\
  last (nanodet_vars w')
  = match r with
    | Resolved (Value obj) => obj
    | _ => last (nanodet_vars w)
    end.
Proof.
  cbv zeta. destruct (model (nanodet_vars w)) as [m|] eqn:Hm.
  - destruct (skip_test (nanodet_vars w) cfg) eqn:Ht.
    + rewrite (predict_cached w m image cfg Hm Ht). simpl. auto.
    + unfold skip_test in Ht.
      unfold nanodet.predict, bind, get. rewrite Hm, Ht.
      unfold nanodet.set_skipped, nanodet.set_last, emit, modify, ret. simpl.
      rewrite Hm.
      destruct (negb (profile cfg)), (object_enabled (object cfg)); simpl;
        try match goal with
            | |- context [decode ?a ?b ?c ?d] => destruct (decode a b c d)
            end; simpl; auto.
  - rewrite (predict_no_model w image cfg Hm). simpl. auto.
Qed.

Lemma predict_disabled w m image cfg :
  model (nanodet_vars w) = Some m ->
  object_enabled (object cfg) = false ->
  trace (snd (nanodet.predict image cfg w)) = trace w /\
  fst (nanodet.predict image cfg w)
  = if skip_test (nanodet_vars w) cfg
    then Resolved (Value (last (nanodet_vars w)))
    else Pending.
Proof.
  intros Hm Hen.
  destruct (skip_test (nanodet_vars w) cfg) eqn:Ht.
  - rewrite (predict_cached w m image cfg Hm Ht). simpl. auto.
  - unfold skip_test in Ht.
    unfold nanodet.predict, bind, get. rewrite Hm, Ht, Hen.
    unfold nanodet.set_skipped, modify, ret. simpl.
    destruct (profile cfg); simpl; auto.
Qed.

Lemma invocations_snoc tr :
  object_invocations (tr ++ [EvInvoke "nanodet"]) = S (object_invocations tr).
Proof.
  unfold object_invocations. rewrite List.filter_app, List.length_app. simpl. lia.
Qed.

(** With a warm cache and the counter at [k], the next decode comes after
    [n - k] cached frames, and then every [n + 1] frames. *)
Lemma predict_all_warm (m : Handle) (cfg : Config) (n : nat) (frames : list Image) :
  videoOptimized cfg = true ->
  object_enabled (object cfg) = true ->
  skipFrames (object cfg) = Z.of_nat n ->
  (Z.of_nat n <= 2 ^ 53)%Z ->
  (forall f, In f frames -> exists obj, decoded m f cfg = Some obj /\ obj <> []) ->
  forall (w : World) (k : nat),
    model (nanodet_vars w) = Some m ->
    last (nanodet_vars w) <> [] ->
    skipped (nanodet_vars w) = Z.of_nat k -> (k <= n)%nat ->
    object_invocations (trace (snd (predict_all frames cfg w)))
    = (object_invocations (trace w) + (List.length frames + k) / (n + 1))%nat.
Proof.
  intros Hvo Hen Hsf Hn.
  induction frames as [|f rest IH]; intros Hdec w k Hm Hl Hk Hkn.
  - simpl. rewrite Nat.div_small by lia. lia.
  - simpl. unfold bind.
    destruct (Nat.eq_dec k n) as [->|Hne].
    + assert (Ht : skip_test (nanodet_vars w) cfg = false).
      { unfold skip_test. rewrite Hk, Hsf, Z.ltb_irrefl. reflexivity. }
      destruct (Hdec f (or_introl eq_refl)) as (obj & Hobj & Hne).
      rewrite (predict_decodes w m f cfg Hm Ht Hen), Hobj, Hvo.
      match goal with
      | |- context [predict_all rest cfg ?w1] =>
          specialize (IH (fun g Hg => Hdec g (or_intror Hg)) w1 0%nat
                         eq_refl Hne eq_refl (Nat.le_0_l n));
          destruct (predict_all rest cfg w1) as [rs w2]
      end.
      cbn [fst snd trace with_nanodet with_trace List.length ret] in IH |- *.
      rewrite IH, invocations_snoc, Nat.add_0_r.
      replace (S (List.length rest + n))%nat
        with (List.length rest + 1 * (n + 1))%nat by lia.
      rewrite Nat.div_add by lia. lia.
    + assert (Ht : skip_test (nanodet_vars w) cfg = true).
      { unfold skip_test. rewrite Hk, Hsf, Hvo.
        replace (Z.of_nat k <? Z.of_nat n)%Z with true
          by (symmetry; apply Z.ltb_lt; lia).
        destruct (last (nanodet_vars w)); [congruence | reflexivity]. }
      rewrite (predict_cached w m f cfg Hm Ht).
      match goal with
      | |- context [predict_all rest cfg ?w1] =>
          specialize (IH (fun g Hg => Hdec g (or_intror Hg)) w1 (S k)
                         eq_refl Hl);
          destruct (predict_all rest cfg w1) as [rs w2]
      end.
      cbn [fst snd trace with_nanodet with_trace List.length nanodet_vars skipped ret]
        in IH |- *.
      rewrite IH; [|rewrite Hk, incr_exact; lia | lia].
      f_equal. f_equal. lia.
Qed.

Lemma predict_all_uncached (m : Handle) (cfg : Config) (frames : list Image) :
  videoOptimized cfg = false ->
  object_enabled (object cfg) = true ->
  forall w : World,
    model (nanodet_vars w) = Some m ->
    object_invocations (trace (snd (predict_all frames cfg w)))
    = (object_invocations (trace w) + List.length frames)%nat /\
    fst (predict_all frames cfg w)
    = map (fun f => match decoded m f cfg with
                    | Some obj => Resolved (Value obj)
                    | None => Pending
                    end) frames.
Proof.
  intros Hvo Hen. induction frames as [|f rest IH]; intros w Hm.
  - simpl. split; [lia | reflexivity].
  - simpl. unfold bind.
    assert (Ht : skip_test (nanodet_vars w) cfg = false).
    { unfold skip_test. rewrite Hvo. apply andb_false_iff. left.
      apply andb_false_r. }
    rewrite (predict_decodes w m f cfg Hm Ht Hen).
    destruct (decoded m f cfg) as [obj|];
      match goal with
      | |- context [predict_all rest cfg ?w1] =>
          destruct (IH w1 eq_refl) as [IH1 IH2];
          destruct (predict_all rest cfg w1) as [rs w2]
      end;
      simpl in IH1, IH2 |- *; rewrite IH1, IH2, invocations_snoc;
      (split; [lia | reflexivity]).
Qed.

End FrameSkipMore.

(** X6.  [predict] never changes the loaded model, and after every call the
    cache [last] is the array the call resolved with; a call that answers
    [null] or whose promise stays pending leaves the cache as it was. *)
Theorem predict_answer_is_the_cache `{ObjectRuntime}
    (w : World) (image : Image) (cfg : Config) :
  let r := fst (nanodet.predict image cfg w) in
  let w' := snd (nanodet.predict image cfg w) in
  model (nanodet_vars w') = model (nanodet_vars w) /\
  last (nanodet_vars w')
  = match r with
    | Resolved (Value obj) => obj
    | _ => last (nanodet_vars w)
    end.
Proof. exact (predict_cache_after w image cfg). Qed.

(** X7.  With a model loaded and the object pipeline disabled, [predict] never
    invokes the model: it answers a cached array when the frame-skip test
    passes, and otherwise its promise never settles, because [process] raises
    on the missing model output. *)
Theorem predict_disabled_never_invokes `{ObjectRuntime}
    (w : World) (m : Handle) (image : Image) (cfg : Config) :
  model (nanodet_vars w) = Some m ->
  object_enabled (object cfg) = false ->
  trace (snd (nanodet.predict image cfg w)) = trace w /\
  fst (nanodet.predict image cfg w)
  = if skip_test (nanodet_vars w) cfg
    then Resolved (Value (last (nanodet_vars w)))
    else Pending.
Proof. exact (predict_disabled w m image cfg). Qed.

(** X8.  With [videoOptimized] set, [skipFrames = n] at most [2^53] (beyond
    which the counter, a double, would stall below it) and an empty cache, a
    sequence of frames each of which decodes to a non-empty array invokes the
    model once per [n + 1] frames: ceil (frames / (n + 1)) times. *)
Theorem predict_decodes_once_per_period `{ObjectRuntime}
    (w : World) (m : Handle) (cfg : Config) (n : nat) (frames : list Image) :
  model (nanodet_vars w) = Some m ->
  last (nanodet_vars w) = [] ->
  videoOptimized cfg = true ->
  object_enabled (object cfg) = true ->
  skipFrames (object cfg) = Z.of_nat n ->
  (Z.of_nat n <= 2 ^ 53)%Z ->
  (forall f, In f frames -> exists obj, decoded m f cfg = Some obj /\ obj <> []) ->
  object_invocations (trace (snd (predict_all frames cfg w)))
  = (object_invocations (trace w) + (List.length frames + n) / (n + 1))%nat.
Proof.
  intros Hm Hl Hvo Hen Hsf Hn Hdec.
  destruct frames as [|f rest].
  - simpl. rewrite Nat.div_small by lia. lia.
  - simpl. unfold bind.
    assert (Ht : skip_test (nanodet_vars w) cfg = false).
    { unfold skip_test. rewrite Hl. simpl. apply andb_false_r. }
    destruct (Hdec f (or_introl eq_refl)) as (obj & Hobj & Hne).
    rewrite (predict_decodes w m f cfg Hm Ht Hen), Hobj, Hvo.
    match goal with
    | |- context [predict_all rest cfg ?w1] =>
        pose proof (predict_all_warm m cfg n rest Hvo Hen Hsf Hn
                      (fun g Hg => Hdec g (or_intror Hg)) w1 0%nat
                      eq_refl Hne eq_refl (Nat.le_0_l n)) as Hw;
        destruct (predict_all rest cfg w1) as [rs w2]
    end.
    cbn [fst snd trace with_nanodet with_trace List.length ret] in Hw |- *.
    rewrite Hw, invocations_snoc, Nat.add_0_r.
    replace (S (List.length rest + n))%nat
      with (List.length rest + 1 * (n + 1))%nat by lia.
    rewrite Nat.div_add by lia. lia.
Qed.

(** X9.  Without [videoOptimized] nothing is served from the cache: every call
    invokes the model once and answers with the decoded array of its own
    frame (or stays pending when [process] raises). *)
Theorem predict_without_videoOptimized_always_decodes `{ObjectRuntime}
    (w : World) (m : Handle) (cfg : Config) (frames : list Image) :
  model (nanodet_vars w) = Some m ->
  videoOptimized cfg = false ->
  object_enabled (object cfg) = true ->
  object_invocations (trace (snd (predict_all frames cfg w)))
  = (object_invocations (trace w) + List.length frames)%nat /\
  fst (predict_all frames cfg w)
  = map (fun f => match decoded m f cfg with
                  | Some obj => Resolved (Value obj)
                  | None => Pending
                  end) frames.
Proof.
  intros Hm Hvo Hen. exact (predict_all_uncached m cfg frames Hvo Hen w Hm).
Qed.

(** ** The loaders keep their first model *)







(** ** What [detect] keeps and answers *)

Lemma hoare_bind {A B} (P : World -> Prop) (R : A -> World -> Prop)
    (Q : B -> World -> Prop) (m : M A) (k : A -> M B) :
  hoare P m R -> (forall a, hoare (R a) (k a) Q) -> hoare P (bind m k) Q.
Proof.
  intros Hm Hk w HP. unfold bind. specialize (Hm w HP).
  destruct (m w) as [a w1]. simpl in Hm. exact (Hk a w1 Hm).
Qed.

Lemma hoare_ret {A} (P : World -> Prop) (Q : A -> World -> Prop) (a : A) :
  (forall w, P w -> Q a w) -> hoare P (ret a) Q.
Proof. intros H w HP. exact (H w HP). Qed.

Lemma hoare_pre {A} (P P' : World -> Prop) (Q : A -> World -> Prop) (m : M A) :
  (forall w, P w -> P' w) -> hoare P' m Q -> hoare P m Q.
Proof. intros HPP Hm w HP. exact (Hm w (HPP w HP)). Qed.

Lemma hoare_post {A} (P : World -> Prop) (Q Q' : A -> World -> Prop) (m : M A) :
  (forall a w, Q a w -> Q' a w) -> hoare P m Q -> hoare P m Q'.
Proof. intros HQ Hm w HP. exact (HQ _ _ (Hm w HP)). Qed.

Lemma hoare_get {B} (I : World -> Prop) (Q : B -> World -> Prop)
    (k : World -> M B) :
  (forall w0, I w0 -> hoare I (k w0) Q) -> hoare I (bind get k) Q.
Proof. intros H w HI. exact (H w HI w HI). Qed.

Lemma hoare_step {A B} (I : World -> Prop) (Q : B -> World -> Prop)
    (m : M A) (k : A -> M B) :
  preserves I m -> (forall a, hoare I (k a) Q) -> hoare I (bind m k) Q.
Proof.
  intros Hm Hk. apply hoare_bind with (R := fun _ w => I w); [|exact Hk].
  intros w HI. exact (Hm w HI).
Qed.

Lemma hoare_result {A} (I : World -> Prop) (R : A -> Prop) (m : M A) :
  preserves I m -> (forall w, I w -> R (fst (m w))) ->
  hoare I m (fun a w => I w /\ R a).
Proof. intros Hm HR w HI. split; [exact (Hm w HI) | exact (HR w HI)]. Qed.

Section DetectFacts.
Context {RT : ObjectRuntime} {CO : Collaborators}.

Lemma same_but_backend_fields c1 c2 :
  same_but_backend c1 c2 ->
  async c1 = async c2 /\ face c1 = face c2 /\ body c1 = body c2 /\
  hand_enabled c1 = hand_enabled c2 /\ object c1 = object c2 /\
  gesture_enabled c1 = gesture_enabled c2 /\ videoOptimized c1 = videoOptimized c2 /\
  profile c1 = profile c2.
Proof.
  unfold same_but_backend, set_backend. intros E.
  injection E as _ _ ? ? _ _ ? _ ? ? ? ? ?. repeat split; assumption.
Qed.

(** Steps that touch neither the configuration, nor the sanity switch, nor
    the timings. *)
Ltac frame_update :=
  unfold detect_inv; intros; cbn; assumption.

Lemma inv_set_state c d p s : preserves (detect_inv c d p) (set_state s).
Proof. preserve_with frame_update. Qed.

Lemma inv_now c d p : preserves (detect_inv c d p) now.
Proof. preserve_with frame_update. Qed.

Lemma inv_analyze c d p : preserves (detect_inv c d p) analyze.
Proof. preserve_with frame_update. Qed.

Lemma inv_run_face c d p t : preserves (detect_inv c d p) (run_face t).
Proof. preserve_with frame_update. Qed.

Lemma inv_run_body c d p t : preserves (detect_inv c d p) (run_body t).
Proof. preserve_with frame_update. Qed.

Lemma inv_run_hand c d p t : preserves (detect_inv c d p) (run_hand t).
Proof. preserve_with frame_update. Qed.

Lemma inv_run_object c d p t : preserves (detect_inv c d p) (run_object t).
Proof. preserve_with frame_update. Qed.

(** *** The timings under the invariant *)

Lemma stage_positive_insert p k v :
  (In k stage_names -> (0 < v)%Z) ->
  stage_positive p -> stage_positive (<[k := v]> p).
Proof.
  intros Hv Hp n x Hn Hx. apply lookup_insert_Some in Hx.
  destruct Hx as [[<- <-]|[_ Hx]]; [now apply Hv | exact (Hp n x Hn Hx)].
Qed.

Lemma stage_positive_delete p k :
  stage_positive p -> stage_positive (delete k p).
Proof.
  intros Hp n x Hn Hx. apply lookup_delete_Some in Hx.
  exact (Hp n x Hn (proj2 Hx)).
Qed.

Lemma perf_set_state k v w :
  snd (perf_set k v w)
  = with_this (with_perf (<[k := v]> (perf (this w))) (this w)) w.
Proof. reflexivity. Qed.

Lemma perf_delete_state k w :
  perf (this (snd (perf_delete_if_truthy k w)))
  = match perf (this w) !! k with
    | Some v => if (v =? 0)%Z then perf (this w) else delete k (perf (this w))
    | None => perf (this w)
    end /\
  config (this (snd (perf_delete_if_truthy k w))) = config (this w) /\
  checkSanity (this (snd (perf_delete_if_truthy k w))) = checkSanity (this w).
Proof.
  unfold perf_delete_if_truthy, modify_this, modify. cbn.
  destruct (perf (this w) !! k) as [v|]; [destruct (v =? 0)%Z|]; cbn; auto.
Qed.

(** Recording a timing under a name that is no stage and is not yet known to
    be absent. *)
Lemma inv_perf_set c d p k v w :
  ~ In k stage_names -> ~ In k d ->
  detect_inv c d p w -> detect_inv c d (k :: p) (snd (perf_set k v w)).
Proof.
  unfold detect_inv. intros Hk Hd (Hc & Hs & Hpos & Habs & Hpre).
  rewrite perf_set_state. cbn. repeat split; try assumption.
  - apply stage_positive_insert; [tauto | exact Hpos].
  - intros Ha. specialize (Habs Ha).
    rewrite List.Forall_forall in Habs |- *. intros n Hn.
    rewrite lookup_insert_ne by (intros ->; contradiction). now apply Habs.
  - constructor; [rewrite lookup_insert_eq; eauto|].
    rewrite List.Forall_forall in Hpre |- *. intros n Hn.
    apply lookup_insert_is_Some'. right. now apply Hpre.
Qed.

(** The sequential branch of a stage stores a positive timing. *)
Lemma inv_perf_set_stage c d p name v w :
  async c = false -> (0 < v)%Z ->
  detect_inv c d p w -> detect_inv c (name :: d) p (snd (perf_set name v w)).
Proof.
  unfold detect_inv. intros Ha Hv (Hc & Hs & Hpos & Habs & Hpre).
  rewrite perf_set_state. cbn. repeat split; try assumption.
  - apply stage_positive_insert; [auto | exact Hpos].
  - rewrite Ha. discriminate.
  - rewrite List.Forall_forall in Hpre |- *. intros n Hn.
    apply lookup_insert_is_Some'. right. now apply Hpre.
Qed.

Lemma inv_sync_done c d d' p w :
  async c = false -> detect_inv c d p w -> detect_inv c d' p w.
Proof.
  unfold detect_inv. intros Ha (Hc & Hs & Hpos & Habs & Hpre).
  repeat split; try assumption. rewrite Ha. discriminate.
Qed.

(** The concurrent branch of a stage deletes the timing of the stage: it is
    positive when it is there, hence truthy. *)
Lemma inv_perf_delete_stage c d p name w :
  In name stage_names -> ~ In name p ->
  detect_inv c d p w ->
  detect_inv c (name :: d) p (snd (perf_delete_if_truthy name w)).
Proof.
  unfold detect_inv. intros Hn Hp (Hc & Hs & Hpos & Habs & Hpre).
  destruct (perf_delete_state name w) as (-> & -> & ->).
  destruct (perf (this w) !! name) as [v|] eqn:E.
  - assert (Hv : (v =? 0)%Z = false)
      by (apply Z.eqb_neq; specialize (Hpos name v Hn E); lia).
    rewrite Hv. repeat split; try assumption.
    + now apply stage_positive_delete.
    + intros Ha. constructor; [apply lookup_delete_eq|].
      specialize (Habs Ha). rewrite List.Forall_forall in Habs |- *.
      intros n Hin. apply lookup_delete_None. right. now apply Habs.
    + rewrite List.Forall_forall in Hpre |- *. intros n Hin.
      apply lookup_delete_is_Some. split; [intros ->; contradiction|].
      now apply Hpre.
  - repeat split; try assumption.
    intros Ha. constructor; [exact E | exact (Habs Ha)].
Qed.

(** Deleting the gesture timing keeps the invariant. *)
Lemma inv_perf_delete_other c d p k w :
  ~ In k p ->
  detect_inv c d p w -> detect_inv c d p (snd (perf_delete_if_truthy k w)).
Proof.
  unfold detect_inv. intros Hp (Hc & Hs & Hpos & Habs & Hpre).
  destruct (perf_delete_state k w) as (-> & -> & ->).
  destruct (perf (this w) !! k) as [v|] eqn:E; [destruct (v =? 0)%Z|];
    repeat split; try assumption.
  - now apply stage_positive_delete.
  - intros Ha. specialize (Habs Ha). rewrite List.Forall_forall in Habs |- *.
    intros n Hin. apply lookup_delete_None. right. now apply Habs.
  - rewrite List.Forall_forall in Hpre |- *. intros n Hin.
    apply lookup_delete_is_Some. split; [intros ->; contradiction|].
    now apply Hpre.
Qed.

(** *** The steps of [detect] before the stages *)

Lemma not_a_stage k :
  (if existsb (String.eqb k) stage_names then False else True) ->
  ~ In k stage_names.
Proof.
  intros Hk Hin. destruct (existsb (String.eqb k) stage_names) eqn:E; [exact Hk|].
  assert (Ht : existsb (String.eqb k) stage_names = true).
  { apply existsb_exists. exists k. split; [exact Hin | apply String.eqb_refl]. }
  congruence.
Qed.

Ltac base_update :=
  unfold detect_inv; intros; cbn; rewrite ?merge_none;
  match goal with
  | H : _ /\ _ |- _ =>
      let Hc := fresh "Hc" in let Hs := fresh "Hs" in
      let Hpos := fresh "Hpos" in
      destruct H as (Hc & Hs & Hpos & _ & _);
      repeat split;
      [ first [ exact Hc | unfold same_but_backend, set_backend in *; exact Hc ]
      | exact Hs
      | first [ exact Hpos
              | apply stage_positive_insert;
                [ intros Hin; exfalso; revert Hin; apply not_a_stage; exact I
                | exact Hpos ] ]
      | constructor
      | constructor ]
  end.

Lemma inv_checkBackend c force : preserves (detect_inv c [] []) (checkBackend force).
Proof. preserve_with base_update. Qed.

Lemma inv_load c : preserves (detect_inv c [] []) (load no_overrides).
Proof. preserve_with base_update. Qed.

(** *** What the four pipelines answer *)

Lemma run_face_result t w :
  exists r, fst (run_face t w) = Resolved r /\
            (face_enabled (face (config (this w))) = false -> r = Value []).
Proof.
  unfold run_face, bind, get, emit, modify, ret. cbn.
  destruct (face_enabled (face (config (this w)))); cbn; eexists; split;
    try reflexivity; intros; congruence.
Qed.

Lemma run_body_result t w :
  match fst (run_body t w) with
  | Resolved r =>
      body_enabled (body (config (this w))) = false ->
      r = Value [] \/ r = Undefined
  | Pending =>
      body_enabled (body (config (this w))) = true /\
      includes (body_modelPath (body (config (this w)))) "blazepose" = true
  end.
Proof.
  unfold run_body, blazepose.predict, bind, get, emit, modify, ret. cbn.
  repeat match goal with
         | |- context [if ?b then _ else _] => destruct b eqn:?; cbn
         | |- context [models (this w) !! ?k] =>
             destruct (models (this w) !! k) eqn:?; cbn
         | |- context [blazepose_model w] =>
             destruct (blazepose_model w) eqn:?; cbn
         | |- context [find ?f ?l] => destruct (find f l) eqn:?; cbn
         end;
    intros; auto; congruence.
Qed.

Lemma run_hand_result t w :
  exists r, fst (run_hand t w) = Resolved r /\
            (hand_enabled (config (this w)) = false -> r = Value []).
Proof.
  unfold run_hand, bind, get, emit, modify, ret. cbn.
  destruct (hand_enabled (config (this w)));
    [destruct (models (this w) !! "handpose")|]; cbn; eexists; split;
    try reflexivity; intros; congruence.
Qed.

Lemma run_object_result t w :
  object_enabled (object (config (this w))) = false ->
  fst (run_object t w) = Resolved (Value []).
Proof. intros H. unfold run_object, bind, get. cbn. now rewrite H. Qed.

(** *** One stage *)

Lemma stage_spec {A} c d p (R : Promise A -> Prop)
    (Q : Promise Outcome -> World -> Prop) cell name run k :
  In name stage_names -> ~ In name p ->
  hoare (detect_inv c d p) run (fun a w => detect_inv c d p w /\ R a) ->
  (R Pending -> forall w, detect_inv c d p w -> Q cell w) ->
  (forall a, R a -> hoare (detect_inv c (name :: d) p) (k a) Q) ->
  hoare (detect_inv c d p) (stage cell name run run k) Q.
Proof.
  intros Hn Hp Hrun Hpend Hk. unfold stage.
  apply hoare_get. intros w0 H0.
  assert (Ha : async (config (this w0)) = async c)
    by (destruct H0 as (Hc & _); now apply same_but_backend_fields in Hc).
  rewrite Ha. destruct (async c) eqn:Hasync.
  - eapply hoare_bind; [exact Hrun|]. intros a. cbv beta.
    intros w [HI HR]. unfold bind.
    exact (Hk a HR _ (inv_perf_delete_stage c d p name w Hn Hp HI)).
  - apply hoare_step; [apply inv_set_state|]. intros _.
    apply hoare_step; [apply inv_now|]. intros timeStamp.
    eapply hoare_bind; [exact Hrun|]. intros a. cbv beta.
    destruct a as [r|].
    + intros w [HI HR]. unfold bind, now. cbn [fst snd].
      match goal with
      | |- context [when ?b ?m] => destruct b eqn:Hb; unfold when
      end.
      * match goal with
        | |- context [perf_set name ?v ?w1] =>
            assert (H1 : detect_inv c (name :: d) p (snd (perf_set name v w1)))
        end.
        { apply inv_perf_set_stage; [exact Hasync | now apply Z.ltb_lt|].
          revert HI. unfold detect_inv. cbn. tauto. }
        exact (Hk _ HR _ H1).
      * unfold ret. cbn [fst snd].
        apply (Hk _ HR). apply inv_sync_done with d; [exact Hasync|].
        revert HI. unfold detect_inv. cbn. tauto.
    + intros w [HI HR]. exact (Hpend HR w HI).
Qed.

(** *** The tail and the whole of [detect] *)

Lemma hoare_fact {A} (P : World -> Prop) (F : Prop) (Q : A -> World -> Prop)
    (m : M A) :
  (F -> hoare P m Q) -> hoare (fun w => P w /\ F) m Q.
Proof. intros H w [HP HF]. exact (H HF w HP). Qed.

Lemma inv_present_tail c d k p w :
  detect_inv c d (k :: p) w -> detect_inv c d p w.
Proof.
  unfold detect_inv. intros (Hc & Hs & Hpos & Habs & Hpre).
  repeat split; try assumption. now inversion Hpre.
Qed.

Lemma inv_done_incl c d d' p w :
  incl d' d -> detect_inv c d p w -> detect_inv c d' p w.
Proof.
  unfold detect_inv. intros Hincl (Hc & Hs & Hpos & Habs & Hpre).
  repeat split; try assumption. intros Ha. specialize (Habs Ha).
  rewrite List.Forall_forall in Habs |- *. intros n Hn. apply Habs, Hincl, Hn.
Qed.

Lemma finish_spec c timeStart canvas f b h o :
  (face_enabled (face c) = false -> f = Value []) ->
  (body_enabled (body c) = false -> b = Value [] \/ b = Undefined) ->
  (hand_enabled c = false -> h = Value []) ->
  (object_enabled (object c) = false -> o = Value []) ->
  hoare (detect_inv c stage_names ["image"%string])
        (finish Pending timeStart canvas f b h o) (detect_post c).
Proof.
  intros Hf Hb Hh Ho. unfold finish.
  apply hoare_step; [apply inv_analyze|]. intros _.
  apply hoare_get. intros w0 H0. cbv zeta.
  assert (Hg : gesture_enabled (config (this w0)) = gesture_enabled c /\
               async (config (this w0)) = async c).
  { destruct H0 as (Hc & _). apply same_but_backend_fields in Hc. tauto. }
  destruct Hg as [-> ->].
  apply hoare_bind
    with (R := fun g w => detect_inv c stage_names ["image"%string] w /\
                          (gesture_enabled c = false -> g = [])).
  - destruct (gesture_enabled c); [|apply hoare_ret; auto].
    apply hoare_step; [apply inv_now|]. intros timeStamp.
    apply hoare_bind with (R := fun _ w => detect_inv c stage_names ["image"%string] w).
    + destruct (async c); cbn [negb].
      * intros w HI. apply inv_perf_delete_other; [|exact HI].
        cbn. intros [H|[]]. discriminate H.
      * apply hoare_step; [apply inv_now|]. intros t. intros w HI.
        apply inv_present_tail with "gesture"%string.
        apply inv_perf_set; [apply not_a_stage; exact I | | exact HI].
        apply not_a_stage. exact I.
    + intros _. apply hoare_ret. intros w HI. split; [exact HI | discriminate].
  - intros g. cbv beta. intros w [HI Hg].
    unfold bind, now, set_state, get, ret, modify_this, modify. cbn [fst snd].
    match goal with
    | |- context [perf_set "total" ?v ?w1] =>
        assert (H1 : detect_inv c stage_names ["total"%string; "image"%string]
                       (snd (perf_set "total" v w1)))
    end.
    { apply inv_perf_set; [apply not_a_stage; exact I | apply not_a_stage; exact I|].
      revert HI. unfold detect_inv. cbn. tauto. }
    rewrite perf_set_state in H1. unfold perf_set, modify_this, modify.
    destruct H1 as (Hc & Hs & Hpos & Habs & Hpre).
    cbn in Hc, Hs, Hpos, Habs, Hpre.
    unfold detect_post. cbn.
    inversion Hpre as [|? ? Htot Hpre']; subst.
    inversion Hpre' as [|? ? Himg _]; subst.
    repeat split; assumption.
Qed.

Lemma detect_spec (input : option Input) (u : Overrides) (c : Config) :
  hoare (fun w => mergeDeep (config (this w)) u = c /\
                  checkSanity (this w) = false /\
                  stage_positive (perf (this w)))
        (detect input u) (detect_post c).
Proof.
  unfold detect.
  apply hoare_step; [preserve_with ltac:(intros; cbn; assumption)|]. intros _.
  apply hoare_bind with (R := fun _ w => detect_inv c [] [] w).
  { intros w (Hc & Hs & Hpos). unfold detect_inv, modify_this, modify. cbn.
    rewrite Hc. repeat split; try assumption; constructor. }
  intros _.
  apply hoare_step; [preserve_with frame_update|]. intros _.
  apply hoare_step; [apply inv_set_state|]. intros _.
  apply hoare_bind with (R := fun e w => detect_inv c [] [] w /\ e = None).
  { intros w HI. unfold sanity, bind, get.
    destruct HI as (Hc & Hs & Hrest). rewrite Hs. cbn.
    split; [|reflexivity]. repeat split; tauto. }
  intros error. apply hoare_fact. intros ->. cbv zeta.
  apply hoare_step; [apply inv_now|]. intros timeStart.
  apply hoare_step; [apply inv_checkBackend|]. intros _.
  apply hoare_step; [apply inv_load|]. intros _.
  apply hoare_step; [apply inv_analyze|]. intros _.
  apply hoare_step; [apply inv_now|]. intros timeStamp.
  apply hoare_get. intros w0 H0.
  destruct (image_process input (config (this w0))) as [[tensor canvas]|].
  2:{ apply hoare_ret. intros w (Hc & Hs & Hpos & _). cbn.
      unfold detect_post. auto. }
  apply hoare_step; [apply inv_now|]. intros t.
  apply hoare_bind with (R := fun _ w => detect_inv c [] ["image"%string] w).
  { intros w HI. apply inv_perf_set; [apply not_a_stage; exact I | | exact HI].
    intros []. }
  intros _.
  assert (Hpend : forall d p w,
            object_enabled (object c) = true \/
            (body_enabled (body c) = true /\
             includes (body_modelPath (body c)) "blazepose" = true) ->
            detect_inv c d p w -> detect_post c Pending w).
  { intros d p w Ho (Hc & Hs & Hpos & _). unfold detect_post. auto. }
  apply hoare_step; [apply inv_analyze|]. intros _.
  apply stage_spec
    with (R := fun a => exists r, a = Resolved r /\
                          (face_enabled (face c) = false -> r = Value [])).
  { cbn. auto. }
  { cbn. intros [H|[]]. discriminate H. }
  { apply hoare_result; [apply inv_run_face|]. intros w (Hc & _).
    destruct (run_face_result tensor w) as (r & Hr & Hd). exists r.
    apply same_but_backend_fields in Hc. destruct Hc as (_ & <- & _). auto. }
  { intros (r & Hr & _). discriminate Hr. }
  intros faceP (faceRes & -> & Hface).
  apply hoare_step; [apply inv_analyze|]. intros _.
  apply stage_spec
    with (R := fun a =>
                 match a with
                 | Resolved r =>
                     body_enabled (body c) = false -> r = Value [] \/ r = Undefined
                 | Pending =>
                     body_enabled (body c) = true /\
                     includes (body_modelPath (body c)) "blazepose" = true
                 end).
  { cbn. auto. }
  { cbn. intros [H|[]]. discriminate H. }
  { apply hoare_result; [apply inv_run_body|]. intros w (Hc & _).
    pose proof (run_body_result tensor w) as Hr.
    apply same_but_backend_fields in Hc. destruct Hc as (_ & _ & <- & _).
    exact Hr. }
  { intros Hb w HI. eapply Hpend; [right; exact Hb | exact HI]. }
  intros bodyP Hbody.
  apply hoare_step; [apply inv_analyze|]. intros _.
  apply hoare_step; [apply inv_analyze|]. intros _.
  apply stage_spec
    with (R := fun a => exists r, a = Resolved r /\
                          (hand_enabled c = false -> r = Value [])).
  { cbn. auto. }
  { cbn. intros [H|[]]. discriminate H. }
  { apply hoare_result; [apply inv_run_hand|]. intros w (Hc & _).
    destruct (run_hand_result tensor w) as (r & Hr & Hd). exists r.
    apply same_but_backend_fields in Hc. destruct Hc as (_ & _ & _ & <- & _). auto. }
  { intros (r & Hr & _). discriminate Hr. }
  intros handP (handRes & -> & Hhand).
  apply hoare_step; [apply inv_analyze|]. intros _.
  apply hoare_step; [apply inv_analyze|]. intros _.
  apply stage_spec
    with (R := fun a => object_enabled (object c) = false ->
                        a = Resolved (Value [])).
  { cbn. auto. }
  { cbn. intros [H|[]]. discriminate H. }
  { apply hoare_result; [apply inv_run_object|]. intros w (Hc & _) Ho.
    apply run_object_result.
    apply same_but_backend_fields in Hc. destruct Hc as (_ & _ & _ & _ & -> & _).
    exact Ho. }
  { intros Ho w HI. eapply Hpend; [left|exact HI].
    destruct (object_enabled (object c)); [reflexivity|].
    specialize (Ho eq_refl). discriminate Ho. }
  intros objectP Hobj.
  apply hoare_step; [apply inv_analyze|]. intros _.
  destruct bodyP as [bodyRes|].
  2:{ apply hoare_ret. intros w HI. eapply Hpend; [right; exact Hbody | exact HI]. }
  destruct objectP as [objectRes|].
  - eapply hoare_pre; [|apply finish_spec; try assumption].
    + intros w HI. apply inv_done_incl with (2 := HI).
      intros n Hn. cbn in Hn |- *. tauto.
    + intros Ho. specialize (Hobj Ho). now injection Hobj.
  - apply hoare_ret. intros w HI. eapply Hpend; [left|exact HI].
    destruct (object_enabled (object c)); [reflexivity|].
    specialize (Hobj eq_refl). discriminate Hobj.
Qed.

(** *** Instances stay healthy *)

Lemma stage_positive_empty : stage_positive ∅.
Proof. intros n v _ H. rewrite lookup_empty in H. discriminate H. Qed.

Lemma detect_outcome (input : option Input) (u : Overrides) (w : World) :
  healthy w ->
  detect_post (mergeDeep (config (this w)) u)
              (fst (detect input u w)) (snd (detect input u w)).
Proof.
  intros [Hs Hpos].
  exact (detect_spec input u _ w (conj eq_refl (conj Hs Hpos))).
Qed.

Lemma detect_healthy input u : preserves healthy (detect input u).
Proof.
  intros w H. destruct (detect_outcome input u w H) as (_ & Hs & Hpos & _).
  split; assumption.
Qed.

Ltac healthy_update :=
  unfold healthy; intros; cbn;
  match goal with
  | H : _ /\ _ |- _ =>
      let Hs := fresh "Hs" in let Hpos := fresh "Hpos" in
      destruct H as (Hs & Hpos);
      split;
      [ exact Hs
      | first [ exact Hpos
              | apply stage_positive_insert;
                [ intros Hin; exfalso; revert Hin; apply not_a_stage; exact I
                | exact Hpos ] ] ]
  end.

Lemma load_healthy u : preserves healthy (load u).
Proof. preserve_with healthy_update. Qed.

Lemma warmupBitmap_healthy : preserves healthy warmupBitmap.
Proof.
  unfold warmupBitmap. apply preserves_bind; [apply preserves_get|].
  intros w0. cbv zeta.
  repeat match goal with
         | |- context [if ?b then _ else _] => destruct b
         end;
    first [ apply preserves_ret
          | apply preserves_bind;
            [apply detect_healthy | intro; apply preserves_ret] ].
Qed.

Lemma warmupCanvas_healthy : preserves healthy warmupCanvas.
Proof.
  unfold warmupCanvas. apply preserves_bind; [apply preserves_get|].
  intros w0. cbv zeta.
  repeat match goal with
         | |- context [if ?b then _ else _] => destruct b
         end;
    first [ apply preserves_ret
          | apply preserves_bind;
            [apply detect_healthy | intro; apply preserves_ret] ].
Qed.

Lemma warmupNode_healthy : preserves healthy warmupNode.
Proof.
  unfold warmupNode. apply preserves_bind; [apply preserves_get|].
  intros w0. cbv zeta.
  apply preserves_bind; [apply detect_healthy | intro; apply preserves_ret].
Qed.

Lemma warmup_healthy u : preserves healthy (warmup u).
Proof.
  unfold warmup.
  apply preserves_bind; [preserve_with healthy_update|]. intros t0.
  apply preserves_bind; [preserve_with healthy_update|]. intros _.
  apply preserves_bind; [apply preserves_get|]. intros w0. cbv zeta.
  apply preserves_bind; [preserve_with healthy_update|]. intros _.
  apply preserves_bind.
  - destruct (has_createImageBitmap w0); [apply warmupBitmap_healthy|].
    destruct (has_Image w0); [apply warmupCanvas_healthy | apply warmupNode_healthy].
  - intros [res|]; preserve_with healthy_update.
Qed.

End DetectFacts.

(** X15.  On a new instance sanity checking is off and no stage timing is
    stored; [load], [detect] and [warmup] keep sanity checking off and never
    leave a [face], [body], [hand] or [object] timing that is zero or
    negative. *)
Theorem instances_stay_healthy `{ObjectRuntime} `{Collaborators} :
  (forall cfg be node browser bitmap image,
     healthy (initial_world cfg be node browser bitmap image)) /\
  (forall w u, healthy w -> healthy (snd (load u w))) /\
  (forall w input u, healthy w -> healthy (snd (detect input u w))) /\
  (forall w u, healthy w -> healthy (snd (warmup u w))).
Proof.
  split; [|split; [|split]].
  - intros. split; [reflexivity | apply stage_positive_empty].
  - intros w u Hw. exact (load_healthy u w Hw).
  - intros w input u Hw. exact (detect_healthy input u w Hw).
  - intros w u Hw. exact (warmup_healthy u w Hw).
Qed.

(** X16.  On a healthy instance, whatever the input and the overrides, the
    only error [detect] resolves with is the conversion error of the
    pre-processing step. *)
Theorem detect_fails_only_on_conversion `{ObjectRuntime} `{Collaborators}
    (w : World) (input : option Input) (u : Overrides) (e : string) :
  healthy w ->
  fst (detect input u w) = Resolved (Failed e) ->
  e = "could not convert input to tensor"%string.
Proof.
  intros Hw E. destruct (detect_outcome input u w Hw) as (_ & _ & _ & Hp).
  rewrite E in Hp. exact Hp.
Qed.

(** X17.  On a healthy instance whose merged configuration disables the
    object pipeline and does not run blazepose (the body pipeline is disabled,
    or its model path does not name blazepose), [detect] always settles: only
    the object stage and blazepose can leave its promise pending. *)
Theorem detect_settles_without_object_and_blazepose `{ObjectRuntime} `{Collaborators}
    (w : World) (input : option Input) (u : Overrides) :
  let c := mergeDeep (config (this w)) u in
  healthy w ->
  object_enabled (object c) = false ->
  body_enabled (body c) = false \/
  includes (body_modelPath (body c)) "blazepose" = false ->
  exists o, fst (detect input u w) = Resolved o.
Proof.
  intros c Hw Ho Hb. subst c.
  destruct (detect_outcome input u w Hw) as (_ & _ & _ & Hp).
  destruct (fst (detect input u w)) as [o|]; [now exists o|].
  destruct Hp as [Hp|[Hp1 Hp2]]; [congruence|].
  destruct Hb as [Hb|Hb]; congruence.
Qed.

(** X18.  The overrides of a [detect] call on a healthy instance are not
    per-call: after the call the
    configuration of the instance is the merged configuration, up to the
    backend name, which [#checkBackend] may have mapped. *)
Theorem detect_keeps_the_overrides `{ObjectRuntime} `{Collaborators}
    (w : World) (input : option Input) (u : Overrides) :
  healthy w ->
  config (this (snd (detect input u w)))
  = set_backend (backend (config (this (snd (detect input u w)))))
                (mergeDeep (config (this w)) u).
Proof.
  intros Hw. destruct (detect_outcome input u w Hw) as (Hc & _).
  unfold same_but_backend in Hc.
  destruct (config (this (snd (detect input u w)))).
  unfold set_backend in *. cbn in *. injection Hc as <- <- <- <- <- <- <- <- <- <- <- <- <-.
  reflexivity.
Qed.

(** X19.  A result [detect] resolves with on a healthy instance carries the timings of the instance
    as they are when the call ends, among them a [total] and an [image]
    entry, and the instance is back in state [idle]. *)
Theorem detect_report_has_total_and_image `{ObjectRuntime} `{Collaborators}
    (w : World) (input : option Input) (u : Overrides) (r : Result) :
  healthy w ->
  fst (detect input u w) = Resolved (Detected r) ->
  r_performance r = perf (this (snd (detect input u w))) /\
  state (this (snd (detect input u w))) = "idle"%string /\
  is_Some (r_performance r !! "total") /\
  is_Some (r_performance r !! "image").
Proof.
  intros Hw E. destruct (detect_outcome input u w Hw) as (_ & _ & _ & Hp).
  rewrite E in Hp. tauto.
Qed.

(** X20.  In concurrent mode the report of [detect] on a healthy instance has no [face], [body],
    [hand] or [object] timing, whatever earlier sequential calls stored. *)
Theorem detect_concurrent_report_drops_stage_timings `{ObjectRuntime} `{Collaborators}
    (w : World) (input : option Input) (u : Overrides) (r : Result) :
  healthy w ->
  async (mergeDeep (config (this w)) u) = true ->
  fst (detect input u w) = Resolved (Detected r) ->
  r_performance r !! "face" = None /\ r_performance r !! "body" = None /\
  r_performance r !! "hand" = None /\ r_performance r !! "object" = None.
Proof.
  intros Hw Ha E. destruct (detect_outcome input u w Hw) as (_ & _ & _ & Hp).
  rewrite E in Hp. destruct Hp as (_ & _ & _ & _ & Habs & _).
  specialize (Habs Ha).
  inversion Habs as [|? ? H1 Habs1]; subst.
  inversion Habs1 as [|? ? H2 Habs2]; subst.
  inversion Habs2 as [|? ? H3 Habs3]; subst.
  inversion Habs3 as [|? ? H4 _]; subst.
  auto.
Qed.

(** X21.  On a healthy instance a pipeline disabled in the merged configuration
    contributes nothing to the result: [face], [hand] and [object] are empty arrays, [gesture] is
    empty, and [body] is an empty array or, for a model path that names no
    known body model, [undefined]. *)
Theorem detect_disabled_pipelines_report_nothing `{ObjectRuntime} `{Collaborators}
    (w : World) (input : option Input) (u : Overrides) (r : Result) :
  healthy w ->
  fst (detect input u w) = Resolved (Detected r) ->
  let c := mergeDeep (config (this w)) u in
  (face_enabled (face c) = false -> r_face r = Value []) /\
  (body_enabled (body c) = false -> r_body r = Value [] \/ r_body r = Undefined) /\
  (hand_enabled c = false -> r_hand r = Value []) /\
  (object_enabled (object c) = false -> r_object r = Value []) /\
  (gesture_enabled c = false -> r_gesture r = []).
Proof.
  intros Hw E c. destruct (detect_outcome input u w Hw) as (_ & _ & _ & Hp).
  rewrite E in Hp. subst c. tauto.
Qed.

Section LoadMore.
Context {RT : ObjectRuntime} {CO : Collaborators}.


End LoadMore.


(** ** The pipelines [detect] leaves alone *)

Section Silent.
Context {RT : ObjectRuntime} {CO : Collaborators}.

Lemma preserves_get_bind {B} (I : World -> Prop) (k : World -> M B) :
  (forall w0, I w0 -> preserves I (k w0)) -> preserves I (bind get k).
Proof. intros H w HI. exact (H w HI w HI). Qed.

Lemma silent_fields c names evs w :
  silent_inv c names evs w ->
  face (config (this w)) = face c /\ body (config (this w)) = body c /\
  hand_enabled (config (this w)) = hand_enabled c /\
  object (config (this w)) = object c.
Proof.
  intros [Hc _]. apply same_but_backend_fields in Hc. tauto.
Qed.

(** Walks through a computation like [preserve_with], but keeps what the
    invariant says about the state a [get] reads: [use] rewrites with it. *)
Ltac walk_with use fin :=
  lazymatch goal with
  | |- preserves _ (bind get _) =>
      apply preserves_get_bind;
      let w0 := fresh "w0" in let H0 := fresh "H0" in
      intros w0 H0; cbv zeta; use H0; cbv iota; walk_with use fin
  | |- preserves _ (bind _ _) =>
      apply preserves_bind; [walk_with use fin | intro; walk_with use fin]
  | |- preserves _ (ret _) => apply preserves_ret
  | |- preserves _ get => apply preserves_get
  | |- preserves _ now => apply preserves_now; fin
  | |- preserves _ (modify _) => apply preserves_modify; fin
  | |- preserves _ (if ?b then _ else _) => destruct b; walk_with use fin
  | |- preserves _ (match ?x with _ => _ end) => destruct x; walk_with use fin
  | |- preserves _ (let _ := _ in _) => cbv zeta; walk_with use fin
  | |- preserves _ ?m =>
      let h := head_of m in unfold h; walk_with use fin
  end.

Ltac silent_update :=
  unfold silent_inv; intros; cbn; rewrite ?merge_none;
  repeat match goal with
         | |- context [match ?x with _ => _ end] => destruct x
         end;
  cbn;
  match goal with
  | H : _ /\ _ |- _ =>
      let Hc := fresh "Hc" in let Hf := fresh "Hf" in
      destruct H as (Hc & Hf);
      split;
      [ first [ exact Hc | unfold same_but_backend, set_backend in *; exact Hc ]
      | first [ exact Hf
              | rewrite List.filter_app; cbn; rewrite app_nil_r; exact Hf ] ]
  end.



Ltac silent_detect Hoff c names evs :=
  unfold detect;
  match goal with
  | |- hoare ?P _ _ => apply hoare_bind with (R := fun _ => P)
  end;
  [intros w H; exact H|];
  intros _;
  apply hoare_bind with (R := fun _ w => silent_inv c names evs w);
  [ intros w [Hc Hf]; unfold silent_inv, modify_this, modify; cbn;
    rewrite Hc; split; [reflexivity | exact Hf]
  | intros _;
    match goal with |- hoare ?P ?m _ => change (preserves P m) end;
    walk_with
      ltac:(fun H0 =>
              let Ef := fresh "E" in let Eb := fresh "E" in
              let Eh := fresh "E" in let Eo := fresh "E" in
              pose proof (silent_fields _ _ _ _ H0) as (Ef & Eb & Eh & Eo);
              rewrite ?Ef, ?Eb, ?Eh, ?Eo, ?Hoff; clear Ef Eb Eh Eo)
      silent_update ].

Lemma detect_silent_face c evs input u :
  face_enabled (face c) = false ->
  hoare (fun w => mergeDeep (config (this w)) u = c /\
                  List.filter (invokes ["face"%string]) (trace w) = evs)
        (detect input u)
        (fun _ w => silent_inv c ["face"%string] evs w).
Proof. intros Hoff. silent_detect Hoff c ["face"%string] evs. Qed.

Lemma detect_silent_body c evs input u :
  body_enabled (body c) = false ->
  hoare (fun w => mergeDeep (config (this w)) u = c /\
                  List.filter
                    (invokes ["posenet"; "blazepose"; "efficientpose"]%string)
                    (trace w) = evs)
        (detect input u)
        (fun _ w =>
           silent_inv c ["posenet"; "blazepose"; "efficientpose"]%string evs w).
Proof.
  intros Hoff.
  silent_detect Hoff c ["posenet"; "blazepose"; "efficientpose"]%string evs.
Qed.

Lemma detect_silent_hand c evs input u :
  hand_enabled c = false ->
  hoare (fun w => mergeDeep (config (this w)) u = c /\
                  List.filter (invokes ["handpose"%string]) (trace w) = evs)
        (detect input u)
        (fun _ w => silent_inv c ["handpose"%string] evs w).
Proof. intros Hoff. silent_detect Hoff c ["handpose"%string] evs. Qed.

Lemma detect_silent_object c evs input u :
  object_enabled (object c) = false ->
  hoare (fun w => mergeDeep (config (this w)) u = c /\
                  List.filter (invokes ["nanodet"%string]) (trace w) = evs)
        (detect input u)
        (fun _ w => silent_inv c ["nanodet"%string] evs w).
Proof. intros Hoff. silent_detect Hoff c ["nanodet"%string] evs. Qed.

End Silent.

(** X24.  [detect] never invokes a pipeline that is disabled in the merged
    configuration: the face pipeline, the body models (posenet, blazepose,
    efficientpose), the hand model and the object model are each left alone
    when their pipeline is disabled. *)
Theorem detect_never_invokes_a_disabled_pipeline `{ObjectRuntime} `{Collaborators}
    (w : World) (input : option Input) (u : Overrides) :
  let c := mergeDeep (config (this w)) u in
  let w' := snd (detect input u w) in
  (face_enabled (face c) = false ->
   List.filter (invokes ["face"%string]) (trace w')
   = List.filter (invokes ["face"%string]) (trace w)) /\
  (body_enabled (body c) = false ->
   List.filter (invokes ["posenet"; "blazepose"; "efficientpose"]%string) (trace w')
   = List.filter (invokes ["posenet"; "blazepose"; "efficientpose"]%string) (trace w)) /\
  (hand_enabled c = false ->
   List.filter (invokes ["handpose"%string]) (trace w')
   = List.filter (invokes ["handpose"%string]) (trace w)) /\
  (object_enabled (object c) = false ->
   List.filter (invokes ["nanodet"%string]) (trace w')
   = List.filter (invokes ["nanodet"%string]) (trace w)).
Proof.
  cbv zeta. repeat split; intros Hoff.
  - exact (proj2 (detect_silent_face _ _ input u Hoff w (conj eq_refl eq_refl))).
  - exact (proj2 (detect_silent_body _ _ input u Hoff w (conj eq_refl eq_refl))).
  - exact (proj2 (detect_silent_hand _ _ input u Hoff w (conj eq_refl eq_refl))).
  - exact (proj2 (detect_silent_object _ _ input u Hoff w (conj eq_refl eq_refl))).
Qed.

(** ** The backend and the warm-up modes *)

Section BackendFacts.
Context {RT : ObjectRuntime} {CO : Collaborators}.

Lemma checkBackend_idle force w :
  backend_requested force w = false ->
  trace (snd (checkBackend force w)) = trace w /\
  tf_backend (snd (checkBackend force w)) = tf_backend w /\
  config (this (snd (checkBackend force w))) = config (this w).
Proof.
  unfold backend_requested. cbv zeta. intros Hreq.
  unfold checkBackend, bind, get. cbn.
  destruct (backend (config (this w)) =? "")%string eqn:Hb; cbn in Hreq |- *.
  - destruct (negb (tf_backend w =? backend (config (this w)))%string);
      cbn; auto.
  - apply orb_false_iff in Hreq. destruct Hreq as [-> ->]. cbn. auto.
Qed.

Lemma checkBackend_request force w :
  backend_requested force w = true ->
  let w' := snd (checkBackend force w) in
  let b := backend (config (this w')) in
  trace w' = (trace w ++ [EvSetBackend b])%list /\
  config (this w') = set_backend b (config (this w)) /\
  tf_backend w' = (if backend_available b then b else tf_backend w) /\
  is_Some (perf (this w') !! "backend") /\
  b <> ""%string /\
  (IS_NODE w = true -> b <> "webgl"%string /\ b <> "wasm"%string) /\
  (IS_NODE w = false -> IS_BROWSER w = true -> b <> "tensorflow"%string).
Proof.
  unfold backend_requested. cbv zeta. intros Hreq.
  apply andb_prop in Hreq. destruct Hreq as [Hb Hreq].
  apply negb_true_iff in Hb.
  unfold checkBackend, bind, get. cbn. rewrite Hb. cbn [negb andb].
  rewrite Hreq.
  unfold now, set_state, when, set_config_backend, emit, perf_set, modify_this,
    modify, ret, bind, get. cbn.
  apply String.eqb_neq in Hb.
  destruct (IS_BROWSER w) eqn:Hbr; destruct (IS_NODE w) eqn:Hnode; cbn;
    repeat match goal with
           | |- context [(?x =? ?y)%string] =>
               let E := fresh "E" in
               destruct (x =? y)%string eqn:E; cbn;
               [apply String.eqb_eq in E | apply String.eqb_neq in E]
           end.
  all: match goal with
       | |- context [if backend_available ?b then _ else _] =>
           let Hav := fresh "Hav" in
           destruct (backend_available b) eqn:Hav; cbn; rewrite ?Hav
       end.
  all: rewrite ?set_backend_id.
  all: repeat split; try reflexivity; try (rewrite lookup_insert_eq; eauto);
       try congruence; try discriminate.
Qed.



Lemma warmup_unknown_mode (u : Overrides) (w : World) :
  let c := mergeDeep (config (this w)) u in
  let w' := snd (warmup u w) in
  let skipped_ :=
    if has_createImageBitmap w
    then negb (warmup_mode c =? "face")%string && negb (warmup_mode c =? "full")%string
    else has_Image w && negb (warmup_mode c =? "face")%string
         && negb (warmup_mode c =? "full")%string
         && negb (warmup_mode c =? "body")%string in
  skipped_ = true ->
  fst (warmup u w)
  = Resolved (if has_createImageBitmap w then Undefined else Null) /\
  trace w' = trace w /\ config (this w') = c /\
  models (this w') = models (this w) /\ perf (this w') = perf (this w) /\
  nanodet_vars w' = nanodet_vars w.
Proof.
  cbv zeta.
  unfold warmup, warmupBitmap, warmupCanvas, bind, get, now, modify_this, modify, ret.
  cbn -[mergeDeep].
  generalize (mergeDeep (config (this w)) u). intros c Hskip.
  destruct (has_createImageBitmap w); cbn.
  - apply andb_prop in Hskip. destruct Hskip as [H1 H2].
    apply negb_true_iff in H1, H2. rewrite H1, H2. cbn.
    destruct c. repeat split.
  - apply andb_prop in Hskip. destruct Hskip as [Hskip H3].
    apply andb_prop in Hskip. destruct Hskip as [Hskip H2].
    apply andb_prop in Hskip. destruct Hskip as [Himg H1].
    apply negb_true_iff in H1, H2, H3. rewrite Himg. cbn.
    rewrite H1. cbn. rewrite H2, H3. cbn.
    destruct c. repeat split.
Qed.

Lemma checkBackend_in_step w :
  tf_backend w = backend (config (this w)) -> checkBackend false w = (tt, w).
Proof.
  intros E. unfold checkBackend, bind, get. cbn. rewrite E.
  rewrite String.eqb_refl, andb_false_r. reflexivity.
Qed.

End BackendFacts.

(** X12.  [#checkBackend] asks the engine for a backend exactly when the
    configured backend is not the empty string and either [force] is set or
    the engine runs another backend.  It then asks once, for the configured
    backend after the platform mapping ([tensorflow] becomes [webgl] in a
    browser, [webgl] and [wasm] become [tensorflow] under node), writes the
    mapped name back to the configuration, and records the [backend] timing;
    the engine switches only if it accepts the backend.  Otherwise the engine,
    its backend and the configuration are left alone. *)
Theorem checkBackend_asks_for_a_platform_backend `{ObjectRuntime} `{Collaborators}
    (force : bool) (w : World) :
  let w' := snd (checkBackend force w) in
  let b := backend (config (this w')) in
  if backend_requested force w
  then trace w' = (trace w ++ [EvSetBackend b])%list /\
       config (this w') = set_backend b (config (this w)) /\
       tf_backend w' = (if backend_available b then b else tf_backend w) /\
       is_Some (perf (this w') !! "backend") /\
       b <> ""%string /\
       (IS_NODE w = true -> b <> "webgl"%string /\ b <> "wasm"%string) /\
       (IS_NODE w = false -> IS_BROWSER w = true -> b <> "tensorflow"%string)
  else trace w' = trace w /\ tf_backend w' = tf_backend w /\
       config (this w') = config (this w).
Proof.
  cbv zeta. destruct (backend_requested force w) eqn:Hreq.
  - exact (checkBackend_request force w Hreq).
  - exact (checkBackend_idle force w Hreq).
Qed.

(** X13.  Once the engine has accepted the backend [#checkBackend] asked for,
    a following [#checkBackend(false)] does nothing at all. *)
Theorem checkBackend_accepted_is_not_asked_again `{ObjectRuntime} `{Collaborators}
    (force : bool) (w : World) :
  backend_requested force w = true ->
  backend_available (backend (config (this (snd (checkBackend force w))))) = true ->
  checkBackend false (snd (checkBackend force w))
  = (tt, snd (checkBackend force w)).
Proof.
  intros Hreq Hav.
  destruct (checkBackend_request force w Hreq) as (_ & _ & Htf & _).
  cbv zeta in Htf. rewrite Hav in Htf.
  now apply checkBackend_in_step.
Qed.

(** X14.  When the warm-up mode names no sample image of the platform branch
    taken (neither [face] nor [full] with [createImageBitmap]; neither
    [face], [full] nor [body] with [Image] only), [warmup] runs no detection:
    it resolves with [undefined] in the bitmap branch and [null] in the canvas
    branch, touches neither the engine, the models, the timings nor the
    frame-skip cache, and leaves the merged configuration in place. *)
Theorem warmup_without_a_sample_detects_nothing `{ObjectRuntime} `{Collaborators}
    (u : Overrides) (w : World) :
  let c := mergeDeep (config (this w)) u in
  let w' := snd (warmup u w) in
  (if has_createImageBitmap w
   then negb (warmup_mode c =? "face")%string && negb (warmup_mode c =? "full")%string
   else has_Image w && negb (warmup_mode c =? "face")%string
        && negb (warmup_mode c =? "full")%string
        && negb (warmup_mode c =? "body")%string) = true ->
  fst (warmup u w)
  = Resolved (if has_createImageBitmap w then Undefined else Null) /\
  trace w' = trace w /\ config (this w') = c /\
  models (this w') = models (this w) /\ perf (this w') = perf (this w) /\
  nanodet_vars w' = nanodet_vars w.
Proof. exact (warmup_unknown_mode u w). Qed.


(** ** The key points of blazepose *)

Section KeypointFacts.
Variables (exp_ : Q -> Q) (full upper : list string) (image : Image).

Lemma keypoints_length points :
  List.length (keypoints exp_ full upper image points)
  = ((List.length points + 4) / 5)%nat.
Proof. unfold keypoints. now rewrite List.length_map, List.length_seq. Qed.

Lemma keypoints_nth points i :
  (i < (List.length points + 4) / 5)%nat ->
  nth_error (keypoints exp_ full upper image points) i
  = Some (keypoint exp_ (if (List.length points =? 195)%nat then full else upper)
                   (width image) (height image) points i).
Proof.
  intros Hi. unfold keypoints. cbv zeta.
  rewrite nth_error_map, nth_error_seq.
  assert (Hlt : (i <? (List.length points + 4) / 5)%nat = true)
    by now apply Nat.ltb_lt.
  rewrite Hlt. reflexivity.
Qed.

Lemma keypoints_shape points :
  List.length points = 195%nat \/ List.length points = 155%nat ->
  let kps := keypoints exp_ full upper image points in
  List.length kps = (if (List.length points =? 195)%nat then 39 else 31)%nat /\
  map kp_id kps = seq 0 (List.length kps) /\
  map kp_part kps
  = map (nth_error (if (List.length points =? 195)%nat then full else upper))
        (seq 0 (List.length kps)).
Proof.
  intros Hlen kps. subst kps.
  rewrite keypoints_length.
  assert (Hn : ((List.length points + 4) / 5
                = if (List.length points =? 195)%nat then 39 else 31)%nat)
    by (destruct Hlen as [-> | ->]; reflexivity).
  split; [exact Hn|].
  unfold keypoints. cbv zeta. rewrite !map_map. cbn [kp_id kp_part keypoint].
  split; [apply map_id | reflexivity].
Qed.

Lemma reverse_sigmoid_unit v :
  (0 <= exp_ v)%Q -> in_unit (reverse_sigmoid exp_ v).
Proof.
  intros He. unfold reverse_sigmoid, in_unit.
  assert (Hq : (0 <= 100 / (1 + exp_ v))%Q /\ (100 / (1 + exp_ v) <= inject_Z 100)%Q).
  { split.
    - apply Qle_shift_div_l; lra.
    - apply Qle_shift_div_r; [lra|]. change (inject_Z 100) with 100%Q. lra. }
  destruct (trunc_le _ 100 (proj1 Hq) (proj2 Hq)) as [H0 H1].
  assert (H0q : (0 <= inject_Z (trunc (100 / (1 + exp_ v))))%Q)
    by (change 0%Q with (inject_Z 0); now rewrite <- Zle_Qle).
  assert (H1q : (inject_Z (trunc (100 / (1 + exp_ v))) <= 100)%Q)
    by (change 100%Q with (inject_Z 100); now rewrite <- Zle_Qle).
  split.
  - apply Qle_shift_div_l; lra.
  - apply Qle_shift_div_r; lra.
Qed.

Lemma pixel_of_byte (W : nat) (p : Q) :
  (0 <= p)%Q -> (p <= 255)%Q ->
  (0 <= trunc (Qnat W * p / 255) <= Z.of_nat W)%Z.
Proof.
  intros H0 H1.
  assert (HW : (0 <= Qnat W)%Q)
    by (unfold Qnat; change 0%Q with (inject_Z 0); rewrite <- Zle_Qle; lia).
  apply trunc_le.
  - apply Qle_shift_div_l; [lra|]. rewrite Qmult_0_l.
    now apply Qmult_le_0_compat.
  - apply Qle_shift_div_r; [lra|]. fold (Qnat W). nra.
Qed.

End KeypointFacts.

(** X22.  When [blazepose.predict] resolves, the answer is [null] without a
    model or with the body pipeline disabled; otherwise it is one entry
    [{ keypoints }] made of the first output tensor of 195 or 155 values: 39
    key points labelled from the full table for 195 values, 31 labelled from
    the upper table for 155, with [id]s counting from 0. *)
Theorem blazepose_predict_keypoints `{ObjectRuntime} `{Collaborators}
    (w : World) (image : Image) (cfg : Config) (r : jsval (list Body)) :
  fst (blazepose.predict image cfg w) = Resolved r ->
  match blazepose_model w with
  | Some m =>
      if body_enabled (body cfg)
      then exists points kps,
             find blazepose.is_points (blazepose_outputs m image) = Some points /\
             r = Value [Keypoints kps] /\
             List.length kps
             = (if (List.length points =? 195)%nat then 39 else 31)%nat /\
             map kp_id kps = seq 0 (List.length kps) /\
             map kp_part kps
             = map (nth_error (if (List.length points =? 195)%nat
                               then annotations_full else annotations_upper))
                   (seq 0 (List.length kps))
      else r = Null
  | None => r = Null
  end.
Proof.
  unfold blazepose.predict, bind, get. cbn.
  destruct (blazepose_model w) as [m|]; cbn; [|congruence].
  destruct (body_enabled (body cfg)); cbn; [|congruence].
  assert (Hfound : (if negb (profile cfg)
                    then find blazepose.is_points (blazepose_outputs m image)
                    else find blazepose.is_points (blazepose_outputs m image))
                   = find blazepose.is_points (blazepose_outputs m image))
    by now destruct (profile cfg).
  rewrite Hfound.
  destruct (find blazepose.is_points (blazepose_outputs m image)) as [points|] eqn:Ef;
    cbn; [|discriminate].
  intros Hr. injection Hr as <-.
  exists points, (keypoints Math_exp annotations_full annotations_upper image points).
  split; [reflexivity|]. split; [reflexivity|].
  apply keypoints_shape.
  apply find_some in Ef. destruct Ef as [_ Hp]. unfold blazepose.is_points in Hp.
  apply orb_true_iff in Hp. destruct Hp as [Hp | Hp]; apply Nat.eqb_eq in Hp; auto.
Qed.

(** X23.  For an output of 195 or 155 values and an exponential that is never
    negative, the score and the presence of every key point lie in [0, 1]; and a key point whose x
    (respectively y) output lies in 0..255 has its pixel x (y) inside the
    frame. *)
Theorem keypoints_stay_in_range
    (exp_ : Q -> Q) (full upper : list string) (image : Image) (points : list Q)
    (kp : Keypoint) :
  List.length points = 195%nat \/ List.length points = 155%nat ->
  (forall v, (0 <= exp_ v)%Q) ->
  In kp (keypoints exp_ full upper image points) ->
  in_unit (kp_score kp) /\ in_unit (kp_presence kp) /\
  ((0 <= nth (5 * kp_id kp) points 0)%Q /\ (nth (5 * kp_id kp) points 0 <= 255)%Q ->
   (0 <= kp_x kp <= Z.of_nat (width image))%Z) /\
  ((0 <= nth (5 * kp_id kp + 1) points 0)%Q /\
   (nth (5 * kp_id kp + 1) points 0 <= 255)%Q ->
   (0 <= kp_y kp <= Z.of_nat (height image))%Z).
Proof.
  intros _ Hexp Hin. unfold keypoints in Hin. cbv zeta in Hin.
  apply in_map_iff in Hin. destruct Hin as (i & <- & _).
  cbn [kp_score kp_presence kp_x kp_y kp_id keypoint].
  split; [apply reverse_sigmoid_unit, Hexp|].
  split; [apply reverse_sigmoid_unit, Hexp|].
  rewrite Nat.add_0_r.
  split; intros [H0 H1]; now apply pixel_of_byte.
Qed.

(* ================================================================== *)
(** * Part III. The statements on the sample runtime *)
(* ================================================================== *)

Section OnTheSample.
#[local] Existing Instance Sample.runtime.
#[local] Existing Instance Sample.collaborators.

(** The overlap measure of the sample runtime is symmetric. *)
Lemma box_iou_sym (a b : list Q) : (Sample.box_iou a b == Sample.box_iou b a)%Q.
Proof.
  unfold Sample.box_iou. cbv zeta.
  rewrite orb_comm.
  destruct (Qle_bool _ 0 || Qle_bool _ 0); [reflexivity|].
  set (ya := Qmin (nth 0%nat a 0%Q) (nth 2%nat a 0%Q)).
  set (xa := Qmin (nth 1%nat a 0%Q) (nth 3%nat a 0%Q)).
  set (Ya := Qmax (nth 0%nat a 0%Q) (nth 2%nat a 0%Q)).
  set (Xa := Qmax (nth 1%nat a 0%Q) (nth 3%nat a 0%Q)).
  set (yb := Qmin (nth 0%nat b 0%Q) (nth 2%nat b 0%Q)).
  set (xb := Qmin (nth 1%nat b 0%Q) (nth 3%nat b 0%Q)).
  set (Yb := Qmax (nth 0%nat b 0%Q) (nth 2%nat b 0%Q)).
  set (Xb := Qmax (nth 1%nat b 0%Q) (nth 3%nat b 0%Q)).
  rewrite (Q.min_comm Yb Ya), (Q.max_comm yb ya),
          (Q.min_comm Xb Xa), (Q.max_comm xb xa).
  rewrite (Qplus_comm ((Yb - yb) * (Xb - xb))%Q ((Ya - ya) * (Xa - xa))%Q).
  reflexivity.
Qed.

(** What [decode] makes of the busy frame. *)
Lemma decode_outputs :
  decode Sample.outputs 416 (640, 480)%nat Sample.defaults
  = Some Sample.candidates.
Proof. vm_compute. reflexivity. Qed.

(** C2 (as amended) on the busy frame, for the bicycle. *)
Lemma decode_regression_uses_argmax_index_witness :
  decode Sample.outputs 416 (640, 480)%nat Sample.defaults
  = Some Sample.candidates /\
  In Sample.bicycle Sample.candidates /\
  exists s ft i idx,
    In s [1; 2; 4]%nat /\
    find (is_features_of s) Sample.outputs = Some ft /\
    boxIdx_table ft = Some idx /\
    let n := (dim2 ft / 4)%nat in
    let ks := idx i in
    List.length ks = 4%nat /\
    boxRaw Sample.bicycle = map clamp (box_of_offsets s 416 i ks) /\
    (four_groups ft = true ->
     forall g, (g < 4)%nat ->
       first_max_index (fun k => at_ ft i (g * n + k)) n (nth g ks 0%nat)).
Proof.
  assert (Hin : In Sample.bicycle Sample.candidates) by (unfold Sample.candidates; simpl; auto).
  split; [exact decode_outputs|]. split; [exact Hin|].
  exact (decode_regression_uses_argmax_index Sample.outputs 416 (640, 480)%nat
           Sample.defaults Sample.candidates Sample.bicycle
           decode_outputs Hin).
Defined.

(** What [decode] makes of the busy frame when the regression outputs have
    six features a cell. *)
Lemma decode_ragged_outputs :
  decode Sample.ragged_outputs 416 (640, 480)%nat Sample.defaults
  = Some Sample.ragged_candidates.
Proof. vm_compute. reflexivity. Qed.

Lemma clamp_nonpos (a : Q) : (a <= 0)%Q -> (clamp a == 0)%Q.
Proof.
  intros Ha. unfold clamp.
  destruct (Q.max_spec 0 (Qmin a 1)) as [[? E1]|[? E1]];
    destruct (Q.min_spec a 1) as [[? E2]|[? E2]]; lra.
Qed.

Lemma clamp_pos (a : Q) : (0 < a)%Q -> (0 < clamp a)%Q.
Proof.
  intros Ha. unfold clamp.
  destruct (Q.max_spec 0 (Qmin a 1)) as [[? E1]|[? E1]];
    destruct (Q.min_spec a 1) as [[? E2]|[? E2]]; lra.
Qed.

Lemma clamp_below (a : Q) : (0 <= a)%Q -> (clamp a <= a)%Q.
Proof.
  intros Ha. unfold clamp.
  destruct (Q.max_spec 0 (Qmin a 1)) as [[? E1]|[? E1]];
    destruct (Q.min_spec a 1) as [[? E2]|[? E2]]; lra.
Qed.

Lemma Qnat_nonneg (k : nat) : (0 <= Qnat k)%Q.
Proof.
  unfold Qnat. change 0%Q with (inject_Z 0). rewrite <- Zle_Qle. lia.
Qed.

Lemma Qnat_pos (k : nat) : k <> 0%nat -> (1 <= Qnat k)%Q.
Proof.
  intros Hk. unfold Qnat. change 1%Q with (inject_Z 1). rewrite <- Zle_Qle. lia.
Qed.

(** The width and the height of a box before clamping: the sum of the two
    horizontal (vertical) offset magnitudes, in units of the scaled cell. *)
Lemma box_of_offsets_size (s : nat) (isz : positive) (i k0 k1 k2 k3 : nat) :
  let a := (scaleBox / Qnat s * (Qnat (s * 13) / Qnat s / inject_Z (Zpos isz)))%Q in
  (nth 2 (box_of_offsets s isz i [k0; k1; k2; k3]) 0 == a * (Qnat k0 + Qnat k2))%Q /\
  (nth 3 (box_of_offsets s isz i [k0; k1; k2; k3]) 0 == a * (Qnat k1 + Qnat k3))%Q.
Proof.
  unfold box_of_offsets. cbv zeta. cbn [nth]. split; ring.
Qed.

(** The box of the wide bicycle comes from no four first-maximum indices of
    groups of the features, whatever the size [n] of the groups.  Groups of
    one feature give a box without width, groups of two to five features a
    box with a height, and larger groups a box half as wide at most. *)
Lemma wide_bicycle_is_no_group_argmax (s : nat) (ft : Tensor) (i n : nat)
    (ks : list nat) :
  In s [1; 2; 4]%nat ->
  find (is_features_of s) Sample.ragged_outputs = Some ft ->
  List.length ks = 4%nat ->
  (forall g, (g < 4)%nat ->
     first_max_index (fun k => at_ ft i (g * n + k)) n (nth g ks 0%nat)) ->
  boxRaw Sample.wide_bicycle <> map clamp (box_of_offsets s 416 i ks).
Proof.
  intros Hs Hft Hlen Hmax Hbox.
  set (a := (scaleBox / Qnat s * (Qnat (s * 13) / Qnat s / inject_Z 416))%Q).
  assert (Ha : (0 < a)%Q /\ (a <= 5 # 64)%Q /\ ft = Sample.ragged_features_of s).
  { subst a. destruct Hs as [<-|[<-|[<-|[]]]];
      (split; [reflexivity|]; split; [unfold Qle; simpl; lia|]);
      cbv in Hft; injection Hft as <-; reflexivity. }
  destruct Ha as (Ha0 & Ha1 & ->).
  destruct ks as [|k0 [|k1 [|k2 [|k3 [|]]]]]; try discriminate Hlen.
  destruct (box_of_offsets_size s 416 i k0 k1 k2 k3) as [Ew Eh].
  cbv zeta in Ew, Eh. fold a in Ew, Eh. clearbody a.
  assert (Hw : (73116160 # 467943424)%Q
               = clamp (nth 2 (box_of_offsets s 416 i [k0; k1; k2; k3]) 0%Q)).
  { change 0%Q with (clamp 0) at 1. rewrite <- map_nth, <- Hbox. reflexivity. }
  assert (Hh : 0%Q = clamp (nth 3 (box_of_offsets s 416 i [k0; k1; k2; k3]) 0%Q)).
  { change 0%Q with (clamp 0) at 2. rewrite <- map_nth, <- Hbox. reflexivity. }
  set (v := fun p => nth p [1; 5; -9; -8; -7; -1]%Q 0%Q).
  assert (Hv : forall p, (6 <= p)%nat -> v p = 0%Q)
    by (intros p Hp; apply nth_overflow; simpl; lia).
  change (forall g, (g < 4)%nat ->
            first_max_index (fun k => v (g * n + k)%nat) n (nth g [k0; k1; k2; k3] 0%nat))
    in Hmax.
  pose proof (Hmax 0%nat ltac:(lia)) as (H0a & H0b & H0c).
  pose proof (Hmax 1%nat ltac:(lia)) as (H1a & H1b & _).
  pose proof (Hmax 2%nat ltac:(lia)) as (H2a & _ & H2c).
  cbn [nth Nat.mul Nat.add] in H0a, H0b, H0c, H1a, H1b, H2a, H2c.
  clear Hmax Hbox Hft Hlen.
  pose proof (Qnat_nonneg k0) as Hk0. pose proof (Qnat_nonneg k1) as Hk1.
  pose proof (Qnat_nonneg k2) as Hk2. pose proof (Qnat_nonneg k3) as Hk3.
  assert (Hflat : (0 < a * (Qnat k1 + Qnat k3))%Q -> False).
  { intros Hpos. rewrite <- Eh in Hpos. apply clamp_pos in Hpos.
    rewrite <- Hh in Hpos. lra. }
  assert (Htall : k1 <> 0%nat -> False).
  { intros Hk. apply Hflat. pose proof (Qnat_pos k1 Hk). nra. }
  assert (Hsecond : (v (n + 0 + 0)%nat < v (n + 0 + 1)%nat)%Q -> (1 < n)%nat -> False).
  { intros Hlt Hn. apply Htall. intros ->.
    specialize (H1b 1%nat Hn). lra. }
  destruct n as [|[|[|[|[|[|n]]]]]].
  - lia.
  - assert (k0 = 0%nat) by lia. assert (k2 = 0%nat) by lia. subst k0 k2.
    assert (Hle : (nth 2 (box_of_offsets s 416 i [0%nat; k1; 0%nat; k3]) 0 <= 0)%Q).
    { rewrite Ew. change (Qnat 0) with 0%Q. lra. }
    apply clamp_nonpos in Hle. rewrite <- Hw in Hle. discriminate Hle.
  - apply Hsecond; [reflexivity | lia].
  - apply Hsecond; [reflexivity | lia].
  - apply Hsecond; [reflexivity | lia].
  - apply Hsecond; [reflexivity | lia].
  - assert (E2 : k2 = 0%nat).
    { destruct k2 as [|k2]; [reflexivity|]. exfalso.
      specialize (H2c 0%nat ltac:(lia)). rewrite !Hv in H2c by lia. lra. }
    assert (E0 : k0 = 1%nat).
    { specialize (H0b 1%nat ltac:(lia)).
      destruct k0 as [|[|[|[|[|[|k0]]]]]]; try reflexivity;
        try (exfalso; revert H0b; unfold v; cbn [nth]; unfold Qle; simpl; lia).
      exfalso. rewrite (Hv (S (S (S (S (S (S k0))))))) in H0b by lia.
      revert H0b. unfold v; cbn [nth]; unfold Qle; simpl; lia. }
    subst k0 k2.
    assert (Hle : (0 <= nth 2 (box_of_offsets s 416 i [1%nat; k1; 0%nat; k3]) 0)%Q).
    { rewrite Ew. change (Qnat 0) with 0%Q. change (Qnat 1) with 1%Q. lra. }
    apply clamp_below in Hle. rewrite <- Hw, Ew in Hle.
    change (Qnat 0) with 0%Q in Hle. change (Qnat 1) with 1%Q in Hle. lra.
Qed.

(** C2 as stated fails on outputs of six regression features a cell.  The
    runtime accepts the shape [[-1, 4, 6 / 4]] and answers four indices for
    every cell, and [decode] pushes the wide bicycle; but its box is the box
    of no four indices that are each the first maximum of a group of the
    features of a cell, whether the groups have [6 / 4] rounded down or any
    other number [n] of features. *)
Lemma ragged_features_are_not_grouped :
  decode Sample.ragged_outputs 416 (640, 480)%nat Sample.defaults
  = Some Sample.ragged_candidates /\
  In Sample.wide_bicycle Sample.ragged_candidates /\
  ~ exists s ft i n ks,
      In s [1; 2; 4]%nat /\
      find (is_features_of s) Sample.ragged_outputs = Some ft /\
      List.length ks = 4%nat /\
      (forall g, (g < 4)%nat ->
         first_max_index (fun k => at_ ft i (g * n + k)) n (nth g ks 0%nat)) /\
      boxRaw Sample.wide_bicycle = map clamp (box_of_offsets s 416 i ks).
Proof.
  split; [exact decode_ragged_outputs|].
  split; [right; right; left; reflexivity|].
  intros (s & ft & i & n & ks & Hs & Hft & Hlen & Hmax & Hbox).
  exact (wide_bicycle_is_no_group_argmax s ft i n ks Hs Hft Hlen Hmax Hbox).
Qed.

(** C4 on the busy frame, for the person. *)
Lemma decode_boxRaw_in_unit_witness :
  decode Sample.outputs 416 (640, 480)%nat Sample.defaults
  = Some Sample.candidates /\
  In Sample.person Sample.candidates /\
  List.length (boxRaw Sample.person) = 4%nat /\
  List.Forall in_unit (boxRaw Sample.person) /\
  box Sample.person
  = map trunc [ (nth 0%nat (boxRaw Sample.person) 0 * Qnat 640)%Q;
                (nth 1%nat (boxRaw Sample.person) 0 * Qnat 480)%Q;
                (nth 2%nat (boxRaw Sample.person) 0 * Qnat 640)%Q;
                (nth 3%nat (boxRaw Sample.person) 0 * Qnat 480)%Q ].
Proof.
  assert (Hin : In Sample.person Sample.candidates) by (unfold Sample.candidates; simpl; auto).
  split; [exact decode_outputs|]. split; [exact Hin|].
  exact (decode_boxRaw_in_unit Sample.outputs 416 (640, 480)%nat
           Sample.defaults Sample.candidates Sample.person
           decode_outputs Hin).
Defined.

(** C10 on the busy frame, for the car. *)
Lemma decode_class_is_label_index_plus_one_witness :
  decode Sample.outputs 416 (640, 480)%nat Sample.defaults
  = Some Sample.candidates /\
  In Sample.car Sample.candidates /\
  exists s st i j,
    find (is_scores_of s) Sample.outputs = Some st /\
    (i < dim1 st)%nat /\ (j < List.length labels)%nat /\ j <> 61%nat /\
    score Sample.car = at_ st i j /\
    Qgtb (score Sample.car) (minConfidence (object Sample.defaults)) = true /\
    class Sample.car = (j + 1)%nat /\
    nth_error labels j = Some (label Sample.car).
Proof.
  assert (Hin : In Sample.car Sample.candidates) by (unfold Sample.candidates; simpl; auto).
  split; [exact decode_outputs|]. split; [exact Hin|].
  exact (decode_class_is_label_index_plus_one Sample.outputs 416 (640, 480)%nat
           Sample.defaults Sample.candidates Sample.car
           decode_outputs Hin).
Defined.

(** C3 on the candidates of the busy frame, with the sample overlap measure. *)
Lemma suppress_postconditions_witness :
  (forall a b, (iou a b == iou b a)%Q) /\
  let out := suppress Sample.candidates Sample.defaults in
  (List.length out <= maxResults (object Sample.defaults))%nat /\
  StronglySorted (fun a b => (score b <= score a)%Q) out /\
  (forall p q a b, p <> q ->
     nth_error out p = Some a -> nth_error out q = Some b ->
     (iou (boxRaw a) (boxRaw b) < iouThreshold (object Sample.defaults))%Q) /\
  incl out Sample.candidates /\
  suppress [] Sample.defaults = [].
Proof.
  split; [exact box_iou_sym|].
  exact (suppress_postconditions Sample.candidates Sample.defaults
           box_iou_sym).
Defined.

(** The suppressor drops the car, whose box is the box of the person. *)
Lemma suppress_sample :
  suppress Sample.candidates Sample.defaults = Sample.survivors.
Proof. vm_compute. reflexivity. Qed.


(** What [predict] decodes from the busy frame. *)
Lemma decoded_busy :
  decoded Sample.handle Sample.busy_frame Sample.defaults = Some Sample.survivors.
Proof. vm_compute. reflexivity. Qed.




(** The sample pre-processing stage does not read the execution mode. *)
Lemma image_process_ignores_async (i : option Input) (c : Config) (b : bool) :
  image_process i (set_async b c) = image_process i c.
Proof. reflexivity. Qed.

(** C6 on the busy frame in the sample browser. *)
Lemma detect_modes_agree_witness :
  (forall i c b, image_process i (set_async b c) = image_process i c) /\
  detections_of (fst (detect Sample.busy_input (with_o_async false no_overrides)
                        (Sample.browser Sample.defaults)))
  = detections_of (fst (detect Sample.busy_input (with_o_async true no_overrides)
                          (Sample.browser Sample.defaults))).
Proof.
  split; [exact image_process_ignores_async|].
  exact (detect_modes_agree (Sample.browser Sample.defaults) Sample.busy_input no_overrides
           image_process_ignores_async).
Defined.

(** Both modes report the person and the bicycle there. *)
Lemma detect_sample_async :
  detections_of (fst (detect Sample.busy_input (with_o_async true no_overrides)
                        (Sample.browser Sample.defaults)))
  = Resolved (inr (Value Sample.survivors)).
Proof. vm_compute. reflexivity. Qed.

(** C8 fails on the code.  A sequential [detect] whose gesture stage takes
    less than a millisecond stores the gesture timing [0]; a concurrent
    [detect] after it deletes the timing only when it is truthy, so the report
    of the concurrent call still carries [gesture: 0], while the object timing
    is absent and the total is recorded. *)
Theorem async_report_keeps_zero_gesture_timing :
  async (config (this Sample.after_sync)) = false /\
  perf (this Sample.after_sync) !! "gesture" = Some 0%Z /\
  exists r w',
    detect Sample.busy_input (with_o_async true no_overrides) Sample.after_sync
    = (Resolved (Detected r), w') /\
    async (config (this w')) = true /\
    r_performance r !! "gesture" = Some 0%Z /\
    r_performance r !! "object" = None /\
    r_performance r !! "total" = Some 1%Z.
Proof.
  split; [vm_compute; reflexivity|]. split; [vm_compute; reflexivity|].
  destruct (detect Sample.busy_input (with_o_async true no_overrides) Sample.after_sync)
    as [[[e|r]|] w'] eqn:E; try (vm_compute in E; discriminate E).
  exists r, w'. split; [reflexivity|].
  assert (Hr : Resolved (Detected r)
               = fst (detect Sample.busy_input (with_o_async true no_overrides) Sample.after_sync))
    by now rewrite E.
  assert (Hw : w' = snd (detect Sample.busy_input (with_o_async true no_overrides) Sample.after_sync))
    by now rewrite E.
  clear E. vm_compute in Hr. injection Hr as ->. subst w'.
  vm_compute. repeat split; reflexivity.
Qed.

(** [warmup] resolves in the sample browser. *)
Lemma warmup_sample :
  fst (warmup no_overrides (Sample.browser Sample.defaults)) = Resolved Sample.warm_result.
Proof. vm_compute. reflexivity. Qed.

(** C9 as stated fails when the warm-up detection never settles.  With the
    body pipeline enabled and no blazepose output of 195 or 155 values for the
    warm-up sample, [blazepose.predict] raises, the inner [detect] and [warmup]
    never return, and the flag, [true] before the call and not set by the
    overrides, is left [false].  And when the overrides of the call set the
    flag, the value [warmup] saves and restores is theirs, not the one from
    before the call. *)
Lemma warmup_leaves_videoOptimized_changed :
  (videoOptimized (config (this (Sample.browser Sample.defaults))) = true /\
   o_videoOptimized Sample.body_on = None /\
   fst (warmup Sample.body_on (Sample.browser Sample.defaults)) = Pending /\
   videoOptimized
     (config (this (snd (warmup Sample.body_on (Sample.browser Sample.defaults)))))
   = false) /\
  (o_videoOptimized Sample.video_off = Some false /\
   (exists r,
      fst (warmup Sample.video_off (Sample.browser Sample.defaults)) = Resolved r) /\
   videoOptimized
     (config (this (snd (warmup Sample.video_off (Sample.browser Sample.defaults)))))
   = false).
Proof.
  split; [vm_compute; repeat split; reflexivity|].
  split; [reflexivity|].
  split; [|vm_compute; reflexivity].
  destruct (fst (warmup Sample.video_off (Sample.browser Sample.defaults)))
    as [r|] eqn:E; [now exists r|].
  vm_compute in E. discriminate E.
Qed.

(** C9 (as amended) in the sample browser, where [warmup] returns. *)
Lemma warmup_restores_videoOptimized_witness :
  fst (warmup no_overrides (Sample.browser Sample.defaults))
  = Resolved Sample.warm_result /\
  videoOptimized
    (config (this (snd (warmup no_overrides (Sample.browser Sample.defaults)))))
  = videoOptimized (config (this (Sample.browser Sample.defaults))).
Proof.
  split; [exact warmup_sample|].
  pose proof (warmup_restores_videoOptimized (Sample.browser Sample.defaults)
                no_overrides) as H.
  cbv zeta in H. rewrite warmup_sample in H.
  destruct H as [_ [_ H]]. exact (H eq_refl).
Defined.

(** *** The further properties on the sample runtime *)

Lemma person_in_candidates : In Sample.person Sample.candidates.
Proof. left. reflexivity. Qed.

Lemma bicycle_in_candidates : In Sample.bicycle Sample.candidates.
Proof. right. right. left. reflexivity. Qed.

Lemma process_outputs :
  process (Some Sample.outputs) 416 (640, 480)%nat Sample.defaults
  = Some Sample.survivors.
Proof. vm_compute. reflexivity. Qed.

Lemma healthy_browser (cfg : Config) : healthy (Sample.browser cfg).
Proof. split; [reflexivity | apply stage_positive_empty]. Qed.

Lemma healthy_after_sync : healthy Sample.after_sync.
Proof.
  unfold Sample.after_sync.
  exact (detect_healthy _ _ _ (healthy_browser Sample.defaults)).
Qed.

Lemma busy_frames_decode (f : Image) :
  In f Sample.busy_frames ->
  exists obj, decoded Sample.handle f Sample.defaults = Some obj /\ obj <> [].
Proof.
  intros Hf. apply repeat_spec in Hf. subst f.
  exists Sample.survivors. split; [exact decoded_busy | discriminate].
Qed.

Lemma detect_sample_sync :
  fst (detect Sample.busy_input no_overrides (Sample.browser Sample.defaults))
  = Resolved (Detected Sample.sync_result).
Proof. vm_compute. reflexivity. Qed.

Lemma detect_sample_after_sync :
  fst (detect Sample.busy_input (with_o_async true no_overrides) Sample.after_sync)
  = Resolved (Detected Sample.async_result).
Proof. vm_compute. reflexivity. Qed.

Lemma exp_nonneg (v : Q) : (0 <= Sample.exp_ v)%Q.
Proof.
  unfold Sample.exp_. generalize (1 + v / 2)%Q. intros a. nra.
Qed.

(** X1 on the busy frame. *)
Lemma decode_ids_count_from_zero_witness :
  decode Sample.outputs 416 (640, 480)%nat Sample.defaults
  = Some Sample.candidates /\
  map id Sample.candidates = seq 0 (List.length Sample.candidates) /\
  List.NoDup (map id Sample.candidates).
Proof.
  split; [exact decode_outputs|].
  exact (decode_ids_count_from_zero Sample.outputs 416 (640, 480)%nat
           Sample.defaults Sample.candidates decode_outputs).
Defined.

(** X3 on the busy frame, for the bicycle. *)
Lemma decode_center_inside_frame_witness :
  decode Sample.outputs 416 (640, 480)%nat Sample.defaults
  = Some Sample.candidates /\
  In Sample.bicycle Sample.candidates /\
  exists cx cy x y,
    centerRaw Sample.bicycle = [cx; cy] /\ center Sample.bicycle = [x; y] /\
    (0 < cx)%Q /\ (cx < 1)%Q /\ (0 < cy)%Q /\ (cy < 1)%Q /\
    (0 <= x <= 640)%Z /\ (0 <= y <= 480)%Z.
Proof.
  split; [exact decode_outputs|]. split; [exact bicycle_in_candidates|].
  exact (decode_center_inside_frame Sample.outputs 416 (640, 480)%nat
           Sample.defaults Sample.candidates Sample.bicycle
           decode_outputs bicycle_in_candidates).
Defined.

(** X4 on the busy frame, for the person. *)
Lemma decode_box_inside_frame_witness :
  decode Sample.outputs 416 (640, 480)%nat Sample.defaults
  = Some Sample.candidates /\
  In Sample.person Sample.candidates /\
  exists x y w h,
    box Sample.person = [x; y; w; h] /\
    (0 <= x <= 640)%Z /\ (0 <= y <= 480)%Z /\
    (0 <= w <= 640)%Z /\ (0 <= h <= 480)%Z.
Proof.
  split; [exact decode_outputs|]. split; [exact person_in_candidates|].
  exact (decode_box_inside_frame Sample.outputs 416 (640, 480)%nat
           Sample.defaults Sample.candidates Sample.person
           decode_outputs person_in_candidates).
Defined.

(** X5 on the busy frame. *)
Lemma process_results_distinct_and_confident_witness :
  process (Some Sample.outputs) 416 (640, 480)%nat Sample.defaults
  = Some Sample.survivors /\
  List.NoDup (map id Sample.survivors) /\
  List.Forall (fun c => (minConfidence (object Sample.defaults) < score c)%Q)
              Sample.survivors /\
  exists results,
    decode Sample.outputs 416 (640, 480)%nat Sample.defaults = Some results /\
    incl Sample.survivors results /\
    List.Forall (fun c => (id c < List.length results)%nat) Sample.survivors.
Proof.
  split; [exact process_outputs|].
  exact (process_results_distinct_and_confident Sample.outputs 416 (640, 480)%nat
           Sample.defaults Sample.survivors process_outputs).
Defined.

(** X7 in the sample browser, with the object model loaded. *)
Lemma predict_disabled_never_invokes_witness :
  model (nanodet_vars Sample.loaded) = Some Sample.handle /\
  object_enabled (object Sample.idle) = false /\
  trace (snd (nanodet.predict Sample.busy_frame Sample.idle Sample.loaded))
  = trace Sample.loaded /\
  fst (nanodet.predict Sample.busy_frame Sample.idle Sample.loaded)
  = if skip_test (nanodet_vars Sample.loaded) Sample.idle
    then Resolved (Value (last (nanodet_vars Sample.loaded)))
    else Pending.
Proof.
  split; [reflexivity|]. split; [reflexivity|].
  exact (predict_disabled_never_invokes Sample.loaded Sample.handle
           Sample.busy_frame Sample.idle eq_refl eq_refl).
Defined.

(** X8 on seven busy frames with [skipFrames = 2]: three invocations. *)
Lemma predict_decodes_once_per_period_witness :
  model (nanodet_vars Sample.loaded) = Some Sample.handle /\
  last (nanodet_vars Sample.loaded) = [] /\
  skipFrames (object Sample.defaults) = 2%Z /\
  (Z.of_nat 2 <= 2 ^ 53)%Z /\
  (forall f, In f Sample.busy_frames ->
     exists obj, decoded Sample.handle f Sample.defaults = Some obj /\ obj <> []) /\
  object_invocations
    (trace (snd (predict_all Sample.busy_frames Sample.defaults Sample.loaded)))
  = (object_invocations (trace Sample.loaded) + (7 + 2) / (2 + 1))%nat.
Proof.
  assert (Hn : (Z.of_nat 2 <= 2 ^ 53)%Z) by (vm_compute; discriminate).
  split; [reflexivity|]. split; [reflexivity|]. split; [reflexivity|].
  split; [exact Hn|]. split; [exact busy_frames_decode|].
  exact (predict_decodes_once_per_period Sample.loaded Sample.handle
           Sample.defaults 2 Sample.busy_frames eq_refl eq_refl eq_refl eq_refl
           eq_refl Hn busy_frames_decode).
Defined.

(** X9 on the sample video. *)
Lemma predict_without_videoOptimized_always_decodes_witness :
  model (nanodet_vars Sample.loaded) = Some Sample.handle /\
  videoOptimized Sample.unoptimized = false /\
  object_enabled (object Sample.unoptimized) = true /\
  object_invocations
    (trace (snd (predict_all Sample.video Sample.unoptimized Sample.loaded)))
  = (object_invocations (trace Sample.loaded) + List.length Sample.video)%nat /\
  fst (predict_all Sample.video Sample.unoptimized Sample.loaded)
  = map (fun f => match decoded Sample.handle f Sample.unoptimized with
                  | Some obj => Resolved (Value obj)
                  | None => Pending
                  end) Sample.video.
Proof.
  split; [reflexivity|]. split; [reflexivity|]. split; [reflexivity|].
  exact (predict_without_videoOptimized_always_decodes Sample.loaded Sample.handle
           Sample.unoptimized Sample.video eq_refl eq_refl eq_refl).
Defined.

(** X13 in the sample browser configured for node: [tensorflow] is mapped to
    [webgl], which the engine runs already and accepts. *)
Lemma checkBackend_accepted_is_not_asked_again_witness :
  backend_requested false (Sample.browser Sample.for_node) = true /\
  backend_available
    (backend (config (this (snd (checkBackend false (Sample.browser Sample.for_node))))))
  = true /\
  checkBackend false (snd (checkBackend false (Sample.browser Sample.for_node)))
  = (tt, snd (checkBackend false (Sample.browser Sample.for_node))).
Proof.
  split; [reflexivity|]. split; [reflexivity|].
  exact (checkBackend_accepted_is_not_asked_again false
           (Sample.browser Sample.for_node) eq_refl eq_refl).
Defined.

(** X14 in the sample browser, which has [Image] but no [createImageBitmap]. *)
Lemma warmup_without_a_sample_detects_nothing_witness :
  (has_Image (Sample.browser Sample.defaults)
   && negb ("none" =? "face")%string && negb ("none" =? "full")%string
   && negb ("none" =? "body")%string) = true /\
  fst (warmup Sample.warmup_none (Sample.browser Sample.defaults)) = Resolved Null /\
  trace (snd (warmup Sample.warmup_none (Sample.browser Sample.defaults))) = [].
Proof.
  split; [reflexivity|].
  pose proof (warmup_without_a_sample_detects_nothing Sample.warmup_none
                (Sample.browser Sample.defaults) eq_refl) as H.
  destruct H as (Hres & Htr & _). split; [exact Hres | exact Htr].
Defined.

(** X16 in the sample browser, on an absent input. *)
Lemma detect_fails_only_on_conversion_witness :
  healthy (Sample.browser Sample.defaults) /\
  fst (detect None no_overrides (Sample.browser Sample.defaults))
  = Resolved (Failed "could not convert input to tensor") /\
  "could not convert input to tensor"%string
  = "could not convert input to tensor"%string.
Proof.
  split; [exact (healthy_browser Sample.defaults)|].
  split; [vm_compute; reflexivity|].
  apply (detect_fails_only_on_conversion (Sample.browser Sample.defaults) None
           no_overrides "could not convert input to tensor"
           (healthy_browser Sample.defaults)).
  vm_compute. reflexivity.
Defined.

(** X17 in the sample browser. *)
Lemma detect_settles_without_object_and_blazepose_witness :
  healthy (Sample.browser Sample.defaults) /\
  object_enabled
    (object (mergeDeep (config (this (Sample.browser Sample.defaults)))
                       Sample.object_off)) = false /\
  body_enabled
    (body (mergeDeep (config (this (Sample.browser Sample.defaults)))
                     Sample.object_off)) = false /\
  exists o,
    fst (detect Sample.busy_input Sample.object_off (Sample.browser Sample.defaults))
    = Resolved o.
Proof.
  split; [exact (healthy_browser Sample.defaults)|]. split; [reflexivity|].
  split; [reflexivity|].
  exact (detect_settles_without_object_and_blazepose (Sample.browser Sample.defaults)
           Sample.busy_input Sample.object_off (healthy_browser Sample.defaults)
           eq_refl (or_introl eq_refl)).
Defined.

(** X18 in the sample browser. *)
Lemma detect_keeps_the_overrides_witness :
  healthy (Sample.browser Sample.defaults) /\
  config (this (snd (detect Sample.busy_input Sample.object_off
                       (Sample.browser Sample.defaults))))
  = set_backend
      (backend (config (this (snd (detect Sample.busy_input Sample.object_off
                                     (Sample.browser Sample.defaults))))))
      Sample.idle.
Proof.
  split; [exact (healthy_browser Sample.defaults)|].
  exact (detect_keeps_the_overrides (Sample.browser Sample.defaults)
           Sample.busy_input Sample.object_off (healthy_browser Sample.defaults)).
Defined.

(** X19 in the sample browser. *)
Lemma detect_report_has_total_and_image_witness :
  healthy (Sample.browser Sample.defaults) /\
  fst (detect Sample.busy_input no_overrides (Sample.browser Sample.defaults))
  = Resolved (Detected Sample.sync_result) /\
  r_performance Sample.sync_result = perf (this Sample.after_sync) /\
  state (this Sample.after_sync) = "idle"%string /\
  is_Some (r_performance Sample.sync_result !! "total") /\
  is_Some (r_performance Sample.sync_result !! "image").
Proof.
  split; [exact (healthy_browser Sample.defaults)|].
  split; [exact detect_sample_sync|].
  exact (detect_report_has_total_and_image (Sample.browser Sample.defaults)
           Sample.busy_input no_overrides Sample.sync_result
           (healthy_browser Sample.defaults) detect_sample_sync).
Defined.

(** X20 on a concurrent call that follows a sequential one. *)
Lemma detect_concurrent_report_drops_stage_timings_witness :
  healthy Sample.after_sync /\
  async (mergeDeep (config (this Sample.after_sync))
                   (with_o_async true no_overrides)) = true /\
  fst (detect Sample.busy_input (with_o_async true no_overrides) Sample.after_sync)
  = Resolved (Detected Sample.async_result) /\
  r_performance Sample.async_result !! "face" = None /\
  r_performance Sample.async_result !! "body" = None /\
  r_performance Sample.async_result !! "hand" = None /\
  r_performance Sample.async_result !! "object" = None.
Proof.
  split; [exact healthy_after_sync|]. split; [reflexivity|].
  split; [exact detect_sample_after_sync|].
  exact (detect_concurrent_report_drops_stage_timings Sample.after_sync
           Sample.busy_input (with_o_async true no_overrides) Sample.async_result
           healthy_after_sync eq_refl detect_sample_after_sync).
Defined.

(** X21 in the sample browser, whose defaults enable the object pipeline and
    gestures only. *)
Lemma detect_disabled_pipelines_report_nothing_witness :
  healthy (Sample.browser Sample.defaults) /\
  fst (detect Sample.busy_input no_overrides (Sample.browser Sample.defaults))
  = Resolved (Detected Sample.sync_result) /\
  r_face Sample.sync_result = Value [] /\
  (r_body Sample.sync_result = Value [] \/ r_body Sample.sync_result = Undefined) /\
  r_hand Sample.sync_result = Value [].
Proof.
  split; [exact (healthy_browser Sample.defaults)|].
  split; [exact detect_sample_sync|].
  pose proof (detect_disabled_pipelines_report_nothing
                (Sample.browser Sample.defaults) Sample.busy_input no_overrides
                Sample.sync_result (healthy_browser Sample.defaults)
                detect_sample_sync) as H.
  cbv zeta in H. destruct H as (Hf & Hb & Hh & _).
  split; [exact (Hf eq_refl)|]. split; [exact (Hb eq_refl) | exact (Hh eq_refl)].
Defined.

(** What [blazepose.predict] makes of the busy frame. *)
Lemma predict_pose :
  fst (blazepose.predict Sample.busy_frame Sample.posing Sample.posed)
  = Resolved (Value Sample.pose).
Proof. vm_compute. reflexivity. Qed.

(** X22 on the busy frame, whose second output has 155 values. *)
Lemma blazepose_predict_keypoints_witness :
  fst (blazepose.predict Sample.busy_frame Sample.posing Sample.posed)
  = Resolved (Value Sample.pose) /\
  exists points kps,
    find blazepose.is_points (blazepose_outputs Sample.pose_handle Sample.busy_frame)
    = Some points /\
    Value Sample.pose = Value [Keypoints kps] /\
    List.length kps = (if (List.length points =? 195)%nat then 39 else 31)%nat /\
    map kp_id kps = seq 0 (List.length kps) /\
    map kp_part kps
    = map (nth_error (if (List.length points =? 195)%nat
                      then annotations_full else annotations_upper))
          (seq 0 (List.length kps)).
Proof.
  split; [exact predict_pose|].
  exact (blazepose_predict_keypoints Sample.posed Sample.busy_frame Sample.posing
           (Value Sample.pose) predict_pose).
Defined.

(** X23 on the first key point of that output. *)
Lemma keypoints_stay_in_range_witness :
  List.length Sample.pose_points = 155%nat /\
  (forall v, (0 <= Sample.exp_ v)%Q) /\
  In Sample.nose (keypoints Sample.exp_ [] Sample.parts Sample.busy_frame
                            Sample.pose_points) /\
  in_unit (kp_score Sample.nose) /\ in_unit (kp_presence Sample.nose).
Proof.
  split; [reflexivity|]. split; [exact exp_nonneg|].
  assert (Hin : In Sample.nose (keypoints Sample.exp_ [] Sample.parts
                                  Sample.busy_frame Sample.pose_points))
    by (left; vm_compute; reflexivity).
  split; [exact Hin|].
  pose proof (keypoints_stay_in_range Sample.exp_ [] Sample.parts Sample.busy_frame
                Sample.pose_points Sample.nose (or_intror eq_refl) exp_nonneg Hin)
    as H.
  destruct H as (Hs & Hp & _). split; [exact Hs | exact Hp].
Defined.

End OnTheSample.
